(** * kiwi: extraction, key synthesis and rewriting of Chinese literals

    A shallow embedding of the extract-and-rewrite pipeline of kiwi-cli
    ([extract/findChineseText.ts], [extract/replace.ts], [extract/extract.ts])
    and the properties of it that the design document states.

    JavaScript strings are sequences of UTF-16 code units; they are modelled
    as [list N].  Every Chinese character the program looks for lies in the
    basic plane, so one character is one code unit.  Positions are JavaScript
    numbers and are modelled as [Z] ([indexOf] answers [-1], [slice] accepts
    negative positions). *)

From Stdlib Require Import ZArith NArith Lia Ascii String List Bool.
From stdpp Require Import base list strings pretty sorting.

Local Open Scope Z_scope.
Set Warnings "-register-all".


Abbreviation jsstring := (list N).

(** ** JavaScript strings *)
Module Js.

(** An ASCII literal as a JavaScript string. *)
Definition lit (s : string) : jsstring :=
  map N_of_ascii (list_ascii_of_string s).

(** [String(n)] for a non-negative integer. *)
Definition decimal (n : N) : jsstring := lit (pretty n).

Definition eqb (a b : jsstring) : bool := bool_decide (a = b).

(** The position a relative index of [slice] denotes in a string of length
    [len]: negative indices count from the end, everything is clamped. *)
Definition clamp (len i : Z) : Z :=
  if i <? 0 then Z.max (len + i) 0 else Z.min i len.

(** [s.slice(a, b)] *)
Definition slice (s : jsstring) (a b : Z) : jsstring :=
  let len := Z.of_nat (length s) in
  let from := clamp len a in
  let to := clamp len b in
  take (Z.to_nat (to - from)) (drop (Z.to_nat from) s).

(** [s.slice(a)] *)
Definition sliceFrom (s : jsstring) (a : Z) : jsstring :=
  slice s a (Z.of_nat (length s)).

Fixpoint isPrefix (p s : jsstring) : bool :=
  match p, s with
  | [], _ => true
  | _ :: _, [] => false
  | a :: p', b :: s' => (a =? b)%N && isPrefix p' s'
  end.

(** [_.startsWith(s, p)] *)
Definition startsWith (s p : jsstring) : bool := isPrefix p s.

(** [s.endsWith(p)] *)
Definition endsWith (s p : jsstring) : bool := isPrefix (rev p) (rev s).

(** The offset of the first occurrence of [pat] in [s], if any. *)
Fixpoint find (pat s : jsstring) : option nat :=
  if isPrefix pat s then Some 0%nat
  else match s with
       | [] => None
       | _ :: s' => S <$> find pat s'
       end.

(** [s.indexOf(pat)] *)
Definition indexOf (s pat : jsstring) : Z :=
  match find pat s with Some i => Z.of_nat i | None => -1 end.

(** [s.indexOf(pat, from)] for [0 <= from]. *)
Definition indexOfFrom (s pat : jsstring) (from : Z) : Z :=
  let k := Z.to_nat (clamp (Z.of_nat (length s)) (Z.max from 0)) in
  match find pat (drop k s) with
  | Some i => Z.of_nat (k + i)
  | None => -1
  end.

(** The greatest offset [<= bound] at which [pat] occurs in [s], searching
    offsets [0 .. bound] of the suffixes of [s]. *)
Fixpoint findLast (pat s : jsstring) (pos bound : nat) : option nat :=
  match s with
  | [] => if isPrefix pat [] && (pos <=? bound)%nat then Some pos else None
  | _ :: s' =>
      let here := if isPrefix pat s && (pos <=? bound)%nat then Some pos else None in
      match findLast pat s' (S pos) bound with
      | Some j => Some j
      | None => here
      end
  end.

(** [s.lastIndexOf(pat, from)] *)
Definition lastIndexOf (s pat : jsstring) (from : Z) : Z :=
  match findLast pat s 0%nat (Z.to_nat (Z.max from 0)) with
  | Some i => Z.of_nat i
  | None => -1
  end.

(** [s.replace(pat, rep)] with a string pattern: the first occurrence only.
    The replacement texts the program passes contain no [$] pattern. *)
Definition replaceFirst (s pat rep : jsstring) : jsstring :=
  match find pat s with
  | Some i => take i s ++ rep ++ drop (i + length pat) s
  | None => s
  end.

(** [s.replace(/pat/g, rep)] for a literal, non-empty pattern: every
    occurrence, left to right, without overlap. *)
Fixpoint replaceAllFuel (fuel : nat) (s pat rep : jsstring) : jsstring :=
  match fuel with
  | O => s
  | S fuel' =>
      if isPrefix pat s then rep ++ replaceAllFuel fuel' (drop (length pat) s) pat rep
      else match s with
           | [] => []
           | c :: s' => c :: replaceAllFuel fuel' s' pat rep
           end
  end.

Definition replaceAll (s pat rep : jsstring) : jsstring :=
  replaceAllFuel (S (length s)) s pat rep.

(** [parts.join(sep)] *)
Fixpoint join (sep : jsstring) (parts : list jsstring) : jsstring :=
  match parts with
  | [] => []
  | [p] => p
  | p :: rest => p ++ sep ++ join sep rest
  end.

(** [s.split(c)] for a separator of one character. *)
Fixpoint splitOn (c : N) (s cur : jsstring) : list jsstring :=
  match s with
  | [] => [cur]
  | x :: s' => if (x =? c)%N then cur :: splitOn c s' [] else splitOn c s' (cur ++ [x])
  end.

Definition split (s : jsstring) (c : N) : list jsstring := splitOn c s [].

(** The number of occurrences of [pat] in [s], counted left to right
    without overlap. *)
Fixpoint countFuel (fuel : nat) (pat s : jsstring) : nat :=
  match fuel with
  | O => O
  | S fuel' =>
      match s with
      | [] => O
      | _ :: s' =>
          if isPrefix pat s
          then S (countFuel fuel' pat (drop (length pat) s))
          else countFuel fuel' pat s'
      end
  end.

Definition count (pat s : jsstring) : nat := countFuel (length s) pat s.

(** [s[i] === c] *)
Definition charIs (s : jsstring) (i : Z) (c : N) : bool :=
  (0 <=? i) && bool_decide (s !! Z.to_nat i = Some c).

(** [arr.reduce(f, init)] with the index of the element as third argument. *)
Fixpoint reduceFrom {A B} (f : B -> A -> nat -> B) (i : nat) (acc : B) (l : list A) : B :=
  match l with
  | [] => acc
  | x :: l' => reduceFrom f (S i) (f acc x i) l'
  end.

Definition reduce {A B} (f : B -> A -> nat -> B) (init : B) (l : list A) : B :=
  reduceFrom f 0%nat init l.

(** Every array, the empty one too, is truthy. *)
Definition truthyArray {A} (_ : list A) : bool := true.

(** A string is truthy unless it is empty. *)
Definition truthy (s : jsstring) : bool :=
  match s with [] => false | _ => true end.

(** The maximal runs of characters satisfying [p], left to right: the
    matches of [/[...]+/g]. *)
Fixpoint runs (p : N -> bool) (s cur : jsstring) : list jsstring :=
  match s with
  | [] => match cur with [] => [] | _ => [cur] end
  | c :: s' =>
      if p c then runs p s' (cur ++ [c])
      else match cur with [] => [] | _ => [cur] end ++ runs p s' []
  end.

(** [s.match(/[...]+/g)]: [null] when nothing matches. *)
Definition matchRuns (p : N -> bool) (s : jsstring) : option (list jsstring) :=
  match runs p s [] with
  | [] => None
  | l => Some l
  end.

End Js.

(** ** Span records ([{ text, range: { start, end }, isString }]) *)

Record Range := makeRange { start : Z; end_ : Z }.

Record Span := mkSpan { text : jsstring; range : Range; isString : bool }.

#[global] Instance Range_eq_dec : EqDecision Range.
Proof. solve_decision. Defined.

#[global] Instance Span_eq_dec : EqDecision Span.
Proof. solve_decision. Defined.

(** [DOUBLE_BYTE_REGEX = /[\u4E00-\u9FFF]/g] *)
Definition isDoubleByte (c : N) : bool := ((0x4E00 <=? c) && (c <=? 0x9FFF))%N.

(** [hasChinese(str)]: [!!str && !!str.match(DOUBLE_BYTE_REGEX)] *)
Definition hasChinese (s : jsstring) : bool :=
  Js.truthy s && existsb isDoubleByte s.

(** ** Extraction ([findChineseText.ts]) *)
Module Find.

(** *** The nested-range filter of the component-file extractor *)

(** A match of the version-2 extractor: the span and its [arrf] pair, whose
    members are [undefined] ([None]) for the matches of the template walk. *)
Record Match := mkMatch { arrf0 : option Z; arrf1 : option Z; span : Span }.

(** Comparisons of numbers that may be [undefined]: false when one is. *)
Definition gt (a b : option Z) : bool :=
  match a, b with Some x, Some y => y <? x | _, _ => false end.
Definition ge (a b : option Z) : bool :=
  match a, b with Some x, Some y => y <=? x | _, _ => false end.
Definition lt (a b : option Z) : bool := gt b a.
Definition le (a b : option Z) : bool := ge b a.

(** The test of [filterNestedRanges] on [item] against [items]. *)
Definition nested (item items : Match) : bool :=
  (gt (arrf0 item) (arrf0 items) && le (arrf1 item) (arrf1 items))
  || (ge (arrf0 item) (arrf0 items) && lt (arrf1 item) (arrf1 items))
  || (gt (arrf0 item) (arrf0 items) && lt (arrf1 item) (arrf1 items)).

(** [filterNestedRanges(matches)] *)
Definition filterNestedRanges (matches : list Match) : list Match :=
  List.filter (fun item => negb (existsb (nested item) matches)) matches.

(** *** The helpers of the version-2 component-file extractor *)

(** [replaceHtmlSpaces(code)] *)
Definition replaceHtmlSpaces (code : jsstring) : jsstring :=
  Js.replaceAll
    (Js.replaceAll
       (Js.replaceAll code (Js.lit "&ensp;") (Js.lit "ccsp&;"))
       (Js.lit "&emsp;") (Js.lit "ecsp&;"))
    (Js.lit "&nbsp;") (Js.lit "ncsp&;").

(** [recoverHtmlSpaces(str)] *)
Definition recoverHtmlSpaces (str : jsstring) : jsstring :=
  Js.replaceAll
    (Js.replaceAll
       (Js.replaceAll str (Js.lit "ccsp&;") (Js.lit "&ensp;"))
       (Js.lit "ecsp&;") (Js.lit "&emsp;"))
    (Js.lit "ncsp&;") (Js.lit "&nbsp;").

(** Two texts agree as far as both go. *)
Fixpoint agree (q p : jsstring) : bool :=
  match q, p with
  | a :: q', b :: p' => (a =? b)%N && agree q' p'
  | _, _ => true
  end.

(** The text [q] can start at no place of [p], not even near its end to
    go on behind it. *)
Fixpoint fitsNowhere (q p : jsstring) : bool :=
  match p with
  | [] => true
  | _ :: p' => negb (agree q p) && fitsNowhere q p'
  end.

(** [str.replace(/\c/g, '\\c')] for one character [c]: a backslash before
    each.  In a replacement text a [$] at the end stands for itself. *)
Definition escapeChar (s : jsstring) (c : N) : jsstring :=
  Js.replaceAll s [c] [92%N; c].

(** [escapeRegExp(str)] *)
Definition escapeRegExp (str : jsstring) : jsstring :=
  escapeChar
    (escapeChar
       (escapeChar
          (escapeChar
             (escapeChar
                (escapeChar
                   (escapeChar
                      (escapeChar str 123) 125) 36) 40) 41) 43) 42) 94.

(** The characters [escapeRegExp] looks for: [{ } $ ( ) + * ^]. *)
Definition isEscaped (c : N) : bool :=
  ((c =? 123) || (c =? 125) || (c =? 36) || (c =? 40) || (c =? 41)
   || (c =? 43) || (c =? 42) || (c =? 94))%N.

(** *** The markup extractor *)

(** The [value] of a node of the markup tree: absent, a string, or an
    object with a [source] that may be absent. *)
Inductive HtmlValue :=
| ValueUndefined
| ValueString (s : jsstring)
| ValueObject (source : option jsstring).

(** The [start.offset] and [end.offset] of a span of the markup parser. *)
Record Offsets := mkOffsets { startOffset : Z; endOffset : Z }.

(** A node of the tree [compiler.parseTemplate] returns, with the members
    [visit] reads. *)
Inductive HtmlNode :=
| mkHtmlNode (value : HtmlValue) (valueSpan : option Offsets) (sourceSpan : Offsets)
             (children attributes : list HtmlNode).

(** [handleStringValue(node, value, startOffset, endOffset)] *)
Definition handleStringValue (code value : jsstring) (startOffset endOffset : Z) : Span :=
  let nodeValue := Js.slice code startOffset endOffset in
  let isString :=
    match nodeValue with
    | c :: _ => (c =? 34)%N || (c =? 39)%N
    | [] => false
    end in
  mkSpan value (makeRange startOffset endOffset) isString.

(** [handleObjectValue(node, match, startOffset, endOffset)]: [match] is one
    character matched by [DOUBLE_BYTE_REGEX]. *)
Definition handleObjectValue (code : jsstring) (match_ : N) (startOffset endOffset : Z) : Span :=
  let nodeValue := Js.slice code startOffset endOffset in
  let start := Js.indexOf nodeValue [match_] in
  let end_ := start + 1 in
  mkSpan [match_] (makeRange start end_) false.

(** [visit(node)] of [findTextInHtml], with the records it pushes in the
    order it pushes them. *)
Fixpoint visit (code : jsstring) (node : HtmlNode) : list Span :=
  match node with
  | mkHtmlNode value valueSpan sourceSpan children attributes =>
      let span := default sourceSpan valueSpan in
      let own :=
        match value with
        | ValueString v =>
            if hasChinese v
            then [handleStringValue code v (startOffset span) (endOffset span)]
            else []
        | ValueObject (Some source) =>
            if hasChinese source
            then map (fun m => handleObjectValue code m (startOffset span) (endOffset span))
                     (List.filter isDoubleByte source)
            else []
        | _ => []
        end in
      own ++ flat_map (visit code) children ++ flat_map (visit code) attributes
  end.

(** *** The script extractors *)

Inductive TsKind :=
| StringLiteral | JsxElement | JsxText | TemplateExpression
| NoSubstitutionTemplateLiteral | OtherKind.

(** A node of the tree [ts.createSourceFile] returns: its kind, [pos],
    [getStart()], [getEnd()], its [text] (of a string literal), the
    [children] of a markup element and the nodes [ts.forEachChild]
    visits. *)
Inductive TsNode :=
| mkTsNode (kind : TsKind) (pos getStart getEnd : Z) (nodeText : jsstring)
           (jsxChildren eachChild : list TsNode).

(** White space and line terminators, as [trim] removes them. *)
Definition isSpace (c : N) : bool :=
  (((9 <=? c) && (c <=? 13)) || (c =? 32) || (c =? 160) || (c =? 0x1680)
   || ((0x2000 <=? c) && (c <=? 0x200A)) || (c =? 0x2028) || (c =? 0x2029)
   || (c =? 0x202F) || (c =? 0x205F) || (c =? 0x3000) || (c =? 0xFEFF))%N.

Fixpoint trimStart (s : jsstring) : jsstring :=
  match s with
  | c :: s' => if isSpace c then trimStart s' else s
  | [] => []
  end.

(** [s.trimRight()] *)
Definition trimRight (s : jsstring) : jsstring := rev (trimStart (rev s)).

(** [s.trim()] *)
Definition trim (s : jsstring) : jsstring := trimRight (trimStart s).

Inductive BabelType :=
| BStringLiteral | BTemplateLiteral | BJSXElement | BJSXText | BOther.

(** A node of the tree [babelParser.parse] returns: its type, [start],
    [end], [value], the [children] of a markup element and the nodes the
    traversal enters below it. *)
Inductive BabelNode :=
| mkBabelNode (type : BabelType) (bstart bend : Z) (bvalue : jsstring)
              (bjsxChildren traversed : list BabelNode).

(** A call that returns or throws. *)
Inductive Result (A : Type) : Type :=
| Ok (a : A)
| Thrown (message : jsstring).
Arguments Ok {A} a.
Arguments Thrown {A} message.

(** *** The configuration file *)

(** What [JSON.parse] returns.  Only the truth value of a number matters
    here, so numbers are integers. *)
Inductive Json :=
| JNull
| JBool (b : bool)
| JNumber (z : Z)
| JString (s : jsstring)
| JArray (items : list Json)
| JObject (fields : list (jsstring * Json)).

(** The state of [kiwi.config.json] in the working directory when it is
    looked at: not there, there but not readable, not the text of a value,
    or the text of [config]. *)
Inductive ConfigFile :=
| Missing
| Unreadable
| Malformed
| Parsed (config : Json).

(** The last member of that name, as [JSON.parse] keeps it. *)
Fixpoint lastField (fields : list (jsstring * Json)) (name : jsstring) : option Json :=
  match fields with
  | [] => None
  | (k, v) :: rest =>
      match lastField rest name with
      | Some w => Some w
      | None => if Js.eqb k name then Some v else None
      end
  end.

(** [config.vueVersion]: a type error on [null], [undefined] ([Ok None]) on
    anything but an object with that member. *)
Definition vueVersionOf (config : Json) : Result (option Json) :=
  match config with
  | JNull => Thrown (Js.lit "TypeError")
  | JObject fields => Ok (lastField fields (Js.lit "vueVersion"))
  | _ => Ok None
  end.

Definition truthyJson (v : Json) : bool :=
  match v with
  | JNull => false
  | JBool b => b
  | JNumber z => negb (z =? 0)
  | JString s => Js.truthy s
  | JArray _ | JObject _ => true
  end.

(** [getVueVersionFromConfig()], given the state of the file. *)
Definition getVueVersionFromConfig (file : ConfigFile) : Json :=
  match file with
  | Parsed config =>
      match vueVersionOf config with
      | Ok (Some v) => if truthyJson v then v else JString (Js.lit "vue3")
      | Ok None => JString (Js.lit "vue3")
      | Thrown _ => JString (Js.lit "vue3")
      end
  | Missing | Unreadable | Malformed => JString (Js.lit "vue3")
  end.

(** [v === 'vue2'] *)
Definition isVue2 (v : Json) : bool :=
  match v with
  | JString s => Js.eqb s (Js.lit "vue2")
  | _ => false
  end.

Section Extractors.

(** [compiler.parseTemplate(code, 'ast.html', ...).nodes] *)
Variable parseTemplate : jsstring -> list HtmlNode.
(** The nodes [ts.forEachChild] visits below the source file
    [ts.createSourceFile] makes of the code; it makes one of any text. *)
Variable createSourceFile : jsstring -> list TsNode.
(** [removeFileComment(code, fileName)] *)
Variable removeFileComment : jsstring -> jsstring -> jsstring.
(** [babelParser.parse(code, ...)], which throws on text it rejects, as the
    list of nodes the traversal enters at the top. *)
Variable babelParse : jsstring -> Result (list BabelNode).
(** The body of [findTextInVue2], which has no handler of its own. *)
Variable findTextInVue2 : jsstring -> Result (list Span).
(** The [try] block of [findTextInVue3]. *)
Variable findTextInVue3Try : jsstring -> Result (list Span).

(** [findTextInHtml(code)] *)
Definition findTextInHtml (code : jsstring) : list Span :=
  flat_map (visit code) (parseTemplate code).

(** The three template handlers of [findTextInTs] have one body. *)
Definition handleTemplate (code : jsstring) (pos getStart getEnd : Z) : list Span :=
  let templateContent := Js.slice code pos getEnd in
  if hasChinese templateContent
  then [mkSpan (Js.slice code (getStart + 1) (getEnd - 1)) (makeRange getStart getEnd) true]
  else [].

(** [handleJsxElement(node)] of [findTextInTs], on the children of the
    element. *)
Definition handleJsxElement (code fileName : jsstring) (children : list TsNode) : list Span :=
  flat_map
    (fun child =>
       match child with
       | mkTsNode JsxText _ childStart childEnd _ _ _ =>
           let text := Js.slice code childStart childEnd in
           let noCommentText := removeFileComment text fileName in
           if hasChinese noCommentText
           then [mkSpan (trim text) (makeRange childStart childEnd) false]
           else []
       | _ => []
       end)
    children.

(** [visit(node)] of [findTextInTs] *)
Fixpoint visitTs (code fileName : jsstring) (node : TsNode) : list Span :=
  match node with
  | mkTsNode kind pos getStart getEnd nodeText jsxChildren eachChild =>
      match kind with
      | StringLiteral =>
          if hasChinese nodeText
          then [mkSpan nodeText (makeRange getStart getEnd) true]
          else []
      | JsxElement => handleJsxElement code fileName jsxChildren
      | TemplateExpression | NoSubstitutionTemplateLiteral =>
          handleTemplate code pos getStart getEnd
      | _ => []
      end ++ flat_map (visitTs code fileName) eachChild
  end.

(** [findTextInTs(code, fileName)] *)
Definition findTextInTs (code fileName : jsstring) : list Span :=
  flat_map (visitTs code fileName) (createSourceFile code).

(** [handleJSXElement(node)] of [findTextInJs], on the children of the
    element. *)
Definition handleJSXElement (children : list BabelNode) : list Span :=
  flat_map
    (fun child =>
       match child with
       | mkBabelNode BJSXText childStart childEnd value _ _ =>
           if hasChinese value
           then [mkSpan (trim value) (makeRange childStart childEnd) false]
           else []
       | _ => []
       end)
    children.

(** The visitors of [findTextInJs] at one node, then below it. *)
Fixpoint traverse (code : jsstring) (node : BabelNode) : list Span :=
  match node with
  | mkBabelNode type bstart bend bvalue bjsxChildren traversed =>
      match type with
      | BStringLiteral =>
          if hasChinese bvalue then [mkSpan bvalue (makeRange bstart bend) true] else []
      | BTemplateLiteral =>
          if hasChinese (Js.slice code bstart bend)
          then [mkSpan (Js.slice code (bstart + 1) (bend - 1)) (makeRange bstart bend) true]
          else []
      | BJSXElement => handleJSXElement bjsxChildren
      | _ => []
      end ++ flat_map (traverse code) traversed
  end.

(** [findTextInJs(code)]: what the parser throws is not caught. *)
Definition findTextInJs (code : jsstring) : Result (list Span) :=
  match babelParse code with
  | Ok ast => Ok (flat_map (traverse code) ast)
  | Thrown e => Thrown e
  end.

(** [findTextInVue3(code)]: what its [try] block throws is caught, and the
    version-2 extractor is called instead. *)
Definition findTextInVue3 (code : jsstring) : Result (list Span) :=
  match findTextInVue3Try code with
  | Ok matches => Ok matches
  | Thrown _ => findTextInVue2 code
  end.

(** [findTextInVue(code)], with the state the configuration file is in at
    the call. *)
Definition findTextInVue (config : ConfigFile) (code : jsstring) : Result (list Span) :=
  let vueVersion := getVueVersionFromConfig config in
  if isVue2 vueVersion then findTextInVue2 code else findTextInVue3 code.

(** [findChineseText(code, fileName)] *)
Definition findChineseText (config : ConfigFile) (code fileName : jsstring)
    : Result (list Span) :=
  if Js.endsWith fileName (Js.lit ".html") then Ok (findTextInHtml code)
  else if Js.endsWith fileName (Js.lit ".vue") then findTextInVue config code
  else if Js.endsWith fileName (Js.lit ".js") || Js.endsWith fileName (Js.lit ".jsx")
  then findTextInJs code
  else Ok (findTextInTs code fileName).

End Extractors.

End Find.

(** ** lodash *)
Module Lodash.

(** Insertion before the first element whose key is not smaller. *)
Fixpoint insertBy {A} (key : A -> Z) (x : A) (l : list A) : list A :=
  match l with
  | [] => [x]
  | y :: l' => if key x <=? key y then x :: l else y :: insertBy key x l'
  end.

(** [_.sortBy(arr, key)]: ascending in the key, and stable (elements with
    equal keys keep their order). *)
Definition sortBy {A} (key : A -> Z) (arr : list A) : list A :=
  foldr (insertBy key) [] arr.

End Lodash.

(** ** Plain objects with string values, in insertion order *)
Module Obj.

Abbreviation t := (list (jsstring * jsstring)).

(** The own property [key] of [obj]. *)
Fixpoint get (obj : t) (key : jsstring) : option jsstring :=
  match obj with
  | [] => None
  | (k, v) :: obj' => if Js.eqb k key then Some v else get obj' key
  end.

(** [obj[key] = v]: an existing property keeps its place. *)
Fixpoint set (obj : t) (key v : jsstring) : t :=
  match obj with
  | [] => [(key, v)]
  | (k, v') :: obj' =>
      if Js.eqb k key then (k, v) :: obj' else (k, v') :: set obj' key v
  end.

(** [_.keys(obj)] *)
Definition keys (obj : t) : list jsstring := map fst obj.

(** [arr.includes(x)] on an array of strings. *)
Definition includes (arr : list jsstring) (x : jsstring) : bool :=
  existsb (Js.eqb x) arr.

(** The members an object literal inherits from [Object.prototype]. *)
Definition prototypeNames : list jsstring :=
  [Js.lit "constructor"; Js.lit "__defineGetter__"; Js.lit "__defineSetter__";
   Js.lit "hasOwnProperty"; Js.lit "__lookupGetter__"; Js.lit "__lookupSetter__";
   Js.lit "isPrototypeOf"; Js.lit "propertyIsEnumerable"; Js.lit "toString";
   Js.lit "valueOf"; Js.lit "__proto__"; Js.lit "toLocaleString"].

Definition inherited (key : jsstring) : bool := includes prototypeNames key.

(** What [obj[key]] gives on an object literal with string values: a
    string, or the member of [Object.prototype] of that name (a function,
    and the prototype itself under [__proto__]). *)
Inductive Value :=
| Str (s : jsstring)
| Inherited (name : jsstring).

(** [obj[key]]: the own property; without one, what the object inherits
    under that name; [undefined] ([None]) otherwise. *)
Definition lookup (obj : t) (key : jsstring) : option Value :=
  match get obj key with
  | Some v => Some (Str v)
  | None => if inherited key then Some (Inherited key) else None
  end.

(** A function and an object are truthy. *)
Definition truthy (v : Value) : bool :=
  match v with
  | Str s => Js.truthy s
  | Inherited _ => true
  end.

(** [`${v}`]: a string as it is, a built-in function as Node prints it,
    the prototype as [[object Object]]. *)
Definition toText (v : Value) : jsstring :=
  match v with
  | Str s => s
  | Inherited name =>
      if Js.eqb name (Js.lit "__proto__") then Js.lit "[object Object]"
      else Js.lit "function "
           ++ (if Js.eqb name (Js.lit "constructor") then Js.lit "Object" else name)
           ++ Js.lit "() { [native code] }"
  end.

End Obj.

(** ** The catalog lookups of [utils] *)
Module Utils.

(** Modelled from the spec: [findMatchKey] is not part of the sources read
    here; the design calls it [lookupByValue]: the first key, in insertion
    order of the flattened map, whose value equals the text, or none. *)
Fixpoint findMatchKey (langObj : Obj.t) (text : jsstring) : option jsstring :=
  match langObj with
  | [] => None
  | (k, v) :: rest => if Js.eqb v text then Some k else findMatchKey rest text
  end.

(** Modelled from the spec: [findMatchValue] is not part of the sources read
    here; the design calls it [lookupByKey]: the value bound to the key, or
    none. *)
Definition findMatchValue (langObj : Obj.t) (key : jsstring) : option jsstring :=
  Obj.get langObj key.

End Utils.

(** ** Key synthesis ([extract.ts]) *)
Module Extract.

Record WorkItem := mkWorkItem { file : jsstring; texts : list Span }.

(** [_.sortBy(texts, obj => -obj.range.start)] *)
Definition sortTexts (found : list Span) : list Span :=
  Lodash.sortBy (fun obj => - start (range obj)) found.

(** The element [findAllChineseText] adds for one file whose extraction
    gave [found]: nothing when no literal was found, otherwise the literals
    sorted by [-range.start]. *)
Definition workItem (f : jsstring) (found : list Span) : option WorkItem :=
  if (0 <? length found)%nat then Some (mkWorkItem f (sortTexts found)) else None.

(** [filterTargetStrs(texts)] (also the first step of
    [generateKeyAndReplace]). *)
Definition filterTargetStrs (texts : list Span) : list Span :=
  Js.reduce
    (fun pre strObj i =>
       let afterStrs := drop (S i) texts in
       if existsb (fun obj => end_ (range strObj) <=? end_ (range obj)) afterStrs
       then pre
       else pre ++ [strObj])
    [] texts.

(** The same filter by recursion on the list: a span stays when no span
    after it ends at or after its end. *)
Fixpoint keepNotCoveredLater (texts : list Span) : list Span :=
  match texts with
  | [] => []
  | strObj :: afterStrs =>
      if existsb (fun obj => end_ (range strObj) <=? end_ (range obj)) afterStrs
      then keepNotCoveredLater afterStrs
      else strObj :: keepNotCoveredLater afterStrs
  end.



(** The providers [extractAll] goes on with
    ([CONFIG.defaultTranslateKeyApi]). *)
Inductive Origin := Pinyin | Google | Baidu.

(** What is handed to the translator for one file. *)
Inductive TranslateCall :=
| TranslateKeyText (translateOriginTexts : option jsstring) (origin : Origin)
| TranslateTextEach (fragments : list jsstring).

(** The class [[a-zA-Z\u4e00-\u9fa5]] of the pattern of
    [getTransOriginText]. *)
Definition isKeyChar (c : N) : bool :=
  (((97 <=? c) && (c <=? 122)) || ((65 <=? c) && (c <=? 90))
   || ((0x4e00 <=? c) && (c <=? 0x9fa5)))%N.

(** The string ['中文符号']. *)
Definition sentinel : jsstring := [0x4E2D; 0x6587; 0x7B26; 0x53F7]%N.

(** [getTransOriginText(text)] *)
Definition getTransOriginText (text : jsstring) : jsstring :=
  let findText := default [] (Js.matchRuns isKeyChar text) in
  if Js.truthyArray findText
  then Js.slice (Js.join [] findText) 0 5
  else sentinel.

(** The fragments of a list of literals, one for each, in the order of the
    list. *)
Definition fragments (targetStrs : list Span) : list jsstring :=
  map (fun curr => getTransOriginText (text curr)) targetStrs.

(** [origin === 'Baidu' ? '\n' : '$'] *)
Definition delimiterOf (origin : Origin) : jsstring :=
  match origin with Baidu => [10%N] | _ => Js.lit "$" end.

(** [batchTranslate(targetStrs, origin)] up to the call of the translator.
    The joined text starts from the initial value of the reduction, an empty
    array, which is what an empty list of literals leaves ([None]). *)
Definition batchTranslate (targetStrs : list Span) (origin : Origin) : TranslateCall :=
  match origin with
  | Google =>
      TranslateTextEach
        (Js.reduce (fun prev curr _ => prev ++ [getTransOriginText (text curr)])
                   [] targetStrs)
  | _ =>
      let delimiter := delimiterOf origin in
      TranslateKeyText
        (Js.reduce
           (fun prev curr i =>
              let transOriginText := getTransOriginText (text curr) in
              match i, prev with
              | O, _ => Some transOriginText
              | _, Some p => Some (p ++ delimiter ++ transOriginText)
              | _, None => Some (delimiter ++ transOriginText)
              end)
           None targetStrs)
        origin
  end.

(** [str.replace(/-/g, '_')] *)
Definition replaceHyphens (s : jsstring) : jsstring :=
  map (fun c => if (c =? 45)%N then 95%N else c) s.

(** The class [\w]. *)
Definition isWordChar (c : N) : bool :=
  (((97 <=? c) && (c <=? 122)) || ((65 <=? c) && (c <=? 90))
   || ((48 <=? c) && (c <=? 57)) || (c =? 95))%N.

(** The longest prefix of [s] whose characters satisfy [p], and what
    follows it: a greedy [[...]*]. *)
Fixpoint spanOf (p : N -> bool) (s : jsstring) : jsstring * jsstring :=
  match s with
  | c :: s' =>
      if p c then let '(taken, rest) := spanOf p s' in (c :: taken, rest) else ([], s)
  | [] => ([], [])
  end.

(** A match of [/\/pages\/\w+\/([^\/]+)\/([^\/.]+)/] at the start of [s]:
    the match and its two groups.  Each class excludes the character that
    has to follow it, so the greedy reading is the only one. *)
Definition suggestPageAt (s : jsstring) : option (jsstring * jsstring * jsstring) :=
  if Js.isPrefix (Js.lit "/pages/") s then
    match spanOf isWordChar (drop 7 s) with
    | ((_ :: _) as w, c1 :: r1) =>
        if (c1 =? 47)%N then
          match spanOf (fun c => negb (c =? 47)%N) r1 with
          | ((_ :: _) as g1, c2 :: r2) =>
              if (c2 =? 47)%N then
                match spanOf (fun c => negb (c =? 47)%N && negb (c =? 46)%N) r2 with
                | ((_ :: _) as g2, _) =>
                    Some (Js.lit "/pages/" ++ w ++ Js.lit "/" ++ g1 ++ Js.lit "/" ++ g2, g1, g2)
                | _ => None
                end
              else None
          | _ => None
          end
        else None
    | _ => None
    end
  else None.

(** [currentFilename.match(suggestPageRegex)]: the first position with a
    match, [null] when there is none. *)
Fixpoint suggestPageMatch (s : jsstring) : option (list jsstring) :=
  match suggestPageAt s with
  | Some (whole, g1, g2) => Some [whole; g1; g2]
  | None =>
      match s with
      | [] => None
      | _ :: s' => suggestPageMatch s'
      end
  end.

Section Suggestion.

(** [slash(path)] of the package [slash2]. *)
Variable slash : jsstring -> jsstring.

(** The branch of [getSuggestion] taken when the pattern of the pages gave
    nothing: the directory and the file, hyphens replaced.  A path of one
    segment has no [names[names.length - 2]], and [replace] of it is a type
    error. *)
Definition suggestFromPath (currentFilename : jsstring) : Find.Result (list jsstring) :=
  let names := Js.split (slash currentFilename) 47 in
  let fileName := default [] (last names) in
  let fileKey := replaceHyphens (default [] (head (Js.split fileName 46))) in
  if (length names <? 2)%nat then Find.Thrown (Js.lit "TypeError")
  else
    let dir := replaceHyphens (default [] (names !! (length names - 2)%nat)) in
    if Js.eqb dir fileKey then Find.Ok [dir] else Find.Ok [dir; fileKey].

(** [getSuggestion(currentFilename)] *)
Definition getSuggestion (currentFilename : jsstring) : Find.Result (list jsstring) :=
  let suggestion :=
    if bool_decide (Js.find (Js.lit "/pages/") currentFilename <> None)
    then suggestPageMatch currentFilename
    else Some [] in
  let suggestion := drop 1 <$> suggestion in
  match suggestion with
  | Some (g :: groups) => Find.Ok (g :: groups)
  | _ => suggestFromPath currentFilename
  end.

End Suggestion.

(** [findExistingKey(finalLangObj, text)] *)
Definition findExistingKey (finalLangObj : Obj.t) (text : jsstring) : option jsstring :=
  match Utils.findMatchKey finalLangObj text with
  | Some key => if Js.truthy key then Some (replaceHyphens key) else None
  | None => None
  end.

(** [generateNewKey(suggestion, langsPrefix, transText)] *)
Definition generateNewKey (suggestion : list jsstring) (langsPrefix : option jsstring)
    (transText : jsstring) : jsstring :=
  let baseKey :=
    (if (0 <? length suggestion)%nat
     then Js.join (Js.lit ".") suggestion ++ Js.lit "."
     else []) ++ transText in
  let baseKey := replaceHyphens baseKey in
  match langsPrefix with
  | Some p => if Js.truthy p then p ++ Js.lit "." ++ transText else baseKey
  | None => baseKey
  end.

(** [`${transKey}${occurTime >= 2 ? occurTime : ''}`] *)
Definition candidate (transKey : jsstring) (occurTime : N) : jsstring :=
  transKey ++ (if (2 <=? occurTime)%N then Js.decimal occurTime else []).

(** The condition of the [while] loop of [deduplicateKey]. *)
Definition collides (finalLangObj : Obj.t) (transKey text : jsstring) (occurTime : N) : bool :=
  negb (bool_decide (Utils.findMatchValue finalLangObj transKey = Some text))
  && Obj.includes (Obj.keys finalLangObj) (candidate transKey occurTime).

(** The [while] loop: [occurTime++] as long as the condition holds.  [None]
    when the given number of iterations does not reach the exit. *)
Fixpoint occurLoop (fuel : nat) (finalLangObj : Obj.t) (transKey text : jsstring)
    (occurTime : N) : option N :=
  match fuel with
  | O => None
  | S fuel' =>
      if collides finalLangObj transKey text occurTime
      then occurLoop fuel' finalLangObj transKey text (occurTime + 1)%N
      else Some occurTime
  end.

(** [deduplicateKey(finalLangObj, transKey, text)].  The loop passes a
    different key at each turn, so one turn more than the catalog has keys
    is enough. *)
Definition deduplicateKey (finalLangObj : Obj.t) (transKey text : jsstring) : option jsstring :=
  occurTime ← occurLoop (S (length finalLangObj)) finalLangObj transKey text 1%N;
  Some (if (2 <=? occurTime)%N then transKey ++ Js.decimal occurTime else transKey).

Record ReplaceItem := assembleReplaceItem
  { target : Span; key : Obj.Value; needWrite : bool }.

(** What the reduction of [getReplaceableStrs] carries: the array built so
    far and the two objects its callback mutates. *)
Record Synth := mkSynth
  { finalLangObj : Obj.t; virtualMemory : Obj.t; replaceableStrs : list ReplaceItem }.

Section KeySynthesis.

(** [_.camelCase] *)
Variable camelCase : jsstring -> jsstring.
(** [getSuggestion(currentFilename)] *)
Variable suggestion : list jsstring.
Variable langsPrefix : option jsstring.
Variable translateTexts : list jsstring.

(** [`${translateTexts[i] && _.camelCase(translateTexts[i])}`] *)
Definition transTextAt (i : nat) : jsstring :=
  match translateTexts !! i with
  | None => Js.lit "undefined"
  | Some t => if Js.truthy t then camelCase t else t
  end.

(** The callback of the reduction for a text with no entry in
    [virtualMemory]: an existing key is taken over, otherwise a new one is
    made from the i-th translation. *)
Definition assignFresh (st : Synth) (curr : Span) (i : nat) : option Synth :=
  let _text := text curr in
  match findExistingKey (finalLangObj st) _text with
  | Some existingKey =>
      Some (mkSynth (finalLangObj st) (Obj.set (virtualMemory st) _text existingKey)
              (replaceableStrs st ++ [assembleReplaceItem curr (Obj.Str existingKey) false]))
  | None =>
      let transText := transTextAt i in
      let transKey := generateNewKey suggestion langsPrefix transText in
      finalKey ← deduplicateKey (finalLangObj st) transKey _text;
      Some (mkSynth (Obj.set (finalLangObj st) finalKey _text)
              (Obj.set (virtualMemory st) _text finalKey)
              (replaceableStrs st ++ [assembleReplaceItem curr (Obj.Str finalKey) true]))
  end.

(** One call of the callback of the reduction.  [virtualMemory] is an
    object literal: [!virtualMemory[_text]] holds for an empty entry, and
    for a missing one unless the text is the name of a member every object
    inherits, which is then taken for the key. *)
Definition assign (st : Synth) (curr : Span) (i : nat) : option Synth :=
  match Obj.lookup (virtualMemory st) (text curr) with
  | Some memo =>
      if Obj.truthy memo
      then Some (mkSynth (finalLangObj st) (virtualMemory st)
                   (replaceableStrs st ++ [assembleReplaceItem curr memo true]))
      else assignFresh st curr i
  | None => assignFresh st curr i
  end.

(** [getReplaceableStrs(currentFilename, langsPrefix, translateTexts,
    targetStrs)], started on the catalog [getSuggestLangObj()] returned. *)
Definition getReplaceableStrs (langObj : Obj.t) (targetStrs : list Span) : option Synth :=
  Js.reduce (fun prev curr i => st ← prev; assign st curr i)
            (Some (mkSynth langObj [] [])) targetStrs.

(** The base key made from the i-th translation. *)
Definition baseKeyAt (i : nat) : jsstring :=
  generateNewKey suggestion langsPrefix (transTextAt i).

(** How the i-th entry of the result got its key, on the catalog [langObj]
    the file started from: it is the key of an earlier entry with the same
    text; or the text names a member every object inherits, and that member
    is the key; or it is the existing key of the text, and nothing is to be
    written; or the text has no existing key, and the key is made from the
    i-th translation. *)
Definition builtAt (langObj : Obj.t) (out : list ReplaceItem) (i : nat)
    (item : ReplaceItem) : Prop :=
  let t := text (target item) in
  (needWrite item = true
   /\ exists j item', (j < i)%nat /\ out !! j = Some item'
        /\ text (target item') = t /\ key item' = key item)
  \/ (needWrite item = true /\ Obj.inherited t = true /\ key item = Obj.Inherited t)
  \/ (needWrite item = false
      /\ exists existingKey, findExistingKey langObj t = Some existingKey
           /\ key item = Obj.Str existingKey)
  \/ (needWrite item = true /\ findExistingKey langObj t = None
      /\ exists n : N,
           key item
           = Obj.Str (if (2 <=? n)%N then baseKeyAt i ++ Js.decimal n else baseKeyAt i)).

(** What holds after [i] calls of the callback: the result has [i]
    entries, each built as [builtAt] says; every entry of [virtualMemory]
    is the text and the key of one of them, and none is under a name every
    object inherits; the catalog is the one the file started from with
    bindings added behind it, each under an empty key or to a text that has
    a key in [virtualMemory]. *)
Definition synthInv (langObj : Obj.t) (i : nat) (st : Synth) : Prop :=
  length (replaceableStrs st) = i
  /\ (forall t m, Obj.get (virtualMemory st) t = Some m ->
        Obj.inherited t = false
        /\ exists j item', replaceableStrs st !! j = Some item'
             /\ text (target item') = t /\ key item' = Obj.Str m)
  /\ (forall j item, replaceableStrs st !! j = Some item ->
        builtAt langObj (replaceableStrs st) j item)
  /\ (exists added, finalLangObj st = langObj ++ added
        /\ forall k v, (k, v) ∈ added ->
             Js.truthy k = false
             \/ exists m, Obj.get (virtualMemory st) v = Some m /\ Js.truthy m = true).

End KeySynthesis.

(** What the callback keeps besides, on a catalog [langObj] the file
    started from, when no key it makes is empty: every entry has its key
    under its text in [virtualMemory]; no key of [virtualMemory] is empty,
    and none is under a name every object inherits; each binding of
    [finalLangObj] is one of [langObj] or binds a text of [virtualMemory];
    an entry that needs no write has the key of a binding of [langObj] to
    its text. *)
Definition memoInv (langObj : Obj.t) (st : Synth) : Prop :=
  (forall item, item ∈ replaceableStrs st ->
     Obj.lookup (virtualMemory st) (text (target item)) = Some (key item))
  /\ (forall t m, Obj.get (virtualMemory st) t = Some m ->
        Js.truthy m = true /\ Obj.inherited t = false)
  /\ (forall k v, (k, v) ∈ finalLangObj st ->
        (k, v) ∈ langObj \/ exists m, Obj.get (virtualMemory st) v = Some m)
  /\ (forall item, item ∈ replaceableStrs st -> needWrite item = false ->
        exists k, (k, text (target item)) ∈ langObj
                  /\ key item = Obj.Str (replaceHyphens k)).

(** And on a catalog without a hyphen in its keys: [finalLangObj] has no
    key twice, and binds every key of [virtualMemory] to its text. *)
Definition resolveInv (st : Synth) : Prop :=
  NoDup (Obj.keys (finalLangObj st))
  /\ (forall t m, Obj.get (virtualMemory st) t = Some m ->
        Obj.get (finalLangObj st) m = Some t).

Section Walk.

(** [findChineseText(code, fileName)] with its parsers, [readFile] and
    [isFile] of [./file]. *)
Variable findChineseText : jsstring -> jsstring -> Find.Result (list Span).
Variable readFile : jsstring -> jsstring.
Variable isFile : jsstring -> bool.

(** The test of [filterFiles] in [findAllChineseText]. *)
Definition isCodeFile (file : jsstring) : bool :=
  (isFile file && Js.endsWith file (Js.lit ".ts"))
  || Js.endsWith file (Js.lit ".tsx")
  || Js.endsWith file (Js.lit ".vue")
  || Js.endsWith file (Js.lit ".js")
  || Js.endsWith file (Js.lit ".jsx").

(** The callback of the reduction of [findAllChineseText]: the work items
    so far, or what a call of [findChineseText] has thrown. *)
Definition searchStep (pre : Find.Result (list WorkItem)) (file : jsstring) (_ : nat)
    : Find.Result (list WorkItem) :=
  match pre with
  | Find.Thrown e => Find.Thrown e
  | Find.Ok pre =>
      let code := readFile file in
      match findChineseText code file with
      | Find.Thrown e => Find.Thrown e
      | Find.Ok texts =>
          Find.Ok (match workItem file texts with
                   | Some item => pre ++ [item]
                   | None => pre
                   end)
      end
  end.

(** [findAllChineseText(dir)] from the list of files on: the reduction
    over the code files.  Nothing catches what [findChineseText] throws. *)
Definition findAllChineseText (files : list jsstring) : Find.Result (list WorkItem) :=
  let filterFiles := List.filter isCodeFile files in
  Js.reduce searchStep (Find.Ok []) filterFiles.

(** How [extractAll] goes on after the search: it stops on a provider it
    does not know and when nothing was found, otherwise it takes the files
    one after the other. *)
Inductive Start :=
| UnknownProvider
| NothingToReplace
| Targets (allTargetStrs : list WorkItem).

(** [extractAll] up to the first file: the search is called outside any
    [try], so what it throws leaves [extractAll]. *)
Definition extractAllStart (providerKnown : bool) (files : list jsstring)
    : Find.Result Start :=
  if negb providerKnown then Find.Ok UnknownProvider
  else match findAllChineseText files with
       | Find.Thrown e => Find.Thrown e
       | Find.Ok [] => Find.Ok NothingToReplace
       | Find.Ok allTargetStrs => Find.Ok (Targets allTargetStrs)
       end.

End Walk.

End Extract.

(** ** Rewriting ([replace.ts]) *)
Module Replace.

(** What is written to disk, in the order it is written: a language file
    with the text it gains under a key, the aggregator of the language
    files, a source file with its new content. *)
Inductive Event :=
| WriteLangFile (targetFilename fullKey text : jsstring)
| WriteMainLangFile (newFilename : jsstring)
| WriteFile (filePath content : jsstring).

(** The files the rewriter reads and writes: the source files with their
    content, the files of the language directory (the language files and
    their aggregator) with their text, and the writes made so far.  The
    source files that are rewritten lie outside the language directory. *)
Record World := mkWorld
  { sources : Obj.t; langFiles : Obj.t; trace : list Event }.

(** What the rewriter takes from outside the sources read here to read and
    to print a language file:
    - [getLangData] of [./getLangData], of which only the call is in the
      sources: the object a language file exports, here made from the text
      of the file;
    - [_.get(obj, path)] of lodash, [None] standing for [undefined];
    - [_.set(obj, path, value)] of lodash, for a string [value];
    - [exportDefault obj], the text
      [prettierFile(`export default ${JSON.stringify(obj, null, 2)}`)]. *)
Record Libraries := mkLibraries
  { getLangData : jsstring -> Find.Json;
    lodashGet : Find.Json -> jsstring -> option Find.Json;
    lodashSet : Find.Json -> jsstring -> jsstring -> Find.Json;
    exportDefault : Find.Json -> jsstring }.

(** How the promise a function returns is settled. *)
Inductive Outcome := Resolved | Rejected (message : jsstring).

(** Modelled from the spec: [readFile] of [./file] is not part of the
    sources read here; it gives the bytes of the file (none for a file that
    is not there). *)
Definition readFile (w : World) (filePath : jsstring) : jsstring :=
  default [] (Obj.get (sources w) filePath).

(** Modelled from the spec: [writeFile] of [./file] is not part of the
    sources read here; it persists the new bytes of the file. *)
Definition writeFile (w : World) (filePath content : jsstring) : World :=
  mkWorld (Obj.set (sources w) filePath content) (langFiles w)
          (trace w ++ [WriteFile filePath content]).

(** [isScriptFile(filePath)] *)
Definition isScriptFile (filePath : jsstring) : bool :=
  Js.endsWith filePath (Js.lit ".ts") || Js.endsWith filePath (Js.lit ".tsx")
  || Js.endsWith filePath (Js.lit ".js") || Js.endsWith filePath (Js.lit ".jsx").

(** [isVueFile(filePath)] *)
Definition isVueFile (filePath : jsstring) : bool :=
  Js.endsWith filePath (Js.lit ".vue").

(** The loop of [isInVueInterpolation], from [pos = k - 1] down to 0: what
    it leaves in [foundOpen], [openPos], [foundClose] and [closePos]. *)
Fixpoint scanBack (code : jsstring) (k : nat) (foundClose : bool) (closePos : Z)
    : bool * Z * bool * Z :=
  match k with
  | O => (false, -1, foundClose, closePos)
  | S k' =>
      let pos := Z.of_nat k' in
      if (0 <? pos) && Js.charIs code (pos - 1) 123 && Js.charIs code pos 123
      then (true, pos - 1, foundClose, closePos)
      else if (0 <? pos) && Js.charIs code (pos - 1) 125 && Js.charIs code pos 125
      then scanBack code k' true (pos - 1)
      else scanBack code k' foundClose closePos
  end.

(** [isInVueInterpolation(code, start)] *)
Definition isInVueInterpolation (code : jsstring) (start : Z) : bool :=
  match scanBack code (Z.to_nat start) false (-1) with
  | (true, openPos, foundClose, closePos) =>
      if foundClose && (openPos <? closePos)
      then (openPos <? start) && (start <? closePos + 2)
      else true
  | _ => false
  end.

(** The answer of [isInVueInterpolation] in the words of its comments:
    going back from [k - 1], a [{{] is met before any [}}]. *)
Fixpoint openBeforeClose (code : jsstring) (k : nat) : bool :=
  match k with
  | O => false
  | S k' =>
      let pos := Z.of_nat k' in
      if (0 <? pos) && Js.charIs code (pos - 1) 123 && Js.charIs code pos 123 then true
      else if (0 <? pos) && Js.charIs code (pos - 1) 125 && Js.charIs code pos 125 then false
      else openBeforeClose code k'
  end.

(** [isTemplateString(code, start)] *)
Definition isTemplateString (code : jsstring) (start : Z) : bool :=
  let last1Char := Js.slice code (start - 1) start in
  Js.eqb last1Char (Js.lit "`").

(** [isPropertyAssignment(code, start)] *)
Definition isPropertyAssignment (code : jsstring) (start : Z) : bool :=
  match Js.slice code (start - 1) (start + 1) with
  | last2Char :: _ => (last2Char =? 61)%N
  | [] => false
  end.

(** [[^\}]+?\}] read from [s]: the characters before the first [}] of
    [s], and what follows that [}]. *)
Fixpoint bodyUpTo (s : jsstring) : option (jsstring * jsstring) :=
  match s with
  | [] => None
  | c :: s' =>
      if (c =? 125)%N then Some ([], s')
      else match bodyUpTo s' with
           | Some (body, rest) => Some (c :: body, rest)
           | None => None
           end
  end.

(** A match of [/(\$\{[^\}]+?\})/] at the start of [s]: [${], one
    character at least that is not [}], up to the first [}]; with the
    match, what follows it. *)
Definition matchVarAt (s : jsstring) : option (jsstring * jsstring) :=
  match s with
  | c1 :: c2 :: s' =>
      if (c1 =? 36)%N && (c2 =? 123)%N
      then match bodyUpTo s' with
           | Some (c :: body, rest) => Some (Js.lit "${" ++ (c :: body) ++ Js.lit "}", rest)
           | _ => None
           end
      else None
  | _ => None
  end.

(** The matches of [/(\$\{[^\}]+?\})/g] in [s], left to right: the search
    goes on after a match, and one character further where there is none.
    Each turn takes one character at least. *)
Fixpoint scanVars (fuel : nat) (s : jsstring) : list jsstring :=
  match fuel with
  | O => []
  | S fuel' =>
      match s with
      | [] => []
      | _ :: s' =>
          match matchVarAt s with
          | Some (found, rest) => found :: scanVars fuel' rest
          | None => scanVars fuel' s'
          end
      end
  end.

(** [text.match(/(\$\{[^\}]+?\})/g)]: [null] when nothing matches. *)
Definition matchVars (text : jsstring) : option (list jsstring) :=
  match scanVars (length text) text with
  | [] => None
  | l => Some l
  end.

(** [str.replace(/^\${([^\}]+)\}$/, '$1')] on a match of the scan: the
    text between [${] and [}]. *)
Definition stripVar (str : jsstring) : jsstring :=
  if Js.isPrefix (Js.lit "${") str && Js.endsWith str (Js.lit "}")
     && (3 <? length str)%nat && forallb (fun c => negb (c =? 125)%N)
          (take (length str - 3) (drop 2 str))
  then take (length str - 3) (drop 2 str)
  else str.

(** [`val${index + 1}`] *)
Definition valName (index : nat) : jsstring :=
  Js.lit "val" ++ Js.decimal (N.of_nat (index + 1)).

(** [handleTemplateString(text, val)]: [replaceVal] and [replaceText]. *)
Definition handleTemplateString (text val : jsstring) : jsstring * jsstring :=
  match matchVars text with
  | None => (val, text)
  | Some varInStr =>
      let kvPair :=
        imap (fun index str => valName index ++ Js.lit ": " ++ stripVar str) varInStr in
      let replaceVal :=
        Js.lit "I18N.template(" ++ val ++ Js.lit ", { "
        ++ Js.join [44; 10]%N kvPair ++ Js.lit " })" in
      let replaceText :=
        Js.reduce
          (fun replaceText str index =>
             Js.replaceFirst replaceText str (Js.lit "{" ++ valName index ++ Js.lit "}"))
          text varInStr in
      (replaceVal, replaceText)
  end.

(** An interpolation [${expr}] and the placeholder [{valN}] that stands for
    the one of index [index]. *)
Definition interpolation (expr : jsstring) : jsstring :=
  Js.lit "${" ++ expr ++ Js.lit "}".

Definition placeholder (index : nat) : jsstring :=
  Js.lit "{" ++ valName index ++ Js.lit "}".

(** A template text laid out: the text before the first interpolation,
    then each interpolation, given by its expression, with the text that
    follows it. *)
Definition templateText (lead : jsstring) (parts : list (jsstring * jsstring)) : jsstring :=
  lead ++ flat_map (fun part => interpolation (fst part) ++ snd part) parts.

(** The same text with the placeholder of its index for each interpolation,
    counting from [index]. *)
Fixpoint catalogFrom (index : nat) (parts : list (jsstring * jsstring)) : jsstring :=
  match parts with
  | [] => []
  | (_, gap) :: rest => placeholder index ++ gap ++ catalogFrom (S index) rest
  end.

Definition catalogText (lead : jsstring) (parts : list (jsstring * jsstring)) : jsstring :=
  lead ++ catalogFrom 0 parts.

(** The members [valN: expr] of the object of the call, counting from
    [index]. *)
Fixpoint pairsFrom (index : nat) (parts : list (jsstring * jsstring)) : list jsstring :=
  match parts with
  | [] => []
  | (expr, _) :: rest => (valName index ++ Js.lit ": " ++ expr) :: pairsFrom (S index) rest
  end.

(** [I18N.template(val, { val1: expr1, val2: expr2, ... })], the members
    separated by a comma and a line feed. *)
Definition templateCall (val : jsstring) (parts : list (jsstring * jsstring)) : jsstring :=
  Js.lit "I18N.template(" ++ val ++ Js.lit ", { "
  ++ Js.join [44; 10]%N (pairsFrom 0 parts) ++ Js.lit " })".

(** The layouts the scan reads as they are written: no expression is empty
    or has a [}], and no [$] stands outside the interpolations. *)
Definition simplePart (part : jsstring * jsstring) : bool :=
  Js.truthy (fst part)
  && forallb (fun c => negb (c =? 125)%N) (fst part)
  && forallb (fun c => negb (c =? 36)%N) (snd part).

Definition simpleTemplate (lead : jsstring) (parts : list (jsstring * jsstring)) : bool :=
  forallb (fun c => negb (c =? 36)%N) lead && forallb simplePart parts.

(** A write of the catalog: a language file or their aggregator. *)
Definition isCatalogWrite (e : Event) : bool :=
  match e with
  | WriteLangFile _ _ _ | WriteMainLangFile _ => true
  | WriteFile _ _ => false
  end.

(** [generateReplaceValue(val, isHtmlFile, isVueFile, isPropertyAssignment,
    isTemplateString, isInVueInterpolation)] *)
Definition generateReplaceValue (val : jsstring)
    (isHtmlFile isVueFile isPropertyAssignment isTemplateString isInVueInterpolation : bool)
    : jsstring :=
  if isPropertyAssignment then
    if isHtmlFile || isVueFile
    then Js.lit "{{" ++ val ++ Js.lit "}}"
    else Js.lit "{" ++ val ++ Js.lit "}"
  else if isTemplateString then val
  else if isInVueInterpolation && isVueFile then val
  else val.

(** [generateNonStringReplacement(code, start, end, val, isHtmlFile,
    isVueFile)] *)
Definition generateNonStringReplacement (code : jsstring) (start end_ : Z) (val : jsstring)
    (isHtmlFile isVueFile : bool) : jsstring :=
  if isHtmlFile || isVueFile
  then Js.slice code 0 start ++ Js.lit "{{" ++ val ++ Js.lit "}}" ++ Js.sliceFrom code end_
  else Js.slice code 0 start ++ Js.lit "{" ++ val ++ Js.lit "}" ++ Js.sliceFrom code end_.

(** The text [replaceAndUpdate] writes between [code.slice(0, start)] and
    [code.slice(end)] for a literal that is not inside an interpolation of
    a component file. *)
Definition replacementOf (code filePath : jsstring) (arg : Span) (val : jsstring) : jsstring :=
  let isHtmlFile := Js.endsWith filePath (Js.lit ".html") in
  let isVueFile := Js.endsWith filePath (Js.lit ".vue") in
  let start := start (range arg) in
  if isString arg then
    if isTemplateString code start then fst (handleTemplateString (text arg) val)
    else generateReplaceValue val isHtmlFile isVueFile (isPropertyAssignment code start)
           false (isInVueInterpolation code start)
  else if isHtmlFile || isVueFile then Js.lit "{{" ++ val ++ Js.lit "}}"
  else Js.lit "{" ++ val ++ Js.lit "}".

(** A text with each of the given ranges replaced by the text that goes
    with it, the ranges given from the last one of the text to the first,
    none reaching into the one before it in the list. *)
Fixpoint spliceAll (code : jsstring) (edits : list (Range * jsstring)) : jsstring :=
  match edits with
  | [] => code
  | (r, v) :: rest =>
      spliceAll (Js.slice code 0 (start r)) rest ++ v ++ Js.sliceFrom code (end_ r)
  end.

(** The name of an import and what it binds, as [checkNamedBindings] reads
    them: the names of the specifiers of [{ ... }], or the name of
    [* as name]. *)
Inductive NamedImportBindings :=
| NamedImports (elements : list jsstring)
| NamespaceImport (name : jsstring).

(** The clause of an import declaration: the default name and the named
    bindings, each of which may be absent. *)
Record ImportClause := mkImportClause
  { name : option jsstring; namedBindings : option NamedImportBindings }.

(** A child of the source file: an import declaration with its clause
    (absent in [import 'm']), or anything else. *)
Inductive TopNode :=
| ImportDeclaration (importClause : option ImportClause)
| OtherNode.

(** [checkNamedBindings(namedBindings)] *)
Definition checkNamedBindings (namedBindings : NamedImportBindings) : bool :=
  match namedBindings with
  | NamedImports elements => existsb (fun element => Js.eqb element (Js.lit "I18N")) elements
  | NamespaceImport name => Js.eqb name (Js.lit "I18N")
  end.

(** [checkImportClause(importClause)] *)
Definition checkImportClause (importClause : option ImportClause) : bool :=
  match importClause with
  | Some clause =>
      match name clause with
      | Some n => Js.eqb n (Js.lit "I18N")
      | None =>
          match namedBindings clause with
          | Some b => checkNamedBindings b
          | None => false
          end
      end
  | None => false
  end.

(** An import declaration whose clause [checkImportClause] accepts. *)
Definition importsI18N (node : TopNode) : bool :=
  match node with
  | ImportDeclaration importClause => checkImportClause importClause
  | OtherNode => false
  end.

(** [text.replace(/\\n/gm, '\n')] *)
Definition unescapeNewlines (text : jsstring) : jsstring :=
  Js.replaceAll text [92; 110]%N [10%N].

(** *** The aggregator of the language files *)

(** The line terminators: what [.] does not match, and what [^] follows
    and [$] precedes under the flag [m]. *)
Definition isLineTerminator (c : N) : bool :=
  ((c =? 10) || (c =? 13) || (c =? 0x2028) || (c =? 0x2029))%N.

(** What a replacement text stands for when the pattern has one group and
    no named one, for a match [matched] between [before] and [after]: [$$]
    is a dollar, [$&] the match, [$`] and [$'] the text before and after
    it, [$1] and [$01] the group; any other [$] stands for itself. *)
Fixpoint substitute (template matched group1 before after : jsstring) : jsstring :=
  match template with
  | [] => []
  | c :: t =>
      if (c =? 36)%N then
        match t with
        | [] => [c]
        | d :: t' =>
            if (d =? 36)%N then 36%N :: substitute t' matched group1 before after
            else if (d =? 38)%N then matched ++ substitute t' matched group1 before after
            else if (d =? 96)%N then before ++ substitute t' matched group1 before after
            else if (d =? 39)%N then after ++ substitute t' matched group1 before after
            else if (d =? 49)%N then group1 ++ substitute t' matched group1 before after
            else if (d =? 48)%N then
              match t' with
              | e :: t'' =>
                  if (e =? 49)%N then group1 ++ substitute t'' matched group1 before after
                  else c :: substitute t matched group1 before after
              | [] => c :: substitute t matched group1 before after
              end
            else c :: substitute t matched group1 before after
        end
      else c :: substitute t matched group1 before after
  end.

(** [content.replace(/...(group)/, template)] for a pattern that is the
    text [pat], ending in its one group: the first occurrence only. *)
Definition replaceGroup (content pat group1 template : jsstring) : jsstring :=
  match Js.find pat content with
  | Some i =>
      let before := take i content in
      let after := drop (i + length pat) content in
      before ++ substitute template pat group1 before after ++ after
  | None => content
  end.

(** What a replacement text stands for when the pattern has no group:
    [$$], [$&], [$`] and [$'] as above; [$1] and any other [$] stand for
    themselves. *)
Fixpoint substituteNoGroup (template matched before after : jsstring) : jsstring :=
  match template with
  | [] => []
  | c :: t =>
      if (c =? 36)%N then
        match t with
        | [] => [c]
        | d :: t' =>
            if (d =? 36)%N then 36%N :: substituteNoGroup t' matched before after
            else if (d =? 38)%N then matched ++ substituteNoGroup t' matched before after
            else if (d =? 96)%N then before ++ substituteNoGroup t' matched before after
            else if (d =? 39)%N then after ++ substituteNoGroup t' matched before after
            else c :: substituteNoGroup t matched before after
        end
      else c :: substituteNoGroup t matched before after
  end.

(** [whole.replace(/pat/g, template)] for a pattern that is the text
    [pat], not empty, on what is left of [whole] from the position [pos]:
    every occurrence, left to right, without overlap, each replaced by
    what the replacement text stands for there. *)
Fixpoint replaceAllFrom (fuel : nat) (whole s : jsstring) (pos : nat)
    (pat template : jsstring) : jsstring :=
  match fuel with
  | O => s
  | S fuel' =>
      if Js.isPrefix pat s then
        substituteNoGroup template pat (take pos whole) (drop (pos + length pat) whole)
        ++ replaceAllFrom fuel' whole (drop (length pat) s) (pos + length pat) pat template
      else match s with
           | [] => []
           | c :: s' => c :: replaceAllFrom fuel' whole s' (S pos) pat template
           end
  end.

Definition replaceAllTemplate (s pat template : jsstring) : jsstring :=
  replaceAllFrom (S (length s)) s s 0 pat template.

(** [addImportToVueFile(code, importStatement)] *)
Definition addImportToVueFile (code importStatement : jsstring) : jsstring :=
  replaceAllTemplate code (Js.lit "<script>")
    (Js.lit "<script>" ++ [10%N] ++ importStatement).

(** [createNewMainLangFile(filename)] *)
Definition createNewMainLangFile (filename : jsstring) : jsstring :=
  Js.lit "import " ++ filename ++ Js.lit " from './" ++ filename ++ Js.lit "';"
  ++ [10; 10]%N ++ Js.lit "export default Object.assign({}, {" ++ [10%N]
  ++ Js.lit "  " ++ filename ++ Js.lit "," ++ [10%N] ++ Js.lit "});".

(** An aggregator as [createNewMainLangFile] and [addImportToMainLangFile]
    lay it out: the import of [first], then those of [others], then the
    object with the members [exported]. *)
Definition aggregator (first : jsstring) (others exported : list jsstring) : jsstring :=
  Js.lit "import " ++ first ++ Js.lit " from './" ++ first ++ Js.lit "';"
  ++ flat_map (fun name => [10%N] ++ Js.lit "import " ++ name ++ Js.lit " from './"
                           ++ name ++ Js.lit "';") others
  ++ [10; 10]%N ++ Js.lit "export default Object.assign({}, {" ++ [10%N]
  ++ flat_map (fun name => Js.lit "  " ++ name ++ Js.lit "," ++ [10%N]) exported
  ++ Js.lit "});".

(** The names that read in a pattern or a replacement text as they are
    written: no line terminator, no [}] and no [$]. *)
Definition plainName (name : jsstring) : bool :=
  forallb (fun c => negb (isLineTerminator c) && negb (c =? 125)%N && negb (c =? 36)%N) name.

(** [.*?;$] read from [s] under the flag [m]: up to the first [;] that
    ends its line, with what follows it; nothing when the line ends
    before. *)
Fixpoint statementEnd (s : jsstring) : option (jsstring * jsstring) :=
  match s with
  | [] => None
  | c :: s' =>
      if isLineTerminator c then None
      else if (c =? 59)%N
              && match s' with [] => true | d :: _ => isLineTerminator d end
      then Some ([c], s')
      else match statementEnd s' with
           | Some (body, rest) => Some (c :: body, rest)
           | None => None
           end
  end.

(** A match of [/^(\s*import.*?;)$/m] at the start of [s], where a line
    starts: the match and what follows it.  The white space is followed by
    [i], so the greedy reading of [\s*] is the only one. *)
Definition importAt (s : jsstring) : option (jsstring * jsstring) :=
  let '(spaces, s1) := Extract.spanOf Find.isSpace s in
  if Js.isPrefix (Js.lit "import") s1 then
    match statementEnd (drop 6 s1) with
    | Some (body, rest) => Some (spaces ++ Js.lit "import" ++ body, rest)
    | None => None
    end
  else None.

(** The first match of that pattern in a text of which [before] has been
    passed: the text before the match, the match, the text after it.
    [atStart] tells whether a line starts here. *)
Fixpoint importMatch (before s : jsstring) (atStart : bool)
    : option (jsstring * jsstring * jsstring) :=
  match (if atStart then importAt s else None) with
  | Some (matched, rest) => Some (before, matched, rest)
  | None =>
      match s with
      | [] => None
      | c :: s' => importMatch (before ++ [c]) s' (isLineTerminator c)
      end
  end.

(** [addImportStatement(content, filename)] *)
Definition addImportStatement (content filename : jsstring) : jsstring :=
  let template :=
    Js.lit "$1" ++ [10%N] ++ Js.lit "import " ++ filename ++ Js.lit " from './"
    ++ filename ++ Js.lit "';" in
  match importMatch [] content true with
  | Some (before, matched, after) =>
      before ++ substitute template matched matched before after ++ after
  | None => content
  end.

(** [/pat/.test(content)] for a pattern that is the text [pat]. *)
Definition test (content pat : jsstring) : bool :=
  bool_decide (Js.find pat content <> None).

(** One of the two blocks of [addExportStatement], for the closing text
    [close] ([});] or [};]). *)
Definition addExportBefore (close content filename : jsstring) : jsstring :=
  if test content close then
    if test content ([44; 10]%N ++ close)
    then replaceGroup content close close
           (Js.lit "  " ++ filename ++ Js.lit "," ++ [10%N] ++ Js.lit "$1")
    else replaceGroup content ([10%N] ++ close) close
           (Js.lit "," ++ [10%N] ++ Js.lit "  " ++ filename ++ Js.lit "," ++ [10%N]
            ++ Js.lit "$1")
  else content.

(** [addExportStatement(content, filename)] *)
Definition addExportStatement (content filename : jsstring) : jsstring :=
  let content := addExportBefore (Js.lit "});") content filename in
  addExportBefore (Js.lit "};") content filename.

(** What [addImportToMainLangFile(newFilename)] writes to the aggregator,
    given its content when it exists. *)
Definition addImportToMainLangFile (mainLangFile : option jsstring) (newFilename : jsstring)
    : jsstring :=
  match mainLangFile with
  | Some mainContent =>
      addExportStatement (addImportStatement mainContent newFilename) newFilename
  | None => createNewMainLangFile newFilename
  end.

Section Rewriter.

(** [getLangDir(CONFIG.srcLang)], [CONFIG.fileType], [CONFIG.importI18N] *)
Variable srcLangDir fileType importI18N : jsstring.
(** The nodes [ts.forEachChild] visits below the source file made of the
    code, and [ast.getStart(ast, false)]. *)
Variable topLevel : jsstring -> list TopNode.
Variable getStart : jsstring -> Z.

(** What the rewriter takes from outside to read and to print a language
    file. *)
Variable lib : Libraries.

(** [generateNewLangFile(key, value)] *)
Definition generateNewLangFile (key value : jsstring) : jsstring :=
  exportDefault lib (lodashSet lib (Find.JObject []) key value).

(** [updateExistingLangFile(targetFilename, fullKey, text,
    validateDuplicate)].  The message that the object has no key is left
    out. *)
Definition updateExistingLangFile (w : World) (targetFilename fullKey text : jsstring)
    (validateDuplicate : bool) : Find.Result World :=
  let obj := getLangData lib (default [] (Obj.get (langFiles w) targetFilename)) in
  if validateDuplicate
     && match lodashGet lib obj fullKey with Some _ => true | None => false end
  then Find.Thrown (Js.lit "duplicate")
  else
    let text := unescapeNewlines text in
    Find.Ok (mkWorld (sources w)
               (Obj.set (langFiles w) targetFilename
                  (exportDefault lib (lodashSet lib obj fullKey text)))
               (trace w ++ [WriteLangFile targetFilename fullKey text])).

(** [addImportToMainLangFile(newFilename)] on the files: the aggregator
    [index] of the language directory is read when it is there, and
    written. *)
Definition mainLangFilePath : jsstring :=
  srcLangDir ++ Js.lit "/index." ++ fileType.

Definition writeMainLangFile (w : World) (newFilename : jsstring) : World :=
  mkWorld (sources w)
    (Obj.set (langFiles w) mainLangFilePath
       (addImportToMainLangFile (Obj.get (langFiles w) mainLangFilePath) newFilename))
    (trace w ++ [WriteMainLangFile newFilename]).

(** [updateLangFiles(keyValue, text, validateDuplicate)] *)
Definition updateLangFiles (w : World) (keyValue text : jsstring) (validateDuplicate : bool)
    : Find.Result World :=
  if negb (Js.startsWith keyValue (Js.lit "I18N.")) then Find.Ok w
  else
    match Js.split keyValue 46 with
    | _ :: filename :: restPath =>
        let fullKey := Js.join (Js.lit ".") restPath in
        let targetFilename := srcLangDir ++ Js.lit "/" ++ filename ++ Js.lit "." ++ fileType in
        match Obj.get (langFiles w) targetFilename with
        | None =>
            let w1 :=
              mkWorld (sources w)
                (Obj.set (langFiles w) targetFilename (generateNewLangFile fullKey text))
                (trace w ++ [WriteLangFile targetFilename fullKey text]) in
            Find.Ok (writeMainLangFile w1 filename)
        | Some _ => updateExistingLangFile w targetFilename fullKey text validateDuplicate
        end
    | _ => Find.Ok w
    end.

(** [hasImportI18N(filePath)] *)
Definition hasImportI18N (w : World) (filePath : jsstring) : bool :=
  let code := readFile w filePath in
  Js.reduce
    (fun hasImportI18N node (_ : nat) =>
       match node with
       | ImportDeclaration importClause => checkImportClause importClause || hasImportI18N
       | OtherNode => hasImportI18N
       end)
    false (topLevel code).

(** [addImportToScriptFile(code, importStatement)] *)
Definition addImportToScriptFile (code importStatement : jsstring) : jsstring :=
  let pos := getStart code in
  Js.slice code 0 pos ++ importStatement ++ Js.sliceFrom code pos.

(** [createImportI18N(filePath)] *)
Definition createImportI18N (w : World) (filePath : jsstring) : jsstring :=
  let code := readFile w filePath in
  let importStatement := importI18N ++ [10%N] in
  if isScriptFile filePath then addImportToScriptFile code importStatement
  else if isVueFile filePath then addImportToVueFile code importStatement
  else code.

(** [writeUpdatedFile(filePath, newCode, val, finalReplaceText,
    validateDuplicate, needWrite)] *)
Definition writeUpdatedFile (w : World) (filePath newCode val finalReplaceText : jsstring)
    (validateDuplicate needWrite : bool) : World * Outcome :=
  match (if needWrite
         then updateLangFiles w val finalReplaceText validateDuplicate
         else Find.Ok w) with
  | Find.Ok w1 => (writeFile w1 filePath newCode, Resolved)
  | Find.Thrown message => (w, Rejected message)
  end.

(** [replaceAndUpdate(filePath, arg, val, validateDuplicate, needWrite)] *)
Definition replaceAndUpdate (w : World) (filePath : jsstring) (arg : Span) (val : jsstring)
    (validateDuplicate needWrite : bool) : World * Outcome :=
  let code := readFile w filePath in
  let isHtmlFile := Js.endsWith filePath (Js.lit ".html") in
  let isVueFile := Js.endsWith filePath (Js.lit ".vue") in
  let finalReplaceText := text arg in
  let start := start (range arg) in
  let end_ := end_ (range arg) in
  if isString arg then
    let isPropertyAssignmentFlag := isPropertyAssignment code start in
    let isTemplateStringFlag := isTemplateString code start in
    let isInVueInterpolationFlag := isInVueInterpolation code start in
    let finalReplaceVal :=
      generateReplaceValue val isHtmlFile isVueFile isPropertyAssignmentFlag
        isTemplateStringFlag isInVueInterpolationFlag in
    let '(finalReplaceVal, finalReplaceText) :=
      if isTemplateStringFlag then handleTemplateString (text arg) val
      else (finalReplaceVal, finalReplaceText) in
    let openPos := Js.lastIndexOf code (Js.lit "{{") start in
    let closePos := Js.indexOfFrom code (Js.lit "}}") end_ in
    if isVueFile && isInVueInterpolationFlag
       && negb (openPos =? -1) && negb (closePos =? -1)
       && (openPos <=? start) && (end_ <=? closePos + 2)
    then
      let newCode := Js.slice code 0 (openPos + 2) ++ finalReplaceVal
                     ++ Js.sliceFrom code closePos in
      writeUpdatedFile w filePath newCode val finalReplaceText validateDuplicate needWrite
    else
      let newCode := Js.slice code 0 start ++ finalReplaceVal ++ Js.sliceFrom code end_ in
      writeUpdatedFile w filePath newCode val finalReplaceText validateDuplicate needWrite
  else
    let newCode := generateNonStringReplacement code start end_ val isHtmlFile isVueFile in
    writeUpdatedFile w filePath newCode val finalReplaceText validateDuplicate needWrite.

(** The end of the chain of [generateKeyAndReplace], run once every
    replacement has resolved: the import is added when the file has none. *)
Definition addImportIfAbsent (w : World) (currentFilename : jsstring) : World :=
  if negb (hasImportI18N w currentFilename)
  then writeFile w currentFilename (createImportI18N w currentFilename)
  else w.

(** The chain of [generateKeyAndReplace]: the replacements one after the
    other, then the import; the first rejection ends it. *)
Fixpoint replaceEach (w : World) (currentFilename : jsstring)
    (replaceableStrs : list Extract.ReplaceItem) : World * Outcome :=
  match replaceableStrs with
  | [] => (addImportIfAbsent w currentFilename, Resolved)
  | obj :: rest =>
      match replaceAndUpdate w currentFilename (Extract.target obj)
              (Js.lit "I18N." ++ Obj.toText (Extract.key obj)) false
              (Extract.needWrite obj) with
      | (w1, Resolved) => replaceEach w1 currentFilename rest
      | (w1, Rejected message) => (w1, Rejected message)
      end
  end.

(** [_.camelCase] and [slash] *)
Variable camelCase : jsstring -> jsstring.
Variable slash : jsstring -> jsstring.

(** [generateKeyAndReplaceFile(item, langsPrefix, origin)] from the answer
    of the translator on: [translateTexts] is [None] for an answer that is
    not truthy, [langObj] is the catalog [getSuggestLangObj()] returns.
    Without a translation nothing is done; what [getSuggestion] throws
    rejects the promise; a rejection in the chain of replacements is caught
    and reported.  The messages are left out.  [getReplaceableStrs] always
    gives a result ([getReplaceableStrs_order] below), so its [None] never
    comes. *)
Definition generateKeyAndReplaceFile (langObj : Obj.t) (langsPrefix : option jsstring)
    (w : World) (currentFilename : jsstring) (texts : list Span)
    (translateTexts : option (list jsstring)) : World * Outcome :=
  let targetStrs := Extract.filterTargetStrs texts in
  match translateTexts with
  | None | Some [] => (w, Resolved)
  | Some translateTexts =>
      match Extract.getSuggestion slash currentFilename with
      | Find.Thrown message => (w, Rejected message)
      | Find.Ok suggestion =>
          match Extract.getReplaceableStrs camelCase suggestion langsPrefix translateTexts
                  langObj targetStrs with
          | Some st => (fst (replaceEach w currentFilename (Extract.replaceableStrs st)),
                        Resolved)
          | None => (w, Resolved)
          end
      end
  end.

End Rewriter.

End Replace.

(** ** Initialisation ([init.ts]) *)
Module Init.

Definition isDigit (c : N) : bool := ((48 <=? c) && (c <=? 57))%N.

(** [str.match(/\d+/)]: the first run of digits, [null] when there is no
    digit. *)
Fixpoint matchDigits (s : jsstring) : option jsstring :=
  match s with
  | [] => None
  | c :: s' => if isDigit c then Some (fst (Extract.spanOf isDigit s)) else matchDigits s'
  end.

(** [v.name] on what [JSON.parse] returned: a type error on [null],
    [undefined] ([Ok None]) on anything but an object with that member. *)
Definition member (v : Find.Json) (name : jsstring) : Find.Result (option Find.Json) :=
  match v with
  | Find.JNull => Find.Thrown (Js.lit "TypeError")
  | Find.JObject fields => Find.Ok (Find.lastField fields name)
  | _ => Find.Ok None
  end.

(** [v?.name] for a [v] that may be [undefined]. *)
Definition optionalMember (v : option Find.Json) (name : jsstring) : option Find.Json :=
  match v with
  | Some (Find.JObject fields) => Find.lastField fields name
  | _ => None
  end.

(** [pkg.dependencies?.vue || pkg.devDependencies?.vue] *)
Definition vueVersionOfPackage (pkg : Find.Json) : Find.Result (option Find.Json) :=
  match member pkg (Js.lit "dependencies") with
  | Find.Thrown e => Find.Thrown e
  | Find.Ok dependencies =>
      match Find.truthyJson <$> optionalMember dependencies (Js.lit "vue") with
      | Some true => Find.Ok (optionalMember dependencies (Js.lit "vue"))
      | _ =>
          match member pkg (Js.lit "devDependencies") with
          | Find.Thrown e => Find.Thrown e
          | Find.Ok devDependencies =>
              Find.Ok (optionalMember devDependencies (Js.lit "vue"))
          end
      end
  end.

(** [getVueMajorVersion()], given the state of [package.json] in the
    working directory.  Whatever the [try] block throws, a value without
    [match] among it, is caught, and nothing is returned. *)
Definition getVueMajorVersion (package : Find.ConfigFile) : option jsstring :=
  match package with
  | Find.Parsed pkg =>
      match vueVersionOfPackage pkg with
      | Find.Ok (Some (Find.JString vueVersion)) =>
          if Js.truthy vueVersion then
            match matchDigits vueVersion with
            | Some digits =>
                if Js.eqb digits (Js.lit "2") then Some (Js.lit "vue2")
                else if Js.eqb digits (Js.lit "3") then Some (Js.lit "vue3")
                else None
            | None => None
            end
          else None
      | _ => None
      end
  | Find.Missing | Find.Unreadable | Find.Malformed => None
  end.

Section Config.

(** [PROJECT_CONFIG.defaultConfig] *)
Variable defaultConfig : list (jsstring * Find.Json).

(** The members of [configObj] in [creteConfigFile], in the order they
    are set; a member set to [undefined] is [None]. *)
Definition configObj (existDir type vueVersion : option jsstring)
    : list (jsstring * option Find.Json) :=
  map (fun member => (fst member, Some (snd member))) defaultConfig
  ++ [(Js.lit "kiwiDir", Find.JString <$> existDir);
      (Js.lit "fileType", Find.JString <$> type)]
  ++ match vueVersion with
     | Some version => [(Js.lit "vueVersion", Some (Find.JString version))]
     | None => []
     end.

End Config.

(** The value a member has in the end: the last one set. *)
Fixpoint lastSet (members : list (jsstring * option Find.Json)) (name : jsstring)
    : option (option Find.Json) :=
  match members with
  | [] => None
  | (k, v) :: rest =>
      match lastSet rest name with
      | Some w => Some w
      | None => if Js.eqb k name then Some v else None
      end
  end.

(** What [JSON.parse] makes of the text [JSON.stringify] gives for an
    object with these members: the members that are not [undefined] in the
    end. *)
Definition readBack (members : list (jsstring * option Find.Json)) : Find.Json :=
  Find.JObject
    (omap (fun member =>
             match lastSet members (fst member) with
             | Some (Some v) => Some (fst member, v)
             | _ => None
             end) members).

End Init.

(** ** Inputs used in the examples *)
Module Examples.

(** Stand-ins for the libraries in the examples, good for an object whose
    members are strings and for a path without a dot: the member is set or
    got by its name, and the object is printed one member a line.  No
    language file is read back in the examples. *)
Definition printMember (member : jsstring * Find.Json) : jsstring :=
  Js.lit "  " ++ fst member ++ Js.lit ": '"
  ++ match snd member with Find.JString value => value | _ => [] end
  ++ Js.lit "'," ++ [10%N].
Definition lib : Replace.Libraries :=
  Replace.mkLibraries
    (fun _ => Find.JObject [])
    (fun obj path =>
       match obj with Find.JObject members => Find.lastField members path | _ => None end)
    (fun obj path value =>
       match obj with
       | Find.JObject members => Find.JObject (members ++ [(path, Find.JString value)])
       | _ => obj
       end)
    (fun obj =>
       Js.lit "export default {" ++ [10%N]
       ++ match obj with Find.JObject members => flat_map printMember members | _ => [] end
       ++ Js.lit "};" ++ [10%N]).

(** Two literals of one file in source order: ["甲"] at 0..3 and ["乙"] at
    10..13. *)
Definition jia : Span := mkSpan [0x7532%N] (makeRange 0 3) true.
Definition yi : Span := mkSpan [0x4E59%N] (makeRange 10 13) true.



(** The text ["你有${n}条"] of a template literal, and a file in which the
    span 5..12 of that text follows a backtick. *)
Definition niYou : jsstring := [0x4F60; 0x6709]%N ++ Js.lit "${n}" ++ [0x6761]%N.
Definition niYouFile : jsstring := Js.lit "x = `" ++ niYou ++ Js.lit "`".
Definition niYouSpan : Span := mkSpan niYou (makeRange 5 12) true.
Definition niYouWorld : Replace.World :=
  Replace.mkWorld [(Js.lit "a.ts", niYouFile)] [] [].

(** The text ["中${f({})}"]: the expression of its interpolation has a
    [}]; and a file in which the span 5..14 of that text follows a
    backtick. *)
Definition braces : jsstring := [0x4E2D%N] ++ Js.lit "${f({})}".
Definition bracesFile : jsstring := Js.lit "x = `" ++ braces ++ Js.lit "`".
Definition bracesSpan : Span := mkSpan braces (makeRange 5 14) true.
Definition bracesWorld : Replace.World :=
  Replace.mkWorld [(Js.lit "a.ts", bracesFile)] [] [].

(** The tree of the file [x = `你有${n}条`]: the statement, and below it
    the template expression, whose [getStart()] 4 is at the backtick; and
    the span the typed-script extractor reports for it. *)
Definition niYouNodes : list Find.TsNode :=
  [Find.mkTsNode Find.OtherKind 0 0 13 [] []
     [Find.mkTsNode Find.TemplateExpression 3 4 13 [] [] []]].
Definition niYouFound : Span := mkSpan niYou (makeRange 4 13) true.

(** The file [const a = '提交';] with the span of its literal. *)
Definition tiJiaoFile : jsstring := Js.lit "const a = '" ++ [0x63D0; 0x4EA4]%N ++ Js.lit "';".
Definition tiJiaoSpan : Span := mkSpan [0x63D0; 0x4EA4]%N (makeRange 10 14) true.
Definition tiJiaoWorld : Replace.World :=
  Replace.mkWorld [(Js.lit "a.ts", tiJiaoFile)] [] [].

(** A component file with a [<script setup>] block, the span of the text
    of its template, and the entry that replaces it. *)
Definition queDingFile : jsstring :=
  Js.lit "<template><p>" ++ [0x786E; 0x5B9A]%N ++ Js.lit "</p></template>" ++ [10%N]
  ++ Js.lit "<script setup>" ++ [10%N] ++ Js.lit "</script>".
Definition queDingItem : Extract.ReplaceItem :=
  Extract.assembleReplaceItem (mkSpan [0x786E; 0x5B9A]%N (makeRange 13 15) false)
    (Obj.Str (Js.lit "common.queDing")) true.
Definition queDingWorld : Replace.World :=
  Replace.mkWorld [(Js.lit "a.vue", queDingFile)] [] [].

(** A component file with a plain [<script>] block. *)
Definition plainScriptFile : jsstring :=
  Js.lit "<template><p>{{I18N.common.queDing}}</p></template>" ++ [10%N]
  ++ Js.lit "<script>" ++ [10%N] ++ Js.lit "export default {}" ++ [10%N]
  ++ Js.lit "</script>".
Definition plainScriptWorld : Replace.World :=
  Replace.mkWorld [(Js.lit "b.vue", plainScriptFile)] [] [].

(** A component file whose script names [<script>] in a comment. *)
Definition namedScriptFile : jsstring :=
  Js.lit "<template><p>{{I18N.common.queDing}}</p></template>" ++ [10%N]
  ++ Js.lit "<script>" ++ [10%N] ++ Js.lit "// <script> holds the component" ++ [10%N]
  ++ Js.lit "export default {}" ++ [10%N] ++ Js.lit "</script>".
Definition namedScriptWorld : Replace.World :=
  Replace.mkWorld [(Js.lit "c.vue", namedScriptFile)] [] [].

(** The configured import statement. *)
Definition importI18N : jsstring := Js.lit "import I18N from 'src/utils/I18N';".

(** The markup [<p>{{a}}中</p>] and the tree the parser makes of it: the
    element, from 0 to 13, with one child, the bound text [{{a}}中] from 3
    to 9, whose value is an object with that text as [source]. *)
Definition boundTextCode : jsstring := Js.lit "<p>{{a}}" ++ [0x4E2D%N] ++ Js.lit "</p>".
Definition boundTextNodes : list Find.HtmlNode :=
  [Find.mkHtmlNode Find.ValueUndefined None (Find.mkOffsets 0 13)
     [Find.mkHtmlNode (Find.ValueObject (Some (Js.lit "{{a}}" ++ [0x4E2D%N]))) None
        (Find.mkOffsets 3 9) [] []]
     []].

(** A script file the parser rejects, and a typed-script file with the
    literal ['提交'] from 10 to 14. *)
Definition rejectedCode : jsstring := Js.lit "const = ;".
Definition tiJiaoNodes : list Find.TsNode :=
  [Find.mkTsNode Find.OtherKind 0 0 15 [] []
     [Find.mkTsNode Find.StringLiteral 9 10 14 [0x63D0; 0x4EA4]%N [] []]].
Definition twoFiles (file : jsstring) : jsstring :=
  if Js.eqb file (Js.lit "a.js") then rejectedCode else tiJiaoFile.
Definition rejecting (code : jsstring) : Find.Result (list Find.BabelNode) :=
  if Js.eqb code rejectedCode then Find.Thrown (Js.lit "SyntaxError") else Find.Ok [].

(** The extractor with the parsers above; the component-file extractors are
    not called in the examples. *)
Definition find : jsstring -> jsstring -> Find.Result (list Span) :=
  Find.findChineseText (fun _ => boundTextNodes) (fun _ => tiJiaoNodes) (fun text _ => text)
    rejecting (fun _ => Find.Ok []) (fun _ => Find.Ok []) Find.Missing.

(** The typed-script file [const a = /* 中 */ `x${b}`;] and the tree of it:
    the statement, its declaration, and below it the template expression,
    whose [pos] 9 is before the comment and whose [getStart()] 18 is at the
    backtick. *)
Definition commentCode : jsstring :=
  Js.lit "const a = /* " ++ [0x4E2D%N] ++ Js.lit " */ `x${b}`;".
Definition commentNodes : list Find.TsNode :=
  [Find.mkTsNode Find.OtherKind 0 0 26 [] []
     [Find.mkTsNode Find.OtherKind 0 0 25 [] []
        [Find.mkTsNode Find.OtherKind 5 6 25 [] []
           [Find.mkTsNode Find.TemplateExpression 9 18 25 [] [] []]]]].

(** A catalog in which [pages.user.queRen] is bound to ["确认删除"], and the
    text ["确认"]. *)
Definition queRenCatalog : Obj.t :=
  [(Js.lit "pages.user.queRen", [0x786E; 0x8BA4; 0x5220; 0x9664]%N)].
Definition queRen : jsstring := [0x786E; 0x8BA4]%N.

(** A configuration without [vueVersion], and one that asks for version
    2. *)
Definition plainConfig : Find.Json :=
  Find.JObject [(Js.lit "kiwiDir", Find.JString (Js.lit "./.kiwi"))].
Definition vue2Config : Find.Json :=
  Find.JObject [(Js.lit "vueVersion", Find.JString (Js.lit "vue2"))].

(** The text ["甲"] a second time, further down the file, and a catalog in
    which [common.jia] is bound to it. *)
Definition jiaAgain : Span := mkSpan [0x7532%N] (makeRange 10 13) true.
Definition jiaCatalog : Obj.t := [(Js.lit "common.jia", [0x7532%N])].

(** A literal whose text is the name of a member every object inherits. *)
Definition constructorSpan : Span := mkSpan (Js.lit "constructor") (makeRange 20 33) true.

(** The file [f('甲', '乙')] with the spans of its two literals, quotes
    included, a span inside the second literal, and the entries that
    replace the two literals, the last one first. *)
Definition callFile : jsstring :=
  Js.lit "f('" ++ [0x7532%N] ++ Js.lit "', '" ++ [0x4E59%N] ++ Js.lit "')".
Definition callJia : Span := mkSpan [0x7532%N] (makeRange 2 5) true.
Definition callYi : Span := mkSpan [0x4E59%N] (makeRange 7 10) true.
Definition callInYi : Span := mkSpan [0x4E59%N] (makeRange 8 9) false.
Definition callWorld : Replace.World :=
  Replace.mkWorld [(Js.lit "a.ts", callFile)] [] [].
Definition srcCallWorld : Replace.World :=
  Replace.mkWorld [(Js.lit "src/f/a.ts", callFile)] [] [].
Definition callItems : list Extract.ReplaceItem :=
  [Extract.assembleReplaceItem callYi (Obj.Str (Js.lit "common.yi")) true;
   Extract.assembleReplaceItem callJia (Obj.Str (Js.lit "common.jia")) true].

(** The component file [<p>{{ '中' + x }}</p>] with the span of its
    literal, quotes included. *)
Definition zhongFile : jsstring :=
  Js.lit "<p>{{ '" ++ [0x4E2D%N] ++ Js.lit "' + x }}</p>".
Definition zhongSpan : Span := mkSpan [0x4E2D%N] (makeRange 6 9) true.
Definition zhongWorld : Replace.World :=
  Replace.mkWorld [(Js.lit "a.vue", zhongFile)] [] [].

(** A [package.json] that depends on [vue] at [^2.6.14]. *)
Definition vue2Package : Find.Json :=
  Find.JObject
    [(Js.lit "dependencies",
      Find.JObject [(Js.lit "vue", Find.JString (Js.lit "^2.6.14"))])].

End Examples.

(** * Properties *)

(** ** Strings *)

Lemma join_empty_concat (parts : list jsstring) : Js.join [] parts = concat parts.
Proof.
  induction parts as [|p [|q rest] IH]; simpl in *.
  - reflexivity.
  - now rewrite app_nil_r.
  - now rewrite IH.
Qed.

Lemma runs_concat p s cur :
  concat (Js.runs p s cur) = cur ++ filter (fun c => p c = true) s.
Proof.
  revert cur. induction s as [|c s IH]; intros cur; simpl.
  - destruct cur; simpl; now rewrite ?app_nil_r.
  - rewrite filter_cons. destruct (p c) eqn:Hc.
    + rewrite decide_True by reflexivity. rewrite IH, <- app_assoc. reflexivity.
    + rewrite decide_False by discriminate.
      rewrite concat_app, IH. destruct cur; simpl; now rewrite ?app_nil_r.
Qed.

Lemma slice_0 (s : jsstring) (n : nat) : Js.slice s 0 (Z.of_nat n) = take n s.
Proof.
  unfold Js.slice, Js.clamp.
  destruct (Z.ltb_spec 0 0) as [E0|E0]; [lia|].
  destruct (Z.ltb_spec (Z.of_nat n) 0) as [E|E]; [lia|].
  replace (Z.to_nat (Z.min 0 (Z.of_nat (length s)))) with 0%nat by lia.
  rewrite drop_0.
  destruct (Nat.le_gt_cases n (length s)) as [Hle|Hgt].
  - f_equal. lia.
  - rewrite !take_ge by lia. reflexivity.
Qed.

(** The fragment is the first five of the kept characters, always. *)
Lemma getTransOriginText_take text :
  Extract.getTransOriginText text =
  take 5 (filter (fun c => Extract.isKeyChar c = true) text).
Proof.
  unfold Extract.getTransOriginText, Js.truthyArray, Js.matchRuns.
  change 5 with (Z.of_nat 5). rewrite slice_0, join_empty_concat.
  pose proof (runs_concat Extract.isKeyChar text []) as H. simpl in H.
  destruct (Js.runs Extract.isKeyChar text []) eqn:E; simpl in *.
  - now rewrite <- H.
  - now rewrite <- H.
Qed.

(** C9.  The fragment is the first five of the characters of the text that
    are Chinese (up to U+9FA5) or Latin letters, and nothing else: a
    literal made of the character U+9FA6 passes the Chinese test of the
    extractors and is prepared as the empty fragment.  The sentinel is
    never produced in its place. *)
Theorem C9_fragment_empty_instead_of_sentinel :
  (forall text,
     Extract.getTransOriginText text
     = take 5 (filter (fun c => Extract.isKeyChar c = true) text))
  /\ hasChinese [0x9FA6%N] = true
  /\ Extract.getTransOriginText [0x9FA6%N] = []
  /\ Js.eqb (Extract.getTransOriginText [0x9FA6%N]) Extract.sentinel = false.
Proof.
  split; [apply getTransOriginText_take|]. repeat split; vm_compute; reflexivity.
Qed.

(** ** Objects and catalog lookups *)

Lemma eqb_eq (a b : jsstring) : Js.eqb a b = true <-> a = b.
Proof. unfold Js.eqb. apply bool_decide_eq_true. Qed.

Lemma eqb_neq (a b : jsstring) : Js.eqb a b = false <-> a <> b.
Proof. unfold Js.eqb. apply bool_decide_eq_false. Qed.

Lemma includes_elem (arr : list jsstring) (x : jsstring) :
  Obj.includes arr x = true <-> x ∈ arr.
Proof.
  unfold Obj.includes. rewrite existsb_exists. split.
  - intros (y & Hin & Heq). apply eqb_eq in Heq. subst y.
    now apply list_elem_of_In.
  - intros Hin. exists x. split; [now apply list_elem_of_In | now apply eqb_eq].
Qed.

Lemma get_None_keys (obj : Obj.t) (k : jsstring) :
  Obj.get obj k = None <-> k ∉ Obj.keys obj.
Proof.
  induction obj as [|[k' v'] obj IH]; simpl.
  - split; [intros _ H; inversion H | reflexivity].
  - rewrite not_elem_of_cons. destruct (Js.eqb k' k) eqn:E.
    + apply eqb_eq in E. subst. split; [discriminate | intros [H _]; congruence].
    + apply eqb_neq in E. rewrite IH. intuition congruence.
Qed.

Lemma get_set_eq (obj : Obj.t) (k v : jsstring) :
  Obj.get (Obj.set obj k v) k = Some v.
Proof.
  induction obj as [|[k' v'] obj IH]; simpl.
  - replace (Js.eqb k k) with true; [reflexivity|]. symmetry. now apply eqb_eq.
  - destruct (Js.eqb k' k) eqn:E; simpl; rewrite E; [reflexivity | exact IH].
Qed.

Lemma get_set_ne (obj : Obj.t) (k k' v : jsstring) :
  k <> k' -> Obj.get (Obj.set obj k v) k' = Obj.get obj k'.
Proof.
  intros Hne. induction obj as [|[k0 v0] obj IH]; simpl.
  - replace (Js.eqb k k') with false; [reflexivity|]. symmetry. now apply eqb_neq.
  - destruct (Js.eqb k0 k) eqn:E; simpl.
    + apply eqb_eq in E. subst k0.
      replace (Js.eqb k k') with false; [reflexivity|]. symmetry. now apply eqb_neq.
    + destruct (Js.eqb k0 k'); [reflexivity | exact IH].
Qed.

(** Writing a value under a key leaves every binding of the object as it
    was, provided the key is new or already bound to that value. *)
Lemma set_preserves (obj : Obj.t) (key v : jsstring) :
  (Obj.get obj key = None \/ Obj.get obj key = Some v) ->
  forall k w, Obj.get obj k = Some w -> Obj.get (Obj.set obj key v) k = Some w.
Proof.
  intros Hkey k w Hk. destruct (decide (key = k)) as [->|Hne].
  - rewrite get_set_eq. destruct Hkey; congruence.
  - now rewrite get_set_ne.
Qed.

Lemma findMatchKey_None (langObj : Obj.t) (t : jsstring) :
  Utils.findMatchKey langObj t = None ->
  forall k v, Obj.get langObj k = Some v -> v <> t.
Proof.
  induction langObj as [|[k0 v0] rest IH]; simpl; intros Hnone k v Hget.
  - discriminate.
  - destruct (Js.eqb v0 t) eqn:Ev; [discriminate|]. apply eqb_neq in Ev.
    destruct (Js.eqb k0 k); [congruence | eauto].
Qed.

(** ** Decimal suffixes *)

Lemma lit_inj (s1 s2 : string) : Js.lit s1 = Js.lit s2 -> s1 = s2.
Proof.
  unfold Js.lit. intros H.
  rewrite <- (string_of_list_ascii_of_string s1), <- (string_of_list_ascii_of_string s2).
  f_equal. revert H. generalize (list_ascii_of_string s1) (list_ascii_of_string s2).
  induction l as [|a l IH]; intros [|b l']; simpl; intros H; try discriminate.
  - reflexivity.
  - injection H as Hab Hl. f_equal; [|now apply IH].
    rewrite <- (ascii_N_embedding a), <- (ascii_N_embedding b). now rewrite Hab.
Qed.

Lemma decimal_inj (n m : N) : Js.decimal n = Js.decimal m -> n = m.
Proof. unfold Js.decimal. intros H. apply lit_inj in H. now apply (inj pretty). Qed.

Lemma pretty_N_go_length (x : N) (s : string) :
  (String.length s <= String.length (pretty_N_go x s))%nat.
Proof.
  revert s. induction (N.lt_wf_0 x) as [x _ IH]; intros s.
  destruct (decide (x = 0%N)) as [->|Hx].
  - rewrite pretty_N_go_0. lia.
  - rewrite pretty_N_go_step by lia.
    etransitivity; [|apply IH; apply N.div_lt; lia]. simpl. lia.
Qed.

Lemma decimal_nonempty (n : N) : Js.decimal n <> [].
Proof.
  unfold Js.decimal. change [] with (Js.lit ""). intros H. apply lit_inj in H.
  unfold pretty, pretty_N in H. destruct (decide (n = 0%N)); [discriminate|].
  rewrite pretty_N_go_step in H by lia.
  pose proof (pretty_N_go_length (n `div` 10)%N
                (String (pretty_N_char (n `mod` 10)%N) "")) as Hlen.
  rewrite H in Hlen. simpl in Hlen. lia.
Qed.

Lemma candidate_inj (transKey : jsstring) (j k : N) :
  (1 <= j)%N -> (1 <= k)%N ->
  Extract.candidate transKey j = Extract.candidate transKey k -> j = k.
Proof.
  unfold Extract.candidate. intros Hj Hk H. apply app_inv_head in H.
  destruct (N.leb_spec 2 j), (N.leb_spec 2 k).
  - now apply decimal_inj.
  - now apply decimal_nonempty in H.
  - symmetry in H. now apply decimal_nonempty in H.
  - lia.
Qed.

(** ** The collision loop *)

Lemma collides_spec (finalLangObj : Obj.t) (transKey text : jsstring) (occurTime : N) :
  Extract.collides finalLangObj transKey text occurTime = true <->
  Utils.findMatchValue finalLangObj transKey <> Some text /\
  Extract.candidate transKey occurTime ∈ Obj.keys finalLangObj.
Proof.
  unfold Extract.collides. rewrite andb_true_iff, negb_true_iff,
    bool_decide_eq_false, includes_elem. reflexivity.
Qed.

Lemma occurLoop_Some fuel obj transKey text n m :
  Extract.occurLoop fuel obj transKey text n = Some m ->
  (n <= m)%N /\ Extract.collides obj transKey text m = false /\
  forall j, (n <= j < m)%N -> Extract.collides obj transKey text j = true.
Proof.
  revert n. induction fuel as [|fuel IH]; intros n; simpl; [discriminate|].
  destruct (Extract.collides obj transKey text n) eqn:E.
  - intros H. apply IH in H as (Hle & Hm & Hbelow). repeat split; [lia | exact Hm |].
    intros j Hj. destruct (decide (j = n)) as [->|Hne]; [exact E|]. apply Hbelow. lia.
  - intros [= <-]. repeat split; [lia | exact E |]. intros j Hj. lia.
Qed.

Lemma occurLoop_None fuel obj transKey text n :
  Extract.occurLoop fuel obj transKey text n = None ->
  forall j, (n <= j < n + N.of_nat fuel)%N -> Extract.collides obj transKey text j = true.
Proof.
  revert n. induction fuel as [|fuel IH]; intros n; simpl.
  - intros _ j Hj. lia.
  - destruct (Extract.collides obj transKey text n) eqn:E; [|discriminate].
    intros H j Hj. destruct (decide (j = n)) as [->|Hne]; [exact E|].
    apply (IH _ H). lia.
Qed.

(** The loop leaves within one turn more than the catalog has keys: the
    keys it passes are pairwise different and all in the catalog. *)
Lemma occurLoop_total (obj : Obj.t) (transKey text : jsstring) :
  exists m, Extract.occurLoop (S (length obj)) obj transKey text 1 = Some m.
Proof.
  destruct (Extract.occurLoop (S (length obj)) obj transKey text 1) as [m|] eqn:E;
    [now exists m|].
  exfalso. pose proof (occurLoop_None _ _ _ _ _ E) as Hall.
  set (cands := map (fun j => Extract.candidate transKey (N.of_nat j))
                    (seq 1 (S (length obj)))).
  assert (Hnodup : NoDup cands).
  { apply NoDup_fmap_2_strong; [|apply NoDup_seq].
    intros j k Hj Hk Heq. apply elem_of_seq in Hj, Hk.
    apply candidate_inj in Heq; lia. }
  assert (Hsub : cands ⊆ Obj.keys obj).
  { intros c Hc. apply list_elem_of_fmap in Hc as (j & -> & Hj).
    apply elem_of_seq in Hj.
    specialize (Hall (N.of_nat j)). rewrite collides_spec in Hall.
    apply Hall. lia. }
  pose proof (submseteq_length _ _ (NoDup_submseteq _ _ Hnodup Hsub)) as Hlen.
  unfold cands, Obj.keys in Hlen. rewrite !length_map, length_seq in Hlen. lia.
Qed.

Lemma deduplicateKey_total (obj : Obj.t) (transKey text : jsstring) :
  exists n : N,
    Extract.deduplicateKey obj transKey text
    = Some (if (2 <=? n)%N then transKey ++ Js.decimal n else transKey).
Proof.
  destruct (occurLoop_total obj transKey text) as [n Hloop].
  exists n. unfold Extract.deduplicateKey. now rewrite Hloop.
Qed.

Lemma deduplicateKey_fresh_or_same (obj : Obj.t) (transKey text finalKey : jsstring) :
  Extract.deduplicateKey obj transKey text = Some finalKey ->
  Obj.get obj finalKey = None \/ Obj.get obj finalKey = Some text.
Proof.
  unfold Extract.deduplicateKey. intros H. apply bind_Some in H as (n & Hloop & [= <-]).
  apply occurLoop_Some in Hloop as (Hle & Hexit & Hbelow).
  assert (Hcand : (if (2 <=? n)%N then transKey ++ Js.decimal n else transKey)
                  = Extract.candidate transKey n).
  { unfold Extract.candidate. destruct (2 <=? n)%N; [reflexivity | now rewrite app_nil_r]. }
  rewrite Hcand. unfold Extract.collides in Hexit.
  apply andb_false_iff in Hexit as [Ha|Hb].
  - apply negb_false_iff, bool_decide_eq_true in Ha. right.
    assert (n = 1%N) as ->.
    { destruct (decide (n = 1%N)) as [|Hn]; [assumption|].
      assert (H1 : Extract.collides obj transKey text 1 = true) by (apply Hbelow; lia).
      apply collides_spec in H1 as [H1 _]. contradiction. }
    unfold Extract.candidate. simpl. rewrite app_nil_r. exact Ha.
  - left. apply get_None_keys. intros Hin. apply includes_elem in Hin. congruence.
Qed.

(** ** Sorting and the span filter *)

Lemma insertBy_perm {A} (key : A -> Z) (x : A) (l : list A) :
  Lodash.insertBy key x l ≡ₚ x :: l.
Proof.
  induction l as [|y l IH]; simpl; [reflexivity|].
  destruct (key x <=? key y); [reflexivity|].
  rewrite IH. apply Permutation_swap.
Qed.

Lemma sortBy_perm {A} (key : A -> Z) (l : list A) : Lodash.sortBy key l ≡ₚ l.
Proof.
  induction l as [|x l IH]; simpl; [reflexivity|].
  unfold Lodash.sortBy in *. simpl. rewrite insertBy_perm. now rewrite IH.
Qed.

Lemma insertBy_sorted {A} (key : A -> Z) (x : A) (l : list A) :
  StronglySorted (fun a b => key a <= key b) l ->
  StronglySorted (fun a b => key a <= key b) (Lodash.insertBy key x l).
Proof.
  induction 1 as [|y l Hs IH Hy]; simpl.
  - repeat constructor.
  - destruct (Z.leb_spec (key x) (key y)) as [Hle|Hgt].
    + constructor; [now constructor|]. constructor; [exact Hle|].
      eapply Forall_impl; [exact Hy|]. simpl. intros z Hz. lia.
    + constructor; [exact IH|]. rewrite insertBy_perm. constructor; [lia | exact Hy].
Qed.

Lemma sortBy_sorted {A} (key : A -> Z) (l : list A) :
  StronglySorted (fun a b => key a <= key b) (Lodash.sortBy key l).
Proof.
  induction l as [|x l IH]; simpl; [constructor|].
  unfold Lodash.sortBy in *. simpl. now apply insertBy_sorted.
Qed.

Lemma StronglySorted_weaken {A} (R1 R2 : A -> A -> Prop) (l : list A) :
  (forall a b, R1 a b -> R2 a b) -> StronglySorted R1 l -> StronglySorted R2 l.
Proof.
  intros Himp. induction 1 as [|x l Hs IH Hx]; constructor; [exact IH|].
  eapply Forall_impl; [exact Hx | auto].
Qed.

Lemma sortTexts_descending (found : list Span) :
  StronglySorted (fun a b => start (range b) <= start (range a)) (Extract.sortTexts found).
Proof.
  unfold Extract.sortTexts.
  eapply StronglySorted_weaken; [|apply sortBy_sorted]. simpl. intros a b. lia.
Qed.

Lemma sortTexts_perm (found : list Span) : Extract.sortTexts found ≡ₚ found.
Proof. apply sortBy_perm. Qed.

Lemma filterTargetStrs_from (texts pre l acc : list Span) :
  texts = pre ++ l ->
  Js.reduceFrom
    (fun pre0 strObj i =>
       let afterStrs := drop (S i) texts in
       if existsb (fun obj => end_ (range strObj) <=? end_ (range obj)) afterStrs
       then pre0 else pre0 ++ [strObj])
    (length pre) acc l
  = acc ++ Extract.keepNotCoveredLater l.
Proof.
  revert pre acc. induction l as [|x l IH]; intros pre acc Heq; simpl.
  - now rewrite app_nil_r.
  - assert (Hdrop : drop (S (length pre)) texts = l).
    { subst texts. clear. induction pre as [|p pre IHp]; simpl; [apply drop_0 | exact IHp]. }
    rewrite Hdrop.
    specialize (IH (pre ++ [x])). rewrite length_app in IH. simpl in IH.
    rewrite Nat.add_1_r in IH.
    destruct (existsb (fun obj => end_ (range x) <=? end_ (range obj)) l).
    + apply IH. now rewrite <- app_assoc.
    + rewrite IH by now rewrite <- app_assoc. now rewrite <- app_assoc.
Qed.

Lemma filterTargetStrs_keep (texts : list Span) :
  Extract.filterTargetStrs texts = Extract.keepNotCoveredLater texts.
Proof.
  unfold Extract.filterTargetStrs, Js.reduce.
  exact (filterTargetStrs_from texts [] texts [] eq_refl).
Qed.

Lemma keep_elem (l : list Span) (x : Span) :
  x ∈ Extract.keepNotCoveredLater l -> x ∈ l.
Proof.
  induction l as [|y l IH]; simpl; [easy|].
  destruct (existsb _ l).
  - intros H. right. auto.
  - intros H. apply elem_of_cons in H as [->|H]; [left | right; auto].
Qed.

(** Along the spans that stay, the ends decrease strictly. *)
Lemma keep_ends (l : list Span) :
  StronglySorted (fun a b => end_ (range b) < end_ (range a))
                 (Extract.keepNotCoveredLater l).
Proof.
  induction l as [|x l IH]; simpl; [constructor|].
  destruct (existsb (fun obj => end_ (range x) <=? end_ (range obj)) l) eqn:E;
    [exact IH|].
  constructor; [exact IH|]. apply Forall_forall. intros y Hy.
  apply keep_elem in Hy.
  destruct (Z.ltb_spec (end_ (range y)) (end_ (range x))) as [Hlt|Hge]; [exact Hlt|].
  exfalso. assert (existsb (fun obj => end_ (range x) <=? end_ (range obj)) l = true).
  { apply existsb_exists. exists y. split; [now apply list_elem_of_In | now apply Z.leb_le]. }
  congruence.
Qed.

Lemma keep_sorted (R : Span -> Span -> Prop) (l : list Span) :
  StronglySorted R l -> StronglySorted R (Extract.keepNotCoveredLater l).
Proof.
  induction 1 as [|x l Hs IH Hx]; simpl; [constructor|].
  destruct (existsb _ l); [exact IH|]. constructor; [exact IH|].
  apply Forall_forall. intros y Hy. apply keep_elem in Hy.
  rewrite Forall_forall in Hx. auto.
Qed.




Lemma filterNestedRanges_spec (matches : list Find.Match) (item : Find.Match) :
  In item (Find.filterNestedRanges matches) <->
  In item matches /\ forall items, In items matches -> Find.nested item items = false.
Proof.
  unfold Find.filterNestedRanges. rewrite filter_In. apply and_iff_compat_l.
  rewrite negb_true_iff. split.
  - intros Hex items Hin. destruct (Find.nested item items) eqn:E; [|reflexivity].
    assert (existsb (Find.nested item) matches = true)
      by (apply existsb_exists; eauto). congruence.
  - intros Hall. destruct (existsb (Find.nested item) matches) eqn:E; [|reflexivity].
    apply existsb_exists in E as (items & Hin & Hn). rewrite Hall in Hn by exact Hin.
    discriminate.
Qed.


Lemma StronglySorted_both {A} (R1 R2 : A -> A -> Prop) (l : list A) :
  StronglySorted R1 l -> StronglySorted R2 l ->
  StronglySorted (fun a b => R1 a b /\ R2 a b) l.
Proof.
  induction 1 as [|x l Hs IH Hx]; intros H2; [constructor|].
  apply StronglySorted_cons in H2 as [Hx2 H2]. constructor; [now apply IH|].
  rewrite Forall_forall in *. auto.
Qed.




(** ** The order of translation and key assignment *)

Lemma join_cons (sep p : jsstring) (rest : list jsstring) :
  Js.join sep (p :: rest) = p ++ concat (map (fun q => sep ++ q) rest).
Proof.
  revert p. induction rest as [|q rest IH]; intros p.
  - simpl. now rewrite app_nil_r.
  - change (Js.join sep (p :: q :: rest)) with (p ++ sep ++ Js.join sep (q :: rest)).
    rewrite IH. simpl. now rewrite <- app_assoc.
Qed.

Lemma batchTranslate_each_from (l : list Span) (i : nat) (acc : list jsstring) :
  Js.reduceFrom (fun prev curr (_ : nat) => prev ++ [Extract.getTransOriginText (text curr)])
                i acc l
  = acc ++ Extract.fragments l.
Proof.
  revert i acc. induction l as [|x l IH]; intros i acc; simpl.
  - now rewrite app_nil_r.
  - rewrite IH, <- app_assoc. reflexivity.
Qed.

Lemma batchTranslate_join_from (delimiter : jsstring) (l : list Span) (i : nat)
    (acc : jsstring) :
  Js.reduceFrom
    (fun prev curr i =>
       let transOriginText := Extract.getTransOriginText (text curr) in
       match i, prev with
       | O, _ => Some transOriginText
       | _, Some p => Some (p ++ delimiter ++ transOriginText)
       | _, None => Some (delimiter ++ transOriginText)
       end)
    (S i) (Some acc) l
  = Some (acc ++ concat (map (fun q => delimiter ++ q) (Extract.fragments l))).
Proof.
  revert i acc. induction l as [|x l IH]; intros i acc; simpl.
  - now rewrite app_nil_r.
  - rewrite IH. now rewrite <- !app_assoc.
Qed.

(** What [batchTranslate] hands to the translator: the fragments of the
    literals in the order of the list it is given, joined or one by one. *)
Lemma batchTranslate_fragments (targetStrs : list Span) (origin : Extract.Origin) :
  Extract.batchTranslate targetStrs origin =
  match origin with
  | Extract.Google => Extract.TranslateTextEach (Extract.fragments targetStrs)
  | _ =>
      Extract.TranslateKeyText
        (match targetStrs with
         | [] => None
         | _ => Some (Js.join (Extract.delimiterOf origin) (Extract.fragments targetStrs))
         end) origin
  end.
Proof.
  assert (Hjoin : forall o,
    Js.reduce
      (fun prev curr i =>
         let transOriginText := Extract.getTransOriginText (text curr) in
         match i, prev with
         | O, _ => Some transOriginText
         | _, Some p => Some (p ++ Extract.delimiterOf o ++ transOriginText)
         | _, None => Some (Extract.delimiterOf o ++ transOriginText)
         end) None targetStrs
    = match targetStrs with
      | [] => None
      | _ => Some (Js.join (Extract.delimiterOf o) (Extract.fragments targetStrs))
      end).
  { intros o. destruct targetStrs as [|x l]; [reflexivity|].
    unfold Js.reduce. cbn [Js.reduceFrom]. rewrite batchTranslate_join_from.
    cbn [Extract.fragments map]. now rewrite join_cons. }
  destruct origin; unfold Extract.batchTranslate.
  - now rewrite Hjoin.
  - unfold Js.reduce. now rewrite batchTranslate_each_from.
  - now rewrite Hjoin.
Qed.

Lemma findMatchKey_Some (langObj : Obj.t) (t k : jsstring) :
  Utils.findMatchKey langObj t = Some k -> (k, t) ∈ langObj.
Proof.
  induction langObj as [|[k0 v0] rest IH]; simpl; [discriminate|].
  destruct (Js.eqb v0 t) eqn:Ev.
  - apply eqb_eq in Ev. intros [= <-]. subst. left.
  - intros H. right. auto.
Qed.

Lemma findMatchKey_app (langObj added : Obj.t) (t : jsstring) :
  Utils.findMatchKey (langObj ++ added) t
  = match Utils.findMatchKey langObj t with
    | Some k => Some k
    | None => Utils.findMatchKey added t
    end.
Proof.
  induction langObj as [|[k0 v0] rest IH]; simpl; [reflexivity|].
  now destruct (Js.eqb v0 t).
Qed.

Lemma set_same (obj : Obj.t) (k v : jsstring) :
  Obj.get obj k = Some v -> Obj.set obj k v = obj.
Proof.
  induction obj as [|[k0 v0] rest IH]; simpl; [discriminate|].
  destruct (Js.eqb k0 k) eqn:E.
  - now intros [= ->].
  - intros H. now rewrite IH.
Qed.

Lemma set_fresh (obj : Obj.t) (k v : jsstring) :
  Obj.get obj k = None -> Obj.set obj k v = obj ++ [(k, v)].
Proof.
  induction obj as [|[k0 v0] rest IH]; simpl; [reflexivity|].
  destruct (Js.eqb k0 k) eqn:E; [discriminate|].
  intros H. now rewrite IH.
Qed.

Section KeyOrder.

Variable camelCase : jsstring -> jsstring.
Variable suggestion : list jsstring.
Variable langsPrefix : option jsstring.
Variable translateTexts : list jsstring.
Variable langObj : Obj.t.

Local Abbreviation baseKeyAt := (Extract.baseKeyAt camelCase suggestion langsPrefix translateTexts).
Local Abbreviation builtAt :=
  (Extract.builtAt camelCase suggestion langsPrefix translateTexts langObj).
Local Abbreviation synthInv :=
  (Extract.synthInv camelCase suggestion langsPrefix translateTexts langObj).

Lemma builtAt_app (out : list Extract.ReplaceItem) (new : Extract.ReplaceItem) j item :
  builtAt out j item -> builtAt (out ++ [new]) j item.
Proof.
  intros [(Hw & j' & item' & Hlt & Hj & Ht & Hk)|H]; [|now right].
  left. split; [exact Hw|]. exists j', item'. repeat split; try assumption.
  rewrite lookup_app_l; [assumption|]. eapply lookup_lt_Some; eassumption.
Qed.

(** In a state the reduction reaches, a text without a truthy key in
    [virtualMemory] has the existing key it had in the catalog the file
    started from. *)
Lemma findExistingKey_started (st : Extract.Synth) (i : nat) (t : jsstring) :
  synthInv i st ->
  (forall m, Obj.get (Extract.virtualMemory st) t = Some m -> Js.truthy m = false) ->
  Extract.findExistingKey (Extract.finalLangObj st) t = Extract.findExistingKey langObj t.
Proof.
  intros (_ & _ & _ & added & -> & Hadded) Hmemo.
  unfold Extract.findExistingKey. rewrite findMatchKey_app.
  destruct (Utils.findMatchKey langObj t) as [k|]; [reflexivity|].
  destruct (Utils.findMatchKey added t) as [k|] eqn:Hk; [|reflexivity].
  apply findMatchKey_Some in Hk.
  destruct (Hadded _ _ Hk) as [->|(m & Hm & Hmt)]; [reflexivity|].
  rewrite (Hmemo _ Hm) in Hmt. discriminate.
Qed.

Lemma get_set_cases (vm : Obj.t) (t k t' m : jsstring) :
  Obj.get (Obj.set vm t k) t' = Some m ->
  Obj.get vm t' = Some m \/ (t' = t /\ m = k).
Proof.
  destruct (decide (t = t')) as [->|Hne].
  - rewrite get_set_eq. intros [= <-]. now right.
  - rewrite get_set_ne by assumption. now left.
Qed.

(** The state after a call that gives the text [text curr] the key [k],
    written to the catalog under [written] when it is new. *)
Lemma synthInv_push (st : Extract.Synth) (i : nat) (curr : Span) (k : jsstring)
    (w : bool) (obj : Obj.t) :
  synthInv i st ->
  Obj.inherited (text curr) = false ->
  (forall m, Obj.get (Extract.virtualMemory st) (text curr) = Some m ->
     Js.truthy m = false) ->
  builtAt (Extract.replaceableStrs st ++ [Extract.assembleReplaceItem curr (Obj.Str k) w]) i
    (Extract.assembleReplaceItem curr (Obj.Str k) w) ->
  (obj = Extract.finalLangObj st \/ obj = Extract.finalLangObj st ++ [(k, text curr)]) ->
  synthInv (S i)
    (Extract.mkSynth obj (Obj.set (Extract.virtualMemory st) (text curr) k)
       (Extract.replaceableStrs st ++ [Extract.assembleReplaceItem curr (Obj.Str k) w])).
Proof.
  intros (Hlen & Hvm & Hout & added & Hcat & Hadded) Hown Hmemo Hitem Hobj.
  unfold Extract.synthInv. cbn [Extract.replaceableStrs Extract.virtualMemory
                                 Extract.finalLangObj].
  split; [rewrite length_app; simpl; lia|]. split; [|split].
  - intros t m Hget. apply get_set_cases in Hget as [Hold|[-> ->]].
    + destruct (Hvm t m Hold) as (Hinh & j & item' & Hj & Ht & Hk).
      split; [exact Hinh|]. exists j, item'. repeat split; try assumption.
      rewrite lookup_app_l; [assumption|]. eapply lookup_lt_Some; eassumption.
    + split; [exact Hown|]. exists i, (Extract.assembleReplaceItem curr (Obj.Str k) w).
      repeat split. rewrite lookup_app_r by lia. now rewrite Hlen, Nat.sub_diag.
  - intros j item' Hj. destruct (decide (j < i)%nat) as [Hlt|Hge].
    + rewrite lookup_app_l in Hj by lia. now apply builtAt_app, Hout.
    + assert (j = i) as ->.
      { apply lookup_lt_Some in Hj. rewrite length_app in Hj. simpl in Hj. lia. }
      rewrite lookup_app_r in Hj by lia. rewrite Hlen, Nat.sub_diag in Hj.
      now injection Hj as <-.
  - assert (Hkeep : forall k0 v, (k0, v) ∈ added ->
              Js.truthy k0 = false
              \/ exists m, Obj.get (Obj.set (Extract.virtualMemory st) (text curr) k) v = Some m
                           /\ Js.truthy m = true).
    { intros k0 v Hin. destruct (Hadded _ _ Hin) as [?|(m & Hm & Hmt)]; [now left|].
      right. destruct (decide (text curr = v)) as [<-|Hne].
      - rewrite (Hmemo _ Hm) in Hmt. discriminate.
      - exists m. now rewrite get_set_ne. }
    destruct Hobj as [->| ->].
    + exists added. split; [exact Hcat | exact Hkeep].
    + exists (added ++ [(k, text curr)]). split; [now rewrite Hcat, app_assoc|].
      intros k0 v Hin. apply elem_of_app in Hin as [Hin|Hin]; [now apply Hkeep|].
      apply list_elem_of_singleton in Hin as [= -> ->].
      destruct (Js.truthy k) eqn:Hk; [right | now left].
      exists k. split; [apply get_set_eq | exact Hk].
Qed.

Lemma assign_step (st : Extract.Synth) (curr : Span) (i : nat) :
  synthInv i st ->
  exists st', Extract.assign camelCase suggestion langsPrefix translateTexts st curr i
              = Some st'
    /\ synthInv (S i) st'
    /\ map Extract.target (Extract.replaceableStrs st')
       = map Extract.target (Extract.replaceableStrs st) ++ [curr].
Proof.
  intros Hinv. pose proof Hinv as (Hlen & Hvm & Hout & Hcat).
  assert (Hfresh :
    Obj.inherited (text curr) = false ->
    (forall m, Obj.get (Extract.virtualMemory st) (text curr) = Some m ->
       Js.truthy m = false) ->
    exists st',
      Extract.assignFresh camelCase suggestion langsPrefix translateTexts st curr i = Some st'
      /\ synthInv (S i) st'
      /\ map Extract.target (Extract.replaceableStrs st')
         = map Extract.target (Extract.replaceableStrs st) ++ [curr]).
  { intros Hown Hmemo. unfold Extract.assignFresh.
    rewrite (findExistingKey_started st i (text curr) Hinv Hmemo).
    destruct (Extract.findExistingKey langObj (text curr)) as [k|] eqn:Hk.
    - eexists. split; [reflexivity|]. split; [|cbn; now rewrite map_app].
      apply synthInv_push; try assumption; [|now left].
      right; right; left. cbn. split; [reflexivity|]. now exists k.
    - destruct (deduplicateKey_total (Extract.finalLangObj st)
                  (baseKeyAt i) (text curr)) as (n & Hkey).
      fold (baseKeyAt i). rewrite Hkey. cbn [mbind option_bind].
      eexists. split; [reflexivity|]. split; [|cbn; now rewrite map_app].
      apply synthInv_push; try assumption.
      + right; right; right. cbn. split; [reflexivity|]. split; [exact Hk|].
        now exists n.
      + destruct (deduplicateKey_fresh_or_same _ _ _ _ Hkey) as [Hnew|Hsame].
        * right. now apply set_fresh.
        * left. now apply set_same. }
  unfold Extract.assign, Obj.lookup.
  destruct (Obj.get (Extract.virtualMemory st) (text curr)) as [memo|] eqn:Hmemo.
  - destruct (Hvm _ _ Hmemo) as (Hown & j & item' & Hj & Ht & Hkey).
    cbn [Obj.truthy]. destruct (Js.truthy memo) eqn:Hmt.
    + eexists. split; [reflexivity|]. split; [|cbn; now rewrite map_app].
      destruct Hcat as (added & Hcat & Hadded).
      unfold Extract.synthInv. cbn [Extract.replaceableStrs Extract.virtualMemory
                                     Extract.finalLangObj].
      split; [rewrite length_app; simpl; lia|]. split; [|split].
      * intros t m Hget. destruct (Hvm t m Hget) as (Hinh & j' & item'' & Hj' & Ht' & Hk').
        split; [exact Hinh|]. exists j', item''. repeat split; try assumption.
        rewrite lookup_app_l; [assumption|]. eapply lookup_lt_Some; eassumption.
      * intros j' item'' Hj'. destruct (decide (j' < i)%nat) as [Hlt|Hge].
        -- rewrite lookup_app_l in Hj' by lia. now apply builtAt_app, Hout.
        -- assert (j' = i) as ->.
           { apply lookup_lt_Some in Hj'. rewrite length_app in Hj'. simpl in Hj'. lia. }
           rewrite lookup_app_r in Hj' by lia. rewrite Hlen, Nat.sub_diag in Hj'.
           injection Hj' as <-. left. cbn. split; [reflexivity|].
           exists j, item'. repeat split; try assumption.
           ++ apply lookup_lt_Some in Hj. lia.
           ++ rewrite lookup_app_l; [assumption|]. eapply lookup_lt_Some; eassumption.
      * exists added. split; assumption.
    + apply Hfresh; [exact Hown|]. intros m Hm. congruence.
  - destruct (Obj.inherited (text curr)) eqn:Hown.
    + cbn [Obj.truthy]. eexists. split; [reflexivity|]. split; [|cbn; now rewrite map_app].
      destruct Hcat as (added & Hcat & Hadded).
      unfold Extract.synthInv. cbn [Extract.replaceableStrs Extract.virtualMemory
                                     Extract.finalLangObj].
      split; [rewrite length_app; simpl; lia|]. split; [|split].
      * intros t m Hget. destruct (Hvm t m Hget) as (Hinh & j' & item'' & Hj' & Ht' & Hk').
        split; [exact Hinh|]. exists j', item''. repeat split; try assumption.
        rewrite lookup_app_l; [assumption|]. eapply lookup_lt_Some; eassumption.
      * intros j' item'' Hj'. destruct (decide (j' < i)%nat) as [Hlt|Hge].
        -- rewrite lookup_app_l in Hj' by lia. now apply builtAt_app, Hout.
        -- assert (j' = i) as ->.
           { apply lookup_lt_Some in Hj'. rewrite length_app in Hj'. simpl in Hj'. lia. }
           rewrite lookup_app_r in Hj' by lia. rewrite Hlen, Nat.sub_diag in Hj'.
           injection Hj' as <-. right; left. cbn. auto.
      * exists added. split; assumption.
    + apply Hfresh; [reflexivity|]. intros m Hm. congruence.
Qed.

Lemma getReplaceableStrs_from (l : list Span) (i : nat) (st : Extract.Synth) :
  synthInv i st ->
  exists st',
    Js.reduceFrom
      (fun prev curr i =>
         st ← prev; Extract.assign camelCase suggestion langsPrefix translateTexts st curr i)
      i (Some st) l = Some st'
    /\ synthInv (i + length l) st'
    /\ map Extract.target (Extract.replaceableStrs st')
       = map Extract.target (Extract.replaceableStrs st) ++ l.
Proof.
  revert i st. induction l as [|x l IH]; intros i st Hinv; simpl.
  - exists st. rewrite Nat.add_0_r, app_nil_r. auto.
  - destruct (assign_step st x i Hinv) as (st1 & -> & Hinv1 & Hmap1).
    destruct (IH (S i) st1 Hinv1) as (st' & Hred & Hinv' & Hmap').
    exists st'. split; [exact Hred|]. split.
    + now replace (i + S (length l))%nat with (S i + length l)%nat by lia.
    + rewrite Hmap', Hmap1, <- app_assoc. reflexivity.
Qed.

(** [getReplaceableStrs] always gives a result, with one entry for each
    literal in the order of the list, the i-th built as [builtAt] says. *)
Lemma getReplaceableStrs_order (targetStrs : list Span) :
  exists st,
    Extract.getReplaceableStrs camelCase suggestion langsPrefix translateTexts
      langObj targetStrs = Some st
    /\ map Extract.target (Extract.replaceableStrs st) = targetStrs
    /\ forall i item, Extract.replaceableStrs st !! i = Some item ->
         builtAt (Extract.replaceableStrs st) i item.
Proof.
  assert (Hinit : synthInv 0 (Extract.mkSynth langObj [] [])).
  { unfold Extract.synthInv. cbn. split; [reflexivity|].
    split; [intros ? ? H; discriminate|]. split; [intros ? ? H; discriminate|].
    exists []. split; [now rewrite app_nil_r | intros ? ? H; inversion H]. }
  destruct (getReplaceableStrs_from targetStrs 0 _ Hinit) as (st & Hred & Hinv & Hmap).
  exists st. split; [exact Hred|]. split; [exact Hmap|]. apply Hinv.
Qed.

Lemma assign_keeps (st st' : Extract.Synth) (curr : Span) (i : nat) :
  Extract.assign camelCase suggestion langsPrefix translateTexts st curr i = Some st' ->
  forall k v, Obj.get (Extract.finalLangObj st) k = Some v ->
              Obj.get (Extract.finalLangObj st') k = Some v.
Proof.
  assert (Hfresh :
    Extract.assignFresh camelCase suggestion langsPrefix translateTexts st curr i = Some st' ->
    forall k v, Obj.get (Extract.finalLangObj st) k = Some v ->
                Obj.get (Extract.finalLangObj st') k = Some v).
  { unfold Extract.assignFresh.
    destruct (Extract.findExistingKey (Extract.finalLangObj st) (text curr)).
    - intros [= <-]. auto.
    - intros H. apply bind_Some in H as (finalKey & Hkey & [= <-]). cbn.
      apply set_preserves. eapply deduplicateKey_fresh_or_same; eassumption. }
  unfold Extract.assign.
  destruct (Obj.lookup (Extract.virtualMemory st) (text curr)) as [memo|]; [|exact Hfresh].
  destruct (Obj.truthy memo); [|exact Hfresh]. intros [= <-]. auto.
Qed.

Lemma getReplaceableStrs_keeps (l : list Span) (i : nat) (st0 st : Extract.Synth) :
  Js.reduceFrom
    (fun prev curr i =>
       st ← prev; Extract.assign camelCase suggestion langsPrefix translateTexts st curr i)
    i (Some st0) l = Some st ->
  forall k v, Obj.get (Extract.finalLangObj st0) k = Some v ->
              Obj.get (Extract.finalLangObj st) k = Some v.
Proof.
  revert i st0. induction l as [|x l IH]; intros i st0; simpl.
  - intros [= <-]. auto.
  - destruct (Extract.assign camelCase suggestion langsPrefix translateTexts st0 x i)
      as [st1|] eqn:Hstep.
    + intros Hrest k v Hk. eapply IH; [exact Hrest|]. eapply assign_keeps; eassumption.
    + intros Hrest. exfalso. clear -Hrest. revert Hrest. generalize (S i).
      induction l as [|y l IHl]; intros n; simpl; [discriminate | apply IHl].
Qed.

(** A text with a Chinese character is not the name of a member every
    object inherits. *)
Lemma hasChinese_not_inherited (t : jsstring) :
  hasChinese t = true -> Obj.inherited t = false.
Proof.
  intros Hchinese. destruct (Obj.inherited t) eqn:Hinh; [|reflexivity].
  apply includes_elem in Hinh. unfold Obj.prototypeNames in Hinh.
  repeat (apply elem_of_cons in Hinh as [->|Hinh]; [discriminate Hchinese|]).
  inversion Hinh.
Qed.

(** C1 (as the code has it).  The literals of a file reach the translator
    in the order in which they are stored, descending [range.start] (the
    reverse of the source order), after the filter: joined with the
    delimiter of the provider or one by one.  [getReplaceableStrs] gives
    one entry for each literal in that same order, and the entry at index
    [i] is built as [builtAt] says; so a literal without an existing key in
    the catalog, whose text no earlier entry has and which is not the name
    of a member every object inherits, gets its key from the i-th
    translation, with the suffix of the collision loop, and is to be
    written. *)
Theorem C1_translation_in_stored_order (found : list Span) (origin : Extract.Origin) :
  let targetStrs := Extract.filterTargetStrs (Extract.sortTexts found) in
  StronglySorted (fun a b => start (range b) <= start (range a)) targetStrs
  /\ Extract.batchTranslate targetStrs origin
     = match origin with
       | Extract.Google => Extract.TranslateTextEach (Extract.fragments targetStrs)
       | _ =>
           Extract.TranslateKeyText
             (match targetStrs with
              | [] => None
              | _ => Some (Js.join (Extract.delimiterOf origin)
                             (Extract.fragments targetStrs))
              end) origin
       end
  /\ exists st,
       Extract.getReplaceableStrs camelCase suggestion langsPrefix translateTexts
         langObj targetStrs = Some st
       /\ map Extract.target (Extract.replaceableStrs st) = targetStrs
       /\ (forall i item, Extract.replaceableStrs st !! i = Some item ->
             builtAt (Extract.replaceableStrs st) i item)
       /\ (forall i item, Extract.replaceableStrs st !! i = Some item ->
             Extract.findExistingKey langObj (text (Extract.target item)) = None ->
             Obj.inherited (text (Extract.target item)) = false ->
             (forall j item', (j < i)%nat -> Extract.replaceableStrs st !! j = Some item' ->
                text (Extract.target item') <> text (Extract.target item)) ->
             Extract.needWrite item = true
             /\ exists n : N,
                  Extract.key item
                  = Obj.Str (if (2 <=? n)%N then baseKeyAt i ++ Js.decimal n
                             else baseKeyAt i)).
Proof.
  intros targetStrs. split; [|split].
  - subst targetStrs. rewrite filterTargetStrs_keep.
    apply keep_sorted, sortTexts_descending.
  - apply batchTranslate_fragments.
  - destruct (getReplaceableStrs_order targetStrs) as (st & Hrun & Hmap & Hbuilt).
    exists st. split; [exact Hrun|]. split; [exact Hmap|]. split; [exact Hbuilt|].
    intros i item Hi Hnone Hown Hfirst.
    destruct (Hbuilt i item Hi)
      as [(_ & j & item' & Hlt & Hj & Ht & _)|[(_ & Hinh & _)|[(_ & k & Hk & _)|H]]].
    + exfalso. exact (Hfirst j item' Hlt Hj Ht).
    + congruence.
    + congruence.
    + destruct H as (Hw & _ & Hkey). split; assumption.
Qed.

(** C2.  The collision loop of [deduplicateKey] starts at [occurTime = 1],
    goes on exactly as long as the value bound to the base key differs from
    the text and the catalog has the key [base ++ suffix], and always
    leaves; a final [occurTime >= 2] gives the key [base ++ occurTime], then
    the base key is bound to another value and every lower suffixed key is
    in the catalog (bound to another value whenever no key has the text);
    and writing the text under the final key changes no binding the catalog
    had, so that every binding of the catalog a file starts from is still
    there when [getReplaceableStrs] has assigned all its keys. *)
Theorem C2_collision_avoidance (finalLangObj : Obj.t) (transKey text : jsstring) :
  exists occurTime : N,
    Extract.occurLoop (S (length finalLangObj)) finalLangObj transKey text 1 = Some occurTime
    /\ (1 <= occurTime)%N
    /\ (forall j, Extract.collides finalLangObj transKey text j = true <->
                  Utils.findMatchValue finalLangObj transKey <> Some text /\
                  transKey ++ (if (2 <=? j)%N then Js.decimal j else [])
                    ∈ Obj.keys finalLangObj)
    /\ Extract.collides finalLangObj transKey text occurTime = false
    /\ (forall j, (1 <= j < occurTime)%N ->
                  Extract.collides finalLangObj transKey text j = true)
    /\ Extract.deduplicateKey finalLangObj transKey text
       = Some (if (2 <=? occurTime)%N then transKey ++ Js.decimal occurTime else transKey)
    /\ ((2 <= occurTime)%N ->
        (exists v, Utils.findMatchValue finalLangObj transKey = Some v /\ v <> text)
        /\ (forall j, (2 <= j < occurTime)%N ->
                      transKey ++ Js.decimal j ∈ Obj.keys finalLangObj)
        /\ (Utils.findMatchKey finalLangObj text = None ->
            forall j, (2 <= j < occurTime)%N ->
              exists v, Obj.get finalLangObj (transKey ++ Js.decimal j) = Some v /\ v <> text))
    /\ (forall finalKey,
          Extract.deduplicateKey finalLangObj transKey text = Some finalKey ->
          forall k v, Obj.get finalLangObj k = Some v ->
                      Obj.get (Obj.set finalLangObj finalKey text) k = Some v)
    /\ (forall targetStrs st,
          Extract.getReplaceableStrs camelCase suggestion langsPrefix translateTexts
            finalLangObj targetStrs = Some st ->
          forall k v, Obj.get finalLangObj k = Some v ->
                      Obj.get (Extract.finalLangObj st) k = Some v).
Proof.
  destruct (occurLoop_total finalLangObj transKey text) as [n Hloop].
  exists n. pose proof (occurLoop_Some _ _ _ _ _ _ Hloop) as (Hle & Hexit & Hbelow).
  assert (Hsuffixed : forall j, (2 <= j < n)%N ->
            transKey ++ Js.decimal j ∈ Obj.keys finalLangObj).
  { intros j Hj. assert (Hc : Extract.collides finalLangObj transKey text j = true)
      by (apply Hbelow; lia).
    apply collides_spec in Hc as [_ Hc]. unfold Extract.candidate in Hc.
    destruct (N.leb_spec 2 j); [exact Hc | lia]. }
  split; [exact Hloop|]. split; [exact Hle|].
  split; [intros j; apply collides_spec|].
  split; [exact Hexit|]. split; [exact Hbelow|].
  split; [unfold Extract.deduplicateKey; now rewrite Hloop|].
  split; [|split].
  - intros Hn.
    assert (H1 : Extract.collides finalLangObj transKey text 1 = true) by (apply Hbelow; lia).
    apply collides_spec in H1 as [Hval Hkey]. unfold Extract.candidate in Hkey.
    simpl in Hkey. rewrite app_nil_r in Hkey.
    split; [|split; [exact Hsuffixed|]].
    + unfold Utils.findMatchValue in *.
      destruct (Obj.get finalLangObj transKey) as [v|] eqn:Hget.
      * exists v. split; [reflexivity | congruence].
      * apply get_None_keys in Hget. contradiction.
    + intros Hnokey j Hj. specialize (Hsuffixed j Hj).
      destruct (Obj.get finalLangObj (transKey ++ Js.decimal j)) as [v|] eqn:Hget.
      * exists v. split; [reflexivity|]. eapply findMatchKey_None; eassumption.
      * apply get_None_keys in Hget. contradiction.
  - intros finalKey Hkey. apply set_preserves.
    eapply deduplicateKey_fresh_or_same; eassumption.
  - intros targetStrs st Hst k v Hk.
    exact (getReplaceableStrs_keeps targetStrs 0 _ st Hst k v Hk).
Qed.

End KeyOrder.

(** The base key [pages.user.queRen] is bound to another text: the loop
    leaves at 2, the key of ["确认"] is [pages.user.queRen2], and the
    binding of [pages.user.queRen] stays. *)
Lemma C2_collision_avoidance_witness :
  Extract.deduplicateKey Examples.queRenCatalog (Js.lit "pages.user.queRen") Examples.queRen
  = Some (Js.lit "pages.user.queRen2")
  /\ (exists v, Utils.findMatchValue Examples.queRenCatalog (Js.lit "pages.user.queRen")
                = Some v /\ v <> Examples.queRen)
  /\ Obj.get (Obj.set Examples.queRenCatalog (Js.lit "pages.user.queRen2") Examples.queRen)
       (Js.lit "pages.user.queRen")
     = Some [0x786E; 0x8BA4; 0x5220; 0x9664]%N.
Proof.
  destruct (C2_collision_avoidance (fun token => token) [] None []
              Examples.queRenCatalog (Js.lit "pages.user.queRen") Examples.queRen)
    as (n & Hloop & _ & _ & _ & _ & Hkey & Hsuffixed & Hkeeps & _).
  assert (n = 2%N) as -> by (vm_compute in Hloop; congruence).
  split; [exact Hkey|]. split.
  - apply Hsuffixed. reflexivity.
  - apply (Hkeeps _ Hkey). reflexivity.
Defined.

(** C1 as stated fails: of two literals found at 0 and at 10, the one at 10
    is the first both in the text handed to the translator and in the list
    keys are assigned along, so that the first token of the translator
    makes its key; the source order would put the one at 0 first. *)
Lemma C1_forward_order_counterexample :
  let targetStrs :=
    Extract.filterTargetStrs (Extract.sortTexts [Examples.jia; Examples.yi]) in
  targetStrs = [Examples.yi; Examples.jia]
  /\ map (fun s => start (range s)) targetStrs = [10; 0]
  /\ Extract.batchTranslate targetStrs Extract.Pinyin
     = Extract.TranslateKeyText (Some [0x4E59; 36; 0x7532]%N) Extract.Pinyin
  /\ Extract.batchTranslate targetStrs Extract.Google
     = Extract.TranslateTextEach [[0x4E59%N]; [0x7532%N]]
  /\ (Extract.replaceableStrs
        <$> Extract.getReplaceableStrs (fun token => token) [Js.lit "src"; Js.lit "App"]
              None [Js.lit "yi"; Js.lit "jia"] [] targetStrs)
     = Some [Extract.assembleReplaceItem Examples.yi (Obj.Str (Js.lit "src.App.yi")) true;
             Extract.assembleReplaceItem Examples.jia (Obj.Str (Js.lit "src.App.jia")) true].
Proof. repeat split; vm_compute; reflexivity. Qed.

(** ** Template literals *)

Lemma isPrefix_app (pat rest : jsstring) : Js.isPrefix pat (pat ++ rest) = true.
Proof. induction pat as [|a pat IH]; simpl; [reflexivity|]. now rewrite N.eqb_refl. Qed.

(** A pattern is first found right after a text that has nowhere the
    character the pattern starts with. *)
Lemma find_skip (p0 : N) (pat' skipped rest : jsstring) :
  forallb (fun c => negb (c =? p0)%N) skipped = true ->
  Js.find (p0 :: pat') (skipped ++ (p0 :: pat') ++ rest) = Some (length skipped).
Proof.
  induction skipped as [|c skipped IH]; intros Hno.
  - change ([] ++ (p0 :: pat') ++ rest) with ((p0 :: pat') ++ rest).
    destruct ((p0 :: pat') ++ rest) eqn:E; [discriminate|].
    unfold Js.find. rewrite <- E, isPrefix_app. reflexivity.
  - simpl in Hno. apply andb_true_iff in Hno as [Hc Hno].
    apply negb_true_iff in Hc. specialize (IH Hno).
    simpl in *. rewrite N.eqb_sym, Hc. simpl. rewrite IH. reflexivity.
Qed.

Lemma replaceFirst_skip (p0 : N) (pat' skipped rest rep : jsstring) :
  forallb (fun c => negb (c =? p0)%N) skipped = true ->
  Js.replaceFirst (skipped ++ (p0 :: pat') ++ rest) (p0 :: pat') rep
  = skipped ++ rep ++ rest.
Proof.
  intros Hno. unfold Js.replaceFirst. rewrite find_skip by exact Hno.
  rewrite take_app_length. f_equal. f_equal.
  rewrite app_assoc, drop_app_length'; [reflexivity|]. now rewrite length_app.
Qed.

Lemma forallb_app_true {A} (f : A -> bool) (l1 l2 : list A) :
  forallb f l1 = true -> forallb f l2 = true -> forallb f (l1 ++ l2) = true.
Proof. intros H1 H2. rewrite forallb_app, H1, H2. reflexivity. Qed.

Lemma pretty_N_go_digits (x : N) (s : string) :
  forallb (fun c => negb (c =? 36)%N) (Js.lit s) = true ->
  forallb (fun c => negb (c =? 36)%N) (Js.lit (pretty_N_go x s)) = true.
Proof.
  revert s. induction (N.lt_wf_0 x) as [x _ IH]; intros s Hs.
  destruct (decide (x = 0%N)) as [->|Hx].
  - now rewrite pretty_N_go_0.
  - rewrite pretty_N_go_step by lia. apply IH; [apply N.div_lt; lia|].
    unfold Js.lit in *. cbn [list_ascii_of_string map forallb]. rewrite Hs, andb_true_r.
    unfold pretty_N_char. now repeat case_match.
Qed.

Lemma decimal_no_dollar (n : N) :
  forallb (fun c => negb (c =? 36)%N) (Js.decimal n) = true.
Proof.
  unfold Js.decimal, pretty, pretty_N. destruct (decide (n = 0%N)); [reflexivity|].
  now apply pretty_N_go_digits.
Qed.

Lemma placeholder_no_dollar (index : nat) :
  forallb (fun c => negb (c =? 36)%N) (Replace.placeholder index) = true.
Proof.
  unfold Replace.placeholder, Replace.valName.
  repeat apply forallb_app_true; try reflexivity. apply decimal_no_dollar.
Qed.

Lemma bodyUpTo_length (s body rest : jsstring) :
  Replace.bodyUpTo s = Some (body, rest) -> (length rest < length s)%nat.
Proof.
  revert body. induction s as [|c s IH]; intros body; simpl; [discriminate|].
  destruct (c =? 125)%N.
  - intros [= _ <-]. lia.
  - destruct (Replace.bodyUpTo s) as [[b r]|]; [|discriminate].
    intros [= _ <-]. specialize (IH b eq_refl). lia.
Qed.

Lemma matchVarAt_length (s found rest : jsstring) :
  Replace.matchVarAt s = Some (found, rest) -> (length rest < length s)%nat.
Proof.
  unfold Replace.matchVarAt. destruct s as [|c1 [|c2 s]]; try discriminate.
  destruct ((c1 =? 36)%N && (c2 =? 123)%N); [|discriminate].
  destruct (Replace.bodyUpTo s) as [[[|c body] r]|] eqn:E; try discriminate.
  intros [= _ <-]. apply bodyUpTo_length in E. simpl. lia.
Qed.

(** The scan does not depend on the number of turns it is given, from the
    length of the text on. *)
Lemma scanVars_fuel (fuel1 fuel2 : nat) (s : jsstring) :
  (length s <= fuel1)%nat -> (length s <= fuel2)%nat ->
  Replace.scanVars fuel1 s = Replace.scanVars fuel2 s.
Proof.
  revert fuel2 s. induction fuel1 as [|fuel1 IH]; intros fuel2 s H1 H2.
  - destruct s; [|simpl in H1; lia]. now destruct fuel2.
  - destruct fuel2 as [|fuel2]; [destruct s; [reflexivity | simpl in H2; lia]|].
    destruct s as [|c s]; [reflexivity|]. cbn [Replace.scanVars].
    simpl in H1, H2.
    destruct (Replace.matchVarAt (c :: s)) as [[found rest]|] eqn:E.
    + apply matchVarAt_length in E. simpl in E. f_equal. apply IH; lia.
    + apply IH; lia.
Qed.

Lemma matchVars_scan (text : jsstring) (fuel : nat) :
  (length text <= fuel)%nat ->
  Replace.matchVars text
  = match Replace.scanVars fuel text with [] => None | l => Some l end.
Proof.
  intros H. unfold Replace.matchVars. now rewrite (scanVars_fuel (length text) fuel).
Qed.

Lemma scanVars_gap (fuel : nat) (gap rest : jsstring) :
  forallb (fun c => negb (c =? 36)%N) gap = true ->
  Replace.scanVars (length gap + fuel) (gap ++ rest) = Replace.scanVars fuel rest.
Proof.
  induction gap as [|c gap IH]; intros Hno; [reflexivity|].
  simpl in Hno. apply andb_true_iff in Hno as [Hc Hno]. apply negb_true_iff in Hc.
  cbn [length plus app Replace.scanVars].
  assert (Hnone : Replace.matchVarAt (c :: gap ++ rest) = None).
  { unfold Replace.matchVarAt. destruct (gap ++ rest); [reflexivity|]. now rewrite Hc. }
  rewrite Hnone. now apply IH.
Qed.

Lemma bodyUpTo_expr (expr rest : jsstring) :
  forallb (fun c => negb (c =? 125)%N) expr = true ->
  Replace.bodyUpTo (expr ++ 125%N :: rest) = Some (expr, rest).
Proof.
  induction expr as [|c expr IH]; intros Hno; [reflexivity|].
  simpl in Hno. apply andb_true_iff in Hno as [Hc Hno]. apply negb_true_iff in Hc.
  simpl. now rewrite Hc, IH.
Qed.

Lemma matchVarAt_interpolation (expr rest : jsstring) :
  Js.truthy expr = true ->
  forallb (fun c => negb (c =? 125)%N) expr = true ->
  Replace.matchVarAt (Replace.interpolation expr ++ rest)
  = Some (Replace.interpolation expr, rest).
Proof.
  intros Hne Hno. unfold Replace.interpolation.
  change (Js.lit "${") with [36; 123]%N. change (Js.lit "}") with [125%N].
  rewrite <- !app_assoc. cbn [app Replace.matchVarAt N.eqb Pos.eqb andb].
  rewrite bodyUpTo_expr by exact Hno. destruct expr; [discriminate | reflexivity].
Qed.

Lemma scanVars_interpolation (fuel : nat) (expr rest : jsstring) :
  Js.truthy expr = true ->
  forallb (fun c => negb (c =? 125)%N) expr = true ->
  Replace.scanVars (S fuel) (Replace.interpolation expr ++ rest)
  = Replace.interpolation expr :: Replace.scanVars fuel rest.
Proof.
  intros Hne Hno. cbn [Replace.scanVars].
  rewrite matchVarAt_interpolation by assumption.
  now destruct (Replace.interpolation expr ++ rest) eqn:E.
Qed.

Lemma simplePart_inv (part : jsstring * jsstring) :
  Replace.simplePart part = true ->
  Js.truthy (fst part) = true
  /\ forallb (fun c => negb (c =? 125)%N) (fst part) = true
  /\ forallb (fun c => negb (c =? 36)%N) (snd part) = true.
Proof. unfold Replace.simplePart. rewrite !andb_true_iff. tauto. Qed.

Lemma scanVars_parts (parts : list (jsstring * jsstring)) (fuel : nat) :
  forallb Replace.simplePart parts = true ->
  (length (flat_map (fun part => Replace.interpolation (fst part) ++ snd part) parts)
   <= fuel)%nat ->
  Replace.scanVars fuel
    (flat_map (fun part => Replace.interpolation (fst part) ++ snd part) parts)
  = map (fun part => Replace.interpolation (fst part)) parts.
Proof.
  revert fuel. induction parts as [|part parts IH]; intros fuel Hsimple Hfuel.
  - now destruct fuel.
  - simpl in Hsimple. apply andb_true_iff in Hsimple as [Hpart Hrest].
    apply simplePart_inv in Hpart as (Hne & Hexpr & Hgap).
    cbn [flat_map map] in *. rewrite <- app_assoc in *.
    set (tail := flat_map (fun part => Replace.interpolation part.1 ++ part.2) parts) in *.
    assert (Hlen : (1 <= length (Replace.interpolation part.1))%nat).
    { unfold Replace.interpolation. rewrite !length_app. simpl. lia. }
    rewrite !length_app in Hfuel.
    rewrite (scanVars_fuel fuel
               (S (length part.2 + (length tail + length (Replace.interpolation part.1)))))
      by (rewrite ?length_app; lia).
    rewrite scanVars_interpolation by assumption.
    rewrite scanVars_gap by assumption. f_equal. apply IH; [exact Hrest | lia].
Qed.

Lemma stripVar_interpolation (expr : jsstring) :
  Js.truthy expr = true ->
  forallb (fun c => negb (c =? 125)%N) expr = true ->
  Replace.stripVar (Replace.interpolation expr) = expr.
Proof.
  intros Hne Hno. unfold Replace.stripVar, Replace.interpolation.
  change (Js.lit "${") with [36; 123]%N. change (Js.lit "}") with [125%N].
  assert (Hlen : length ([36; 123]%N ++ expr ++ [125%N]) = (length expr + 3)%nat)
    by (rewrite !length_app; simpl; lia).
  assert (Hbody : take (length ([36; 123]%N ++ expr ++ [125%N]) - 3)
                       (drop 2 ([36; 123]%N ++ expr ++ [125%N])) = expr).
  { rewrite Hlen. change (drop 2 ([36; 123]%N ++ expr ++ [125%N])) with (expr ++ [125%N]).
    replace (length expr + 3 - 3)%nat with (length expr) by lia.
    apply take_app_length. }
  rewrite Hbody, Hno, Hlen.
  assert (Hends : Js.endsWith ([36; 123]%N ++ expr ++ [125%N]) [125%N] = true).
  { unfold Js.endsWith. rewrite app_assoc, rev_app_distr. reflexivity. }
  rewrite Hends. simpl.
  destruct expr; [discriminate|]. simpl.
  replace (3 <? S (length expr + 3))%nat with true; [reflexivity|].
  symmetry. apply Nat.ltb_lt. lia.
Qed.

Lemma kvPair_parts (parts : list (jsstring * jsstring)) (k : nat) :
  forallb Replace.simplePart parts = true ->
  imap (fun index str =>
          Replace.valName (k + index) ++ Js.lit ": " ++ Replace.stripVar str)
       (map (fun part => Replace.interpolation (fst part)) parts)
  = Replace.pairsFrom k parts.
Proof.
  revert k. induction parts as [|[expr gap] parts IH]; intros k Hsimple; [reflexivity|].
  simpl in Hsimple. apply andb_true_iff in Hsimple as [Hpart Hrest].
  apply simplePart_inv in Hpart as (Hne & Hexpr & _). simpl in Hne, Hexpr.
  cbn [map imap Replace.pairsFrom fst]. rewrite Nat.add_0_r.
  rewrite stripVar_interpolation by assumption. f_equal.
  rewrite <- (IH (S k) Hrest). apply imap_ext. intros i x _. simpl.
  now replace (k + S i)%nat with (S (k + i)) by lia.
Qed.

Lemma replaceText_parts (parts : list (jsstring * jsstring)) (index : nat) (done : jsstring) :
  forallb (fun c => negb (c =? 36)%N) done = true ->
  forallb Replace.simplePart parts = true ->
  Js.reduceFrom
    (fun replaceText str index =>
       Js.replaceFirst replaceText str (Js.lit "{" ++ Replace.valName index ++ Js.lit "}"))
    index
    (done ++ flat_map (fun part => Replace.interpolation (fst part) ++ snd part) parts)
    (map (fun part => Replace.interpolation (fst part)) parts)
  = done ++ Replace.catalogFrom index parts.
Proof.
  revert index done. induction parts as [|[expr gap] parts IH]; intros index done Hdone Hsimple.
  - reflexivity.
  - simpl in Hsimple. apply andb_true_iff in Hsimple as [Hpart Hrest].
    apply simplePart_inv in Hpart as (_ & _ & Hgap). simpl in Hgap.
    cbn [flat_map map Js.reduceFrom fst snd Replace.catalogFrom].
    fold (Replace.placeholder index).
    assert (Hstep :
      Js.replaceFirst
        (done ++ (Replace.interpolation expr ++ gap)
              ++ flat_map (fun part => Replace.interpolation (fst part) ++ snd part) parts)
        (Replace.interpolation expr) (Replace.placeholder index)
      = (done ++ Replace.placeholder index ++ gap)
          ++ flat_map (fun part => Replace.interpolation (fst part) ++ snd part) parts).
    { assert (Hpat : Replace.interpolation expr = 36%N :: 123%N :: expr ++ Js.lit "}")
        by reflexivity.
      rewrite Hpat, <- (app_assoc (36%N :: 123%N :: expr ++ Js.lit "}")).
      rewrite (replaceFirst_skip 36 (123%N :: expr ++ Js.lit "}") done) by exact Hdone.
      now rewrite <- !app_assoc. }
    rewrite Hstep. rewrite IH; [now rewrite <- !app_assoc | | exact Hrest].
    apply forallb_app_true; [exact Hdone|].
    apply forallb_app_true; [apply placeholder_no_dollar | exact Hgap].
Qed.

(** On a template text laid out with at least one interpolation,
    [handleTemplateString] gives the call of [I18N.template] and the text
    with the placeholders. *)
Lemma handleTemplateString_parts (lead val : jsstring) (part : jsstring * jsstring)
    (parts : list (jsstring * jsstring)) :
  Replace.simpleTemplate lead (part :: parts) = true ->
  Replace.handleTemplateString (Replace.templateText lead (part :: parts)) val
  = (Replace.templateCall val (part :: parts), Replace.catalogText lead (part :: parts)).
Proof.
  unfold Replace.simpleTemplate. intros Hsimple.
  apply andb_true_iff in Hsimple as [Hlead Hparts].
  unfold Replace.handleTemplateString, Replace.templateText.
  rewrite (matchVars_scan _ (length lead + length
             (flat_map (fun p => Replace.interpolation p.1 ++ p.2) (part :: parts))))
    by (rewrite length_app; lia).
  rewrite scanVars_gap by exact Hlead. rewrite scanVars_parts by (exact Hparts || lia).
  cbn [map]. f_equal.
  - unfold Replace.templateCall. do 3 f_equal.
    rewrite <- (kvPair_parts (part :: parts) 0 Hparts). reflexivity.
  - unfold Js.reduce, Replace.catalogText.
    exact (replaceText_parts (part :: parts) 0 lead Hlead Hparts).
Qed.

Lemma handleTemplateString_plain (text val : jsstring) :
  Replace.matchVars text = None -> Replace.handleTemplateString text val = (val, text).
Proof. unfold Replace.handleTemplateString. now intros ->. Qed.

(** For a string span that follows a backtick, outside an interpolation
    region of a component file, [replaceAndUpdate] puts the first result of
    [handleTemplateString] in place of the span and hands its second result
    to the catalog writer.  Without a match of [${...}] these are the
    reference and the text as it is.  On a text whose interpolations have
    expressions that are not empty and have no [}], with no [$] outside
    them, they are [I18N.template(ref, { val1: expr1,] line feed
    [val2: expr2 ... })] and the text with [{val_i}] for the i-th
    interpolation. *)
Lemma replaceAndUpdate_template_literal (srcLangDir fileType : jsstring)
    (lib : Replace.Libraries) (w : Replace.World)
    (filePath : jsstring) (arg : Span) (val : jsstring)
    (validateDuplicate needWrite : bool) :
  isString arg = true ->
  Replace.isTemplateString (Replace.readFile w filePath) (start (range arg)) = true ->
  Replace.isVueFile filePath
  && Replace.isInVueInterpolation (Replace.readFile w filePath) (start (range arg)) = false ->
  Replace.replaceAndUpdate srcLangDir fileType lib w filePath arg val validateDuplicate
    needWrite
  = Replace.writeUpdatedFile srcLangDir fileType lib w filePath
      (Js.slice (Replace.readFile w filePath) 0 (start (range arg))
       ++ fst (Replace.handleTemplateString (text arg) val)
       ++ Js.sliceFrom (Replace.readFile w filePath) (end_ (range arg)))
      val (snd (Replace.handleTemplateString (text arg) val))
      validateDuplicate needWrite
  /\ (Replace.matchVars (text arg) = None ->
      Replace.handleTemplateString (text arg) val = (val, text arg))
  /\ (forall lead part parts,
        text arg = Replace.templateText lead (part :: parts) ->
        Replace.simpleTemplate lead (part :: parts) = true ->
        Replace.handleTemplateString (text arg) val
        = (Replace.templateCall val (part :: parts),
           Replace.catalogText lead (part :: parts))).
Proof.
  intros Hstring Htemplate Hvue. split; [|split].
  - unfold Replace.replaceAndUpdate. rewrite Hstring, Htemplate.
    unfold Replace.isVueFile in Hvue. rewrite Hvue. cbn [andb].
    destruct (Replace.handleTemplateString (text arg) val) as [replaceVal replaceText].
    reflexivity.
  - apply handleTemplateString_plain.
  - intros lead part parts -> Hsimple. now apply handleTemplateString_parts.
Qed.

(** C4 fails in the code, in two ways.

    On a span that follows a backtick, as the claim has it, an
    interpolation whose expression has a [}] is cut at that brace: of
    ["中${f({})}"] the scan takes [${f({}] for the interpolation, so the
    span becomes [I18N.template(I18N.k, { val1: f({ })], which is no
    expression, and the catalog gets ["中{val1})}"]; the claim gives
    [I18N.template(I18N.k, { val1: f({}) })] and ["中{val1}"].

    And the spans the typed-script extractor reports for a template
    literal start at its backtick, so the character before the span is not
    a backtick: the literal [`你有${n}条`] of [x = `你有${n}条`] is reported
    from 4 to 13, it is not taken for a template literal, the whole literal
    becomes [I18N.common.k], its interpolation lost, and the catalog gets
    the text with [${n}] in it. *)
Theorem C4_template_literal_mishandled :
  (Examples.braces = Replace.templateText [0x4E2D%N] [(Js.lit "f({})", [])]
   /\ Replace.isTemplateString (Replace.readFile Examples.bracesWorld (Js.lit "a.ts"))
        (start (range Examples.bracesSpan)) = true
   /\ Replace.replaceAndUpdate (Js.lit "lang") (Js.lit "ts") Examples.lib Examples.bracesWorld
        (Js.lit "a.ts") Examples.bracesSpan (Js.lit "I18N.k") false true
      = Replace.writeUpdatedFile (Js.lit "lang") (Js.lit "ts") Examples.lib
          Examples.bracesWorld (Js.lit "a.ts")
          (Js.lit "x = `I18N.template(I18N.k, { val1: f({ })`")
          (Js.lit "I18N.k") ([0x4E2D%N] ++ Js.lit "{val1})}") false true
   /\ Replace.templateCall (Js.lit "I18N.k") [(Js.lit "f({})", [])]
      = Js.lit "I18N.template(I18N.k, { val1: f({}) })"
   /\ Replace.catalogText [0x4E2D%N] [(Js.lit "f({})", [])]
      = [0x4E2D%N] ++ Js.lit "{val1}")
  /\ (Find.findTextInTs (fun _ => Examples.niYouNodes) (fun text _ => text)
        Examples.niYouFile (Js.lit "a.ts")
      = [Examples.niYouFound]
      /\ Examples.niYouFound = mkSpan Examples.niYou (makeRange 4 13) true
      /\ Replace.isTemplateString (Replace.readFile Examples.niYouWorld (Js.lit "a.ts"))
           (start (range Examples.niYouFound)) = false
      /\ Replace.replaceAndUpdate (Js.lit "lang") (Js.lit "ts") Examples.lib
           Examples.niYouWorld (Js.lit "a.ts") Examples.niYouFound (Js.lit "I18N.common.k")
           false true
         = Replace.writeUpdatedFile (Js.lit "lang") (Js.lit "ts") Examples.lib
             Examples.niYouWorld (Js.lit "a.ts") (Js.lit "x = I18N.common.k")
             (Js.lit "I18N.common.k") Examples.niYou false true).
Proof. repeat split; vm_compute; reflexivity. Qed.

(** ** The order of the writes *)

Lemma isPrefix_true (p s : jsstring) :
  Js.isPrefix p s = true -> exists rest, s = p ++ rest.
Proof.
  revert s. induction p as [|a p IH]; intros s H; [now exists s|].
  destruct s as [|b s]; [discriminate|]. simpl in H.
  apply andb_true_iff in H as [Hab H]. apply N.eqb_eq in Hab. subst b.
  destruct (IH s H) as [rest ->]. now exists rest.
Qed.

Lemma splitOn_nonempty (c : N) (s cur : jsstring) : Js.splitOn c s cur <> [].
Proof.
  revert cur. induction s as [|x s IH]; intros cur; simpl; [discriminate|].
  destruct (x =? c)%N; [discriminate | apply IH].
Qed.

Lemma splitOn_two (c : N) (s cur : jsstring) :
  In c s -> exists a b rest, Js.splitOn c s cur = a :: b :: rest.
Proof.
  revert cur. induction s as [|x s IH]; intros cur Hin; [destruct Hin|].
  simpl. destruct (N.eqb_spec x c) as [->|Hne].
  - destruct (Js.splitOn c s []) as [|b rest] eqn:E; [now apply splitOn_nonempty in E|].
    now exists cur, b, rest.
  - destruct Hin as [->|Hin]; [congruence | now apply IH].
Qed.

Lemma updateLangFiles_trace (srcLangDir fileType : jsstring) (lib : Replace.Libraries)
    (w w1 : Replace.World) (keyValue text : jsstring) (validateDuplicate : bool) :
  Replace.updateLangFiles srcLangDir fileType lib w keyValue text validateDuplicate
  = Find.Ok w1 ->
  Replace.sources w1 = Replace.sources w
  /\ exists catalogWrites,
       Replace.trace w1 = Replace.trace w ++ catalogWrites
       /\ forallb Replace.isCatalogWrite catalogWrites = true
       /\ (Js.startsWith keyValue (Js.lit "I18N.") = true ->
           exists targetFilename fullKey written rest,
             catalogWrites = Replace.WriteLangFile targetFilename fullKey written :: rest
             /\ (written = text \/ written = Replace.unescapeNewlines text))
       /\ (Js.startsWith keyValue (Js.lit "I18N.") = false -> catalogWrites = []).
Proof.
  unfold Replace.updateLangFiles.
  destruct (Js.startsWith keyValue (Js.lit "I18N.")) eqn:Hstarts; cbn [negb].
  2:{ intros [= <-]. split; [reflexivity|]. exists []. rewrite app_nil_r.
      split; [reflexivity|]. split; [reflexivity|]. split; [discriminate | reflexivity]. }
  assert (Hsplit : exists first filename restPath,
            Js.split keyValue 46 = first :: filename :: restPath).
  { apply splitOn_two. apply isPrefix_true in Hstarts as [rest ->].
    apply in_or_app. left. vm_compute. tauto. }
  destruct Hsplit as (first & filename & restPath & ->).
  - destruct (Obj.get (Replace.langFiles w) _) as [content|].
    + unfold Replace.updateExistingLangFile.
      destruct (validateDuplicate && _); [discriminate|]. intros [= <-].
      split; [reflexivity|]. eexists. split; [reflexivity|]. split; [reflexivity|].
      split; [|discriminate]. intros _. do 4 eexists. split; [reflexivity | now right].
    + intros [= <-]. split; [reflexivity|]. cbn [Replace.writeMainLangFile Replace.trace].
      eexists. split; [now rewrite <- app_assoc|].
      split; [reflexivity|]. split; [|discriminate].
      intros _. do 4 eexists. split; [reflexivity | now left].
Qed.

Lemma updateLangFiles_thrown (srcLangDir fileType : jsstring) (lib : Replace.Libraries)
    (w : Replace.World) (keyValue text message : jsstring) (validateDuplicate : bool) :
  Replace.updateLangFiles srcLangDir fileType lib w keyValue text validateDuplicate
    = Find.Thrown message ->
  validateDuplicate = true.
Proof.
  unfold Replace.updateLangFiles.
  destruct (negb _); [discriminate|].
  destruct (Js.split keyValue 46) as [|first [|filename restPath]]; try discriminate.
  destruct (Obj.get _ _); [|discriminate].
  unfold Replace.updateExistingLangFile.
  destruct validateDuplicate; [reflexivity | discriminate].
Qed.

(** C7 (as the code has it).  [writeUpdatedFile] writes the catalog first
    and the source file last: when it resolves, what it wrote is the writes
    of the catalog (none unless a catalog write was asked for; then, for a
    key that starts with [I18N.], the language file with the text or the
    text with its line feeds unescaped, first) followed by the one write
    of the source file.  When it rejects, a catalog write with duplicate
    validation was asked for and neither the catalog nor the source file
    was written. *)
Theorem C7_catalog_written_before_source (srcLangDir fileType : jsstring)
    (lib : Replace.Libraries) (w : Replace.World)
    (filePath newCode val finalReplaceText : jsstring) (validateDuplicate needWrite : bool) :
  match Replace.writeUpdatedFile srcLangDir fileType lib w filePath newCode val
          finalReplaceText validateDuplicate needWrite with
  | (w', Replace.Resolved) =>
      exists catalogWrites,
        Replace.trace w'
        = Replace.trace w ++ catalogWrites ++ [Replace.WriteFile filePath newCode]
        /\ forallb Replace.isCatalogWrite catalogWrites = true
        /\ (needWrite = false -> catalogWrites = [])
        /\ (needWrite = true -> Js.startsWith val (Js.lit "I18N.") = true ->
            exists targetFilename fullKey written rest,
              catalogWrites = Replace.WriteLangFile targetFilename fullKey written :: rest
              /\ (written = finalReplaceText
                  \/ written = Replace.unescapeNewlines finalReplaceText))
  | (w', Replace.Rejected _) =>
      w' = w /\ needWrite = true /\ validateDuplicate = true
  end.
Proof.
  unfold Replace.writeUpdatedFile. destruct needWrite.
  - destruct (Replace.updateLangFiles srcLangDir fileType lib w val finalReplaceText
                validateDuplicate) as [w1|message] eqn:Hupdate.
    + apply updateLangFiles_trace in Hupdate
        as (_ & catalogWrites & Htrace & Hcatalog & Hfirst & _).
      exists catalogWrites. cbn. rewrite Htrace, <- app_assoc.
      repeat split; [exact Hcatalog | discriminate | intros _; exact Hfirst].
    + apply updateLangFiles_thrown in Hupdate. auto.
  - exists []. cbn. repeat split. discriminate.
Qed.

(** The literal [提交] of a script file, with a catalog write asked for:
    the language file is the first thing written, with the text of the
    literal. *)
Lemma C7_catalog_written_before_source_witness :
  exists catalogWrites targetFilename fullKey rest,
    Replace.trace
      (fst (Replace.writeUpdatedFile (Js.lit "lang") (Js.lit "ts") Examples.lib
              Examples.tiJiaoWorld
              (Js.lit "a.ts") (Js.lit "const a = I18N.common.tiJiao;")
              (Js.lit "I18N.common.tiJiao") [0x63D0; 0x4EA4]%N false true))
    = catalogWrites ++ [Replace.WriteFile (Js.lit "a.ts")
                          (Js.lit "const a = I18N.common.tiJiao;")]
    /\ catalogWrites
       = Replace.WriteLangFile targetFilename fullKey [0x63D0; 0x4EA4]%N :: rest.
Proof.
  pose proof (C7_catalog_written_before_source (Js.lit "lang") (Js.lit "ts") Examples.lib
                Examples.tiJiaoWorld (Js.lit "a.ts") (Js.lit "const a = I18N.common.tiJiao;")
                (Js.lit "I18N.common.tiJiao") [0x63D0; 0x4EA4]%N false true) as H.
  destruct (Replace.writeUpdatedFile _ _ _ _ _ _ _ _ _ _) as [w' [|message]] eqn:E;
    [|vm_compute in E; discriminate].
  destruct H as (catalogWrites & Htrace & _ & _ & Hfirst).
  destruct (Hfirst eq_refl eq_refl) as (targetFilename & fullKey & written & rest & -> & Hw).
  exists (Replace.WriteLangFile targetFilename fullKey written :: rest),
    targetFilename, fullKey, rest.
  split; [exact Htrace|]. f_equal. f_equal.
  destruct Hw as [->| ->]; reflexivity.
Defined.

(** C7 as stated fails: the literal [提交] of a script file that needs a
    catalog write has its language file and the aggregator written before
    the source file. *)
Lemma C7_catalog_first_counterexample :
  Replace.trace
    (fst (Replace.replaceAndUpdate (Js.lit "lang") (Js.lit "ts") Examples.lib
            Examples.tiJiaoWorld (Js.lit "a.ts") Examples.tiJiaoSpan (Js.lit "I18N.common.tiJiao") false true))
  = [Replace.WriteLangFile (Js.lit "lang/common.ts") (Js.lit "tiJiao") [0x63D0; 0x4EA4]%N;
     Replace.WriteMainLangFile (Js.lit "common");
     Replace.WriteFile (Js.lit "a.ts") (Js.lit "const a = I18N.common.tiJiao;")].
Proof. vm_compute. reflexivity. Qed.

(** ** The import of the lookup symbol *)

Lemma find_None_inv (pat : jsstring) (c : N) (s : jsstring) :
  Js.find pat (c :: s) = None -> Js.isPrefix pat (c :: s) = false /\ Js.find pat s = None.
Proof.
  cbn [Js.find]. destruct (Js.isPrefix pat (c :: s)); [discriminate|].
  destruct (Js.find pat s); [discriminate | auto].
Qed.

Lemma replaceAllFuel_none (pat rep s : jsstring) (fuel : nat) :
  Js.find pat s = None -> Js.replaceAllFuel fuel s pat rep = s.
Proof.
  revert s. induction fuel as [|fuel IH]; intros s Hnone; [reflexivity|].
  destruct s as [|c s].
  - cbn in *. destruct (Js.isPrefix pat []); [discriminate | reflexivity].
  - apply find_None_inv in Hnone as [Hhere Hlater].
    cbn [Js.replaceAllFuel]. rewrite Hhere. f_equal. now apply IH.
Qed.

Lemma isPrefix_length (pat s : jsstring) :
  Js.isPrefix pat s = true -> (length pat <= length s)%nat.
Proof. intros H. apply isPrefix_true in H as [rest ->]. rewrite length_app. lia. Qed.

(** A pattern that occurs once is replaced there, and nowhere else. *)
Lemma replaceAll_single (pat rep s : jsstring) (i : nat) :
  pat <> [] ->
  Js.find pat s = Some i ->
  Js.find pat (drop (i + length pat) s) = None ->
  Js.replaceAll s pat rep = take i s ++ rep ++ drop (i + length pat) s.
Proof.
  intros Hpat. unfold Js.replaceAll.
  assert (Hgen : forall fuel i s, (length s < fuel)%nat ->
            Js.find pat s = Some i ->
            Js.find pat (drop (i + length pat) s) = None ->
            Js.replaceAllFuel fuel s pat rep = take i s ++ rep ++ drop (i + length pat) s).
  { clear i s. induction fuel as [|fuel IH]; intros i s Hfuel Hfind Hrest; [lia|].
    destruct (Js.isPrefix pat s) eqn:Hhere.
    - assert (i = 0%nat) as ->.
      { destruct s; cbn [Js.find] in Hfind; rewrite Hhere in Hfind; congruence. }
      cbn [Js.replaceAllFuel]. rewrite Hhere. cbn [take plus app] in *.
      now rewrite replaceAllFuel_none.
    - destruct s as [|c s]; cbn [Js.find] in Hfind; rewrite Hhere in Hfind;
        [discriminate|].
      destruct (Js.find pat s) as [j|] eqn:Hj; [|discriminate].
      injection Hfind as <-. cbn [Js.replaceAllFuel]. rewrite Hhere.
      cbn [take plus drop app] in *. f_equal. apply IH; [simpl in Hfuel; lia | exact Hj | exact Hrest]. }
  intros Hfind Hrest. apply Hgen; [lia | exact Hfind | exact Hrest].
Qed.

Lemma hasImportI18N_from (l : list Replace.TopNode) (i : nat) (acc : bool) :
  Js.reduceFrom
    (fun hasImportI18N node (_ : nat) =>
       match node with
       | Replace.ImportDeclaration importClause =>
           Replace.checkImportClause importClause || hasImportI18N
       | Replace.OtherNode => hasImportI18N
       end) i acc l
  = acc || existsb Replace.importsI18N l.
Proof.
  revert i acc. induction l as [|node l IH]; intros i acc; simpl.
  - now rewrite orb_false_r.
  - rewrite IH. destruct node as [clause|]; simpl.
    + destruct (Replace.checkImportClause clause), acc; reflexivity.
    + reflexivity.
Qed.

Lemma checkImportClause_spec (importClause : option Replace.ImportClause) :
  Replace.checkImportClause importClause = true <->
  exists clause, importClause = Some clause
    /\ (Replace.name clause = Some (Js.lit "I18N")
        \/ (Replace.name clause = None
            /\ (Replace.namedBindings clause
                  = Some (Replace.NamespaceImport (Js.lit "I18N"))
                \/ exists elements,
                     Replace.namedBindings clause = Some (Replace.NamedImports elements)
                     /\ In (Js.lit "I18N") elements))).
Proof.
  destruct importClause as [[name bindings]|]; simpl.
  2:{ split; [discriminate | intros (c & H & _); discriminate]. }
  destruct name as [n|].
  - rewrite eqb_eq. split.
    + intros ->. eexists. split; [reflexivity | now left].
    + intros (c & [= <-] & [H|[H _]]); simpl in H; congruence.
  - destruct bindings as [[elements|ns]|]; simpl.
    + rewrite existsb_exists. split.
      * intros (x & Hin & Hx). apply eqb_eq in Hx. subst x.
        eexists. split; [reflexivity|]. right. split; [reflexivity|]. right.
        exists elements. auto.
      * intros (c & [= <-] & [H|[_ [H|(els & H & Hin)]]]); simpl in H; try discriminate.
        injection H as <-. exists (Js.lit "I18N"). split; [exact Hin | now apply eqb_eq].
    + rewrite eqb_eq. split.
      * intros ->. eexists. split; [reflexivity|]. right. split; [reflexivity | now left].
      * intros (c & [= <-] & [H|[_ [H|(els & H & _)]]]); simpl in H; congruence.
    + split; [discriminate|].
      intros (c & [= <-] & [H|[_ [H|(els & H & _)]]]); simpl in H; discriminate.
Qed.

(** Whether a file imports [I18N] is decided on the parsed file alone:
    some top-level import declaration has the default name [I18N], or has
    no default name and a specifier named [I18N] or the namespace name
    [I18N].  A file that has such an import is left as it is; otherwise the
    file is written with what [createImportI18N] makes of it, which for a
    script file is the import statement put at the start of the first
    token. *)
Lemma addImportIfAbsent_decided (importI18N : jsstring)
    (topLevel : jsstring -> list Replace.TopNode) (getStart : jsstring -> Z)
    (w : Replace.World) (filePath : jsstring) :
  Replace.hasImportI18N topLevel w filePath
  = existsb Replace.importsI18N (topLevel (Replace.readFile w filePath))
  /\ (forall importClause,
        Replace.importsI18N (Replace.ImportDeclaration importClause) = true <->
        exists clause, importClause = Some clause
          /\ (Replace.name clause = Some (Js.lit "I18N")
              \/ (Replace.name clause = None
                  /\ (Replace.namedBindings clause
                        = Some (Replace.NamespaceImport (Js.lit "I18N"))
                      \/ exists elements,
                           Replace.namedBindings clause
                             = Some (Replace.NamedImports elements)
                           /\ In (Js.lit "I18N") elements))))
  /\ (Replace.hasImportI18N topLevel w filePath = true ->
      Replace.addImportIfAbsent importI18N topLevel getStart w filePath = w)
  /\ (Replace.hasImportI18N topLevel w filePath = false ->
      Replace.addImportIfAbsent importI18N topLevel getStart w filePath
      = Replace.writeFile w filePath (Replace.createImportI18N importI18N getStart w filePath))
  /\ (Replace.isScriptFile filePath = true ->
      Replace.createImportI18N importI18N getStart w filePath
      = Js.slice (Replace.readFile w filePath) 0 (getStart (Replace.readFile w filePath))
        ++ (importI18N ++ [10%N])
        ++ Js.sliceFrom (Replace.readFile w filePath) (getStart (Replace.readFile w filePath))).
Proof.
  assert (Hhas : Replace.hasImportI18N topLevel w filePath
                 = existsb Replace.importsI18N (topLevel (Replace.readFile w filePath))).
  { unfold Replace.hasImportI18N, Js.reduce. now rewrite hasImportI18N_from. }
  split; [exact Hhas|]. split; [intros c; apply checkImportClause_spec|].
  split; [|split].
  - intros H. unfold Replace.addImportIfAbsent. now rewrite H.
  - intros H. unfold Replace.addImportIfAbsent. now rewrite H.
  - intros H. unfold Replace.createImportI18N. now rewrite H.
Qed.

(** C5 fails in the code: a rewritten component file need not have exactly
    one import of [I18N].

    The import is put after every text [<script>] of the file and nowhere
    else.  A component file with a [<script setup>] block and no import has
    its text replaced by a reference to [I18N] and gets no import at all:
    the text [<script>] is not in it.  A component file that names
    [<script>] a second time, here in a comment of its script, gets the
    import twice, the second one in the middle of the comment.  A
    component file with one plain [<script>] tag gets it once, right after
    the tag. *)
Theorem C5_import_missing_or_doubled :
  (Replace.readFile
     (fst (Replace.replaceEach (Js.lit "lang") (Js.lit "ts") Examples.importI18N
             (fun _ => [Replace.OtherNode]) (fun _ => 0) Examples.lib
             Examples.queDingWorld (Js.lit "a.vue") [Examples.queDingItem]))
     (Js.lit "a.vue")
   = Js.lit "<template><p>{{I18N.common.queDing}}</p></template>" ++ [10%N]
     ++ Js.lit "<script setup>" ++ [10%N] ++ Js.lit "</script>"
   /\ Js.count (Js.lit "import")
        (Replace.readFile
           (fst (Replace.replaceEach (Js.lit "lang") (Js.lit "ts") Examples.importI18N
                   (fun _ => [Replace.OtherNode]) (fun _ => 0) Examples.lib
                   Examples.queDingWorld (Js.lit "a.vue") [Examples.queDingItem]))
           (Js.lit "a.vue"))
      = 0%nat)
  /\ (Replace.readFile
        (Replace.addImportIfAbsent Examples.importI18N (fun _ => [Replace.OtherNode])
           (fun _ => 0) Examples.namedScriptWorld (Js.lit "c.vue"))
        (Js.lit "c.vue")
      = Js.lit "<template><p>{{I18N.common.queDing}}</p></template>" ++ [10%N]
        ++ Js.lit "<script>" ++ [10%N] ++ Examples.importI18N ++ [10%N] ++ [10%N]
        ++ Js.lit "// <script>" ++ [10%N] ++ Examples.importI18N ++ [10%N]
        ++ Js.lit " holds the component" ++ [10%N]
        ++ Js.lit "export default {}" ++ [10%N] ++ Js.lit "</script>"
      /\ Js.count Examples.importI18N
           (Replace.readFile
              (Replace.addImportIfAbsent Examples.importI18N (fun _ => [Replace.OtherNode])
                 (fun _ => 0) Examples.namedScriptWorld (Js.lit "c.vue"))
              (Js.lit "c.vue"))
         = 2%nat)
  /\ Replace.readFile
       (Replace.addImportIfAbsent Examples.importI18N (fun _ => [Replace.OtherNode])
          (fun _ => 0) Examples.plainScriptWorld (Js.lit "b.vue"))
       (Js.lit "b.vue")
     = Js.lit "<template><p>{{I18N.common.queDing}}</p></template>" ++ [10%N]
       ++ Js.lit "<script>" ++ [10%N] ++ Examples.importI18N ++ [10%N] ++ [10%N]
       ++ Js.lit "export default {}" ++ [10%N] ++ Js.lit "</script>".
Proof. repeat split; vm_compute; reflexivity. Qed.

(** ** Extraction *)

(** C3.  The markup extractor, on [<p>{{a}}中</p>], reports the character
    [中] with the range 5..6: its place in the text of the node, which
    starts at 3, not its place 8..9 in the source.  The source from 5 to 6
    is [a], with no Chinese character in it.  The typed-script extractor,
    on [const a = /* 中 */ `x${b}`;], tests the text from [pos], comment
    included, and reports the range 18..25 of the literal, which has no
    Chinese character either. *)
Theorem C3_reported_range_without_chinese :
  Examples.find Examples.boundTextCode (Js.lit "index.html")
  = Find.Ok [mkSpan [0x4E2D%N] (makeRange 5 6) false]
  /\ Js.slice Examples.boundTextCode 5 6 = Js.lit "a"
  /\ hasChinese (Js.slice Examples.boundTextCode 5 6) = false
  /\ Js.slice Examples.boundTextCode 8 9 = [0x4E2D%N]
  /\ Find.findChineseText (fun _ => []) (fun _ => Examples.commentNodes)
       (fun text _ => text) Examples.rejecting (fun _ => Find.Ok []) (fun _ => Find.Ok [])
       Find.Missing Examples.commentCode (Js.lit "a.ts")
     = Find.Ok [mkSpan (Js.lit "x${b}") (makeRange 18 25) true]
  /\ Js.slice Examples.commentCode 18 25 = Js.lit "`x${b}`"
  /\ hasChinese (Js.slice Examples.commentCode 18 25) = false.
Proof. repeat split; vm_compute; reflexivity. Qed.

Lemma reduceFrom_app {A B} (f : B -> A -> nat -> B) (l1 l2 : list A) (i : nat) (acc : B) :
  Js.reduceFrom f i acc (l1 ++ l2)
  = Js.reduceFrom f (i + length l1) (Js.reduceFrom f i acc l1) l2.
Proof.
  revert i acc. induction l1 as [|x l1 IH]; intros i acc; simpl.
  - now rewrite Nat.add_0_r.
  - rewrite IH. f_equal. lia.
Qed.

Section Search.

Variable findChineseText : jsstring -> jsstring -> Find.Result (list Span).
Variable readFile : jsstring -> jsstring.
Variable isFile : jsstring -> bool.

Local Abbreviation searchStep := (Extract.searchStep findChineseText readFile).

Lemma search_thrown (l : list jsstring) (i : nat) (message : jsstring) :
  Js.reduceFrom searchStep i (Find.Thrown message) l = Find.Thrown message.
Proof. revert i. induction l as [|x l IH]; intros i; simpl; [reflexivity | apply IH]. Qed.

Lemma search_ok (l : list jsstring) (i : nat) (acc : list Extract.WorkItem) :
  Forall (fun f => exists texts, findChineseText (readFile f) f = Find.Ok texts) l ->
  exists items, Js.reduceFrom searchStep i (Find.Ok acc) l = Find.Ok items.
Proof.
  intros Hall. revert i acc. induction Hall as [|f l [texts Hf] _ IH]; intros i acc; simpl.
  - now exists acc.
  - rewrite Hf. apply IH.
Qed.

(** The search ends with what the first file that throws has thrown. *)
Lemma findAllChineseText_thrown (before after : list jsstring) (file message : jsstring) :
  Forall (fun f => Extract.isCodeFile isFile f = true ->
                   exists texts, findChineseText (readFile f) f = Find.Ok texts) before ->
  Extract.isCodeFile isFile file = true ->
  findChineseText (readFile file) file = Find.Thrown message ->
  Extract.findAllChineseText findChineseText readFile isFile (before ++ file :: after)
  = Find.Thrown message.
Proof.
  intros Hbefore Hcode Hthrown. unfold Extract.findAllChineseText, Js.reduce.
  rewrite List.filter_app. cbn [List.filter]. rewrite Hcode.
  rewrite reduceFrom_app.
  destruct (search_ok (List.filter (Extract.isCodeFile isFile) before) 0 []) as [items ->].
  { apply Forall_forall. intros f Hf. apply list_elem_of_In, filter_In in Hf as [Hin Hf].
    rewrite Forall_forall in Hbefore. apply Hbefore; [now apply list_elem_of_In | exact Hf]. }
  cbn [Js.reduceFrom Extract.searchStep]. rewrite Hthrown. apply search_thrown.
Qed.

End Search.

(** C8 (as the code has it).  What the parser of the script extractor
    throws on a file is caught nowhere: [findTextInJs] and
    [findChineseText] throw it, the search over the files ends with it
    whatever files come after, and so does [extractAll].  Only the
    version-3 component-file extractor has a handler: when its [try] block
    throws, the version-2 extractor is called in its place. *)
Theorem C8_parse_error_ends_the_search
    (parseTemplate : jsstring -> list Find.HtmlNode)
    (createSourceFile : jsstring -> list Find.TsNode)
    (removeFileComment : jsstring -> jsstring -> jsstring)
    (babelParse : jsstring -> Find.Result (list Find.BabelNode))
    (findTextInVue2 findTextInVue3Try : jsstring -> Find.Result (list Span))
    (config : Find.ConfigFile) (readFile : jsstring -> jsstring) (isFile : jsstring -> bool)
    (before after : list jsstring) (file message : jsstring) :
  Forall (fun f => Extract.isCodeFile isFile f = true ->
            exists texts,
              Find.findChineseText parseTemplate createSourceFile removeFileComment
                babelParse findTextInVue2 findTextInVue3Try config (readFile f) f
              = Find.Ok texts) before ->
  Js.endsWith file (Js.lit ".js") || Js.endsWith file (Js.lit ".jsx") = true ->
  Js.endsWith file (Js.lit ".html") = false ->
  Js.endsWith file (Js.lit ".vue") = false ->
  babelParse (readFile file) = Find.Thrown message ->
  Find.findTextInJs babelParse (readFile file) = Find.Thrown message
  /\ Find.findChineseText parseTemplate createSourceFile removeFileComment
       babelParse findTextInVue2 findTextInVue3Try config (readFile file) file
     = Find.Thrown message
  /\ Extract.findAllChineseText
       (Find.findChineseText parseTemplate createSourceFile removeFileComment
          babelParse findTextInVue2 findTextInVue3Try config)
       readFile isFile (before ++ file :: after)
     = Find.Thrown message
  /\ Extract.extractAllStart
       (Find.findChineseText parseTemplate createSourceFile removeFileComment
          babelParse findTextInVue2 findTextInVue3Try config)
       readFile isFile true (before ++ file :: after)
     = Find.Thrown message
  /\ (forall code e, findTextInVue3Try code = Find.Thrown e ->
        Find.findTextInVue3 findTextInVue2 findTextInVue3Try code = findTextInVue2 code).
Proof.
  intros Hbefore Hjs Hhtml Hvue Hparse.
  assert (Hfind : Find.findChineseText parseTemplate createSourceFile removeFileComment
                    babelParse findTextInVue2 findTextInVue3Try config (readFile file) file
                  = Find.Thrown message).
  { unfold Find.findChineseText, Find.findTextInJs. now rewrite Hhtml, Hvue, Hjs, Hparse. }
  assert (Hcode : Extract.isCodeFile isFile file = true).
  { unfold Extract.isCodeFile. apply orb_true_iff in Hjs as [H|H]; rewrite H;
      rewrite ?orb_true_r; reflexivity. }
  assert (Hall : Extract.findAllChineseText
       (Find.findChineseText parseTemplate createSourceFile removeFileComment
          babelParse findTextInVue2 findTextInVue3Try config)
       readFile isFile (before ++ file :: after) = Find.Thrown message)
    by now apply findAllChineseText_thrown.
  split; [unfold Find.findTextInJs; now rewrite Hparse|].
  split; [exact Hfind|]. split; [exact Hall|].
  split; [unfold Extract.extractAllStart; now rewrite Hall|].
  intros code e He. unfold Find.findTextInVue3. now rewrite He.
Qed.

(** The script file [a.js] is rejected by its parser; the typed-script file
    [b.ts] that comes after it has a literal, and the search ends with the
    error. *)
Lemma C8_parse_error_ends_the_search_witness :
  Extract.findAllChineseText Examples.find Examples.twoFiles (fun _ => true)
    ([] ++ Js.lit "a.js" :: [Js.lit "b.ts"])
  = Find.Thrown (Js.lit "SyntaxError").
Proof.
  refine (proj1 (proj2 (proj2
    (C8_parse_error_ends_the_search
       (fun _ => Examples.boundTextNodes) (fun _ => Examples.tiJiaoNodes)
       (fun text _ => text) Examples.rejecting (fun _ => Find.Ok []) (fun _ => Find.Ok [])
       Find.Missing Examples.twoFiles (fun _ => true) [] [Js.lit "b.ts"]
       (Js.lit "a.js") (Js.lit "SyntaxError") _ _ _ _ _)))).
  - constructor.
  - reflexivity.
  - reflexivity.
  - reflexivity.
  - reflexivity.
Defined.

(** C8 as stated fails: the file [b.ts] alone gives one work item, but with
    the rejected file [a.js] before it the search gives no work item at
    all: it ends with the error of the parser, and [extractAll] with it. *)
Lemma C8_skip_and_continue_counterexample :
  Extract.findAllChineseText Examples.find Examples.twoFiles (fun _ => true) [Js.lit "b.ts"]
  = Find.Ok [Extract.mkWorkItem (Js.lit "b.ts") [Examples.tiJiaoSpan]]
  /\ Extract.findAllChineseText Examples.find Examples.twoFiles (fun _ => true)
       [Js.lit "a.js"; Js.lit "b.ts"]
     = Find.Thrown (Js.lit "SyntaxError")
  /\ Extract.extractAllStart Examples.find Examples.twoFiles (fun _ => true) true
       [Js.lit "a.js"; Js.lit "b.ts"]
     = Find.Thrown (Js.lit "SyntaxError").
Proof. repeat split; vm_compute; reflexivity. Qed.

(** C10.  [findTextInVue] takes the state of [kiwi.config.json] at the
    call and keeps nothing between calls.  When the file is missing,
    cannot be read, is not the text of a value, holds [null] or any value
    that is not an object, or holds an object without a [vueVersion]
    member, the version-3 extractor is called.  The version-2 extractor is
    called exactly when the member is the string [vue2]. *)
Theorem C10_vue_version_default
    (findTextInVue2 findTextInVue3Try : jsstring -> Find.Result (list Span))
    (code : jsstring) :
  Find.findTextInVue findTextInVue2 findTextInVue3Try Find.Missing code
  = Find.findTextInVue3 findTextInVue2 findTextInVue3Try code
  /\ Find.findTextInVue findTextInVue2 findTextInVue3Try Find.Unreadable code
     = Find.findTextInVue3 findTextInVue2 findTextInVue3Try code
  /\ Find.findTextInVue findTextInVue2 findTextInVue3Try Find.Malformed code
     = Find.findTextInVue3 findTextInVue2 findTextInVue3Try code
  /\ (forall fields,
        Find.lastField fields (Js.lit "vueVersion") = None ->
        Find.findTextInVue findTextInVue2 findTextInVue3Try
          (Find.Parsed (Find.JObject fields)) code
        = Find.findTextInVue3 findTextInVue2 findTextInVue3Try code)
  /\ (forall config,
        (forall fields, config <> Find.JObject fields) ->
        Find.findTextInVue findTextInVue2 findTextInVue3Try (Find.Parsed config) code
        = Find.findTextInVue3 findTextInVue2 findTextInVue3Try code)
  /\ (forall fields,
        Find.findTextInVue findTextInVue2 findTextInVue3Try
          (Find.Parsed (Find.JObject fields)) code
        = match Find.lastField fields (Js.lit "vueVersion") with
          | Some (Find.JString s) =>
              if Js.eqb s (Js.lit "vue2") then findTextInVue2 code
              else Find.findTextInVue3 findTextInVue2 findTextInVue3Try code
          | _ => Find.findTextInVue3 findTextInVue2 findTextInVue3Try code
          end).
Proof.
  split; [reflexivity|]. split; [reflexivity|]. split; [reflexivity|].
  split; [|split].
  - intros fields Hnone. unfold Find.findTextInVue, Find.getVueVersionFromConfig.
    cbn [Find.vueVersionOf]. now rewrite Hnone.
  - intros config Hobj. unfold Find.findTextInVue, Find.getVueVersionFromConfig.
    destruct config; try reflexivity. now destruct (Hobj fields).
  - intros fields. unfold Find.findTextInVue, Find.getVueVersionFromConfig.
    cbn [Find.vueVersionOf].
    destruct (Find.lastField fields (Js.lit "vueVersion")) as [v|]; [|reflexivity].
    destruct v as [|b|z|s|items|members]; cbn [Find.truthyJson Find.isVue2];
      try reflexivity.
    + now destruct b.
    + now destruct (negb (z =? 0)).
    + destruct s as [|c s]; [reflexivity|]. cbn [Js.truthy Find.isVue2]. reflexivity.
Qed.

(** A configuration that names the catalog directory only: the version-3
    extractor is called. *)
Lemma C10_vue_version_default_witness :
  Find.findTextInVue (fun _ => Find.Ok []) (fun _ => Find.Ok [Examples.tiJiaoSpan])
    (Find.Parsed Examples.plainConfig) Examples.queDingFile
  = Find.findTextInVue3 (fun _ => Find.Ok []) (fun _ => Find.Ok [Examples.tiJiaoSpan])
      Examples.queDingFile.
Proof.
  exact (proj1 (proj2 (proj2 (proj2
    (C10_vue_version_default (fun _ => Find.Ok []) (fun _ => Find.Ok [Examples.tiJiaoSpan])
       Examples.queDingFile))))
    [(Js.lit "kiwiDir", Find.JString (Js.lit "./.kiwi"))] eq_refl).
Defined.

(** * Further properties of the code *)
(** ** Keys and texts of one file *)

Lemma get_elem (obj : Obj.t) (k v : jsstring) :
  Obj.get obj k = Some v -> (k, v) ∈ obj.
Proof.
  induction obj as [|[k0 v0] rest IH]; simpl; [discriminate|].
  destruct (Js.eqb k0 k) eqn:E.
  - apply eqb_eq in E. intros [= <-]. subst. left.
  - intros H. right. auto.
Qed.

Lemma elem_get (obj : Obj.t) (k v : jsstring) :
  NoDup (Obj.keys obj) -> (k, v) ∈ obj -> Obj.get obj k = Some v.
Proof.
  induction obj as [|[k0 v0] rest IH]; simpl; intros Hnd Hin.
  - inversion Hin.
  - apply NoDup_cons in Hnd as [Hk0 Hnd]. apply elem_of_cons in Hin as [[= <- <-]|Hin].
    + replace (Js.eqb k k) with true; [reflexivity|]. symmetry. now apply eqb_eq.
    + destruct (Js.eqb k0 k) eqn:E; [|auto].
      apply eqb_eq in E. subst k0. exfalso. apply Hk0.
      unfold Obj.keys. apply list_elem_of_fmap. exists (k, v). auto.
Qed.

Lemma elem_set (obj : Obj.t) (k v k' v' : jsstring) :
  (k', v') ∈ Obj.set obj k v -> (k', v') ∈ obj \/ (k' = k /\ v' = v).
Proof.
  induction obj as [|[k0 v0] rest IH]; simpl.
  - intros H. apply list_elem_of_singleton in H as [= -> ->]. now right.
  - destruct (Js.eqb k0 k) eqn:E.
    + apply eqb_eq in E. subst k0. intros H. apply elem_of_cons in H as [[= -> ->]|H].
      * now right.
      * left. now right.
    + intros H. apply elem_of_cons in H as [[= -> ->]|H].
      * left. left.
      * destruct (IH H) as [?|?]; [left; now right | now right].
Qed.

Lemma keys_set (obj : Obj.t) (k v : jsstring) :
  Obj.keys (Obj.set obj k v)
  = if bool_decide (k ∈ Obj.keys obj) then Obj.keys obj else Obj.keys obj ++ [k].
Proof.
  induction obj as [|[k0 v0] rest IH]; simpl.
  - reflexivity.
  - destruct (Js.eqb k0 k) eqn:E.
    + apply eqb_eq in E. subst k0. simpl. rewrite bool_decide_eq_true_2; [reflexivity | left].
    + apply eqb_neq in E. simpl. rewrite IH.
      destruct (bool_decide (k ∈ Obj.keys rest)) eqn:B.
      * apply bool_decide_eq_true in B. rewrite bool_decide_eq_true_2; [reflexivity | now right].
      * apply bool_decide_eq_false in B. rewrite bool_decide_eq_false_2; [reflexivity|].
        intros H. apply elem_of_cons in H as [?|?]; congruence.
Qed.

Lemma NoDup_keys_set (obj : Obj.t) (k v : jsstring) :
  NoDup (Obj.keys obj) -> NoDup (Obj.keys (Obj.set obj k v)).
Proof.
  intros H. rewrite keys_set. destruct (bool_decide (k ∈ Obj.keys obj)) eqn:B; [exact H|].
  apply bool_decide_eq_false in B. apply NoDup_app. split; [exact H|]. split.
  - intros x Hx Hx'. apply list_elem_of_singleton in Hx'. congruence.
  - apply NoDup_singleton.
Qed.

Lemma replaceHyphens_id (k : jsstring) : 45%N ∉ k -> Extract.replaceHyphens k = k.
Proof.
  unfold Extract.replaceHyphens. induction k as [|c k IH]; [reflexivity|].
  intros H. apply not_elem_of_cons in H as [Hc Hk]. simpl.
  destruct (N.eqb_spec c 45); [congruence|]. f_equal. auto.
Qed.

Lemma truthy_app_r (a b : jsstring) : Js.truthy b = true -> Js.truthy (a ++ b) = true.
Proof. destruct a; [auto | reflexivity]. Qed.

Lemma truthy_app_l (a b : jsstring) : Js.truthy a = true -> Js.truthy (a ++ b) = true.
Proof. destruct a; [discriminate | reflexivity]. Qed.

Lemma generateNewKey_truthy (suggestion : list jsstring) (langsPrefix : option jsstring)
    (transText : jsstring) :
  suggestion <> [] ->
  Js.truthy (Extract.generateNewKey suggestion langsPrefix transText) = true.
Proof.
  intros Hs. unfold Extract.generateNewKey.
  assert (Hbase : Js.truthy (Extract.replaceHyphens
            ((if (0 <? length suggestion)%nat
              then Js.join (Js.lit ".") suggestion ++ Js.lit "." else []) ++ transText)) = true).
  { destruct suggestion as [|s0 rest]; [congruence|]. cbn [length Nat.ltb Nat.leb].
    unfold Extract.replaceHyphens.
    destruct (Js.join (Js.lit ".") (s0 :: rest)); reflexivity. }
  destruct langsPrefix as [p|]; [|exact Hbase].
  destruct (Js.truthy p) eqn:Hp; [|exact Hbase]. now apply truthy_app_l.
Qed.

Lemma deduplicateKey_truthy (obj : Obj.t) (transKey text finalKey : jsstring) :
  Js.truthy transKey = true ->
  Extract.deduplicateKey obj transKey text = Some finalKey ->
  Js.truthy finalKey = true.
Proof.
  intros Ht H. unfold Extract.deduplicateKey in H.
  apply bind_Some in H as (n & _ & [= <-]).
  destruct (2 <=? n)%N; [now apply truthy_app_l | exact Ht].
Qed.

Section KeyResolution.

Variable camelCase : jsstring -> jsstring.
Variable suggestion : list jsstring.
Variable langsPrefix : option jsstring.
Variable translateTexts : list jsstring.
Variable langObj : Obj.t.

Hypothesis suggestion_nonempty : suggestion <> [].

Local Abbreviation assign := (Extract.assign camelCase suggestion langsPrefix translateTexts).
Local Abbreviation assignFresh :=
  (Extract.assignFresh camelCase suggestion langsPrefix translateTexts).

Lemma lookup_None (obj : Obj.t) (t : jsstring) :
  Obj.lookup obj t = None <-> Obj.get obj t = None /\ Obj.inherited t = false.
Proof.
  unfold Obj.lookup. destruct (Obj.get obj t); [split; [discriminate | intros [? _]; discriminate]|].
  destruct (Obj.inherited t); split; try discriminate; auto. intros [_ ?]. discriminate.
Qed.

Lemma lookup_set_ne (obj : Obj.t) (t k t' : jsstring) :
  t <> t' -> Obj.lookup (Obj.set obj t k) t' = Obj.lookup obj t'.
Proof. intros Hne. unfold Obj.lookup. now rewrite get_set_ne. Qed.

Lemma lookup_set_eq (obj : Obj.t) (t k : jsstring) :
  Obj.lookup (Obj.set obj t k) t = Some (Obj.Str k).
Proof. unfold Obj.lookup. now rewrite get_set_eq. Qed.

Lemma assignFresh_memo (st st' : Extract.Synth) (curr : Span) (i : nat) :
  Obj.lookup (Extract.virtualMemory st) (text curr) = None ->
  Extract.memoInv langObj st ->
  assignFresh st curr i = Some st' ->
  Extract.memoInv langObj st'.
Proof.
  intros Hnone (Hout & Htruthy & Hbind & Hnow) Hstep.
  pose proof Hnone as [Hown Hinh]%lookup_None.
  unfold Extract.assignFresh in Hstep.
  assert (Hold : forall item, item ∈ Extract.replaceableStrs st ->
            text (Extract.target item) <> text curr).
  { intros item Hin Heq. apply Hout in Hin. rewrite Heq in Hin. congruence. }
  destruct (Extract.findExistingKey (Extract.finalLangObj st) (text curr)) as [k|] eqn:Hk.
  - injection Hstep as <-. unfold Extract.findExistingKey in Hk.
    destruct (Utils.findMatchKey (Extract.finalLangObj st) (text curr)) as [k0|] eqn:Hk0;
      [|discriminate].
    destruct (Js.truthy k0) eqn:Hk0t; [|discriminate]. injection Hk as <-.
    apply findMatchKey_Some in Hk0.
    assert (Horig : (k0, text curr) ∈ langObj).
    { destruct (Hbind _ _ Hk0) as [?|[m Hm]]; [assumption | congruence]. }
    assert (Hrt : Js.truthy (Extract.replaceHyphens k0) = true).
    { destruct k0; [discriminate | reflexivity]. }
    unfold Extract.memoInv. cbn. split; [|split; [|split]].
    + intros item Hin. apply elem_of_app in Hin as [Hin|Hin].
      * rewrite lookup_set_ne by (apply not_eq_sym, Hold, Hin). now apply Hout.
      * apply list_elem_of_singleton in Hin as ->. cbn. apply lookup_set_eq.
    + intros t m Hget. apply get_set_cases in Hget as [Hget|[-> ->]];
        [now apply (Htruthy _ _ Hget) | now split].
    + intros k v Hin. destruct (Hbind _ _ Hin) as [?|[m Hm]]; [now left|]. right.
      destruct (decide (text curr = v)) as [<-|Hne]; [congruence|].
      exists m. now rewrite get_set_ne.
    + intros item Hin Hnw. apply elem_of_app in Hin as [Hin|Hin]; [now apply Hnow|].
      apply list_elem_of_singleton in Hin as ->. cbn. eauto.
  - apply bind_Some in Hstep as (finalKey & Hkey & [= <-]).
    assert (Hft : Js.truthy finalKey = true).
    { eapply deduplicateKey_truthy; [|exact Hkey]. now apply generateNewKey_truthy. }
    unfold Extract.memoInv. cbn. split; [|split; [|split]].
    + intros item Hin. apply elem_of_app in Hin as [Hin|Hin].
      * rewrite lookup_set_ne by (apply not_eq_sym, Hold, Hin). now apply Hout.
      * apply list_elem_of_singleton in Hin as ->. cbn. apply lookup_set_eq.
    + intros t m Hget. apply get_set_cases in Hget as [Hget|[-> ->]];
        [now apply (Htruthy _ _ Hget) | now split].
    + intros k v Hin. apply elem_set in Hin as [Hin|[-> ->]].
      * destruct (Hbind _ _ Hin) as [?|[m Hm]]; [now left|]. right.
        destruct (decide (text curr = v)) as [<-|Hne]; [congruence|].
        exists m. now rewrite get_set_ne.
      * right. exists finalKey. apply get_set_eq.
    + intros item Hin Hnw. apply elem_of_app in Hin as [Hin|Hin]; [now apply Hnow|].
      apply list_elem_of_singleton in Hin as ->. discriminate.
Qed.

Lemma lookup_truthy (st : Extract.Synth) (t : jsstring) (memo : Obj.Value) :
  Extract.memoInv langObj st ->
  Obj.lookup (Extract.virtualMemory st) t = Some memo -> Obj.truthy memo = true.
Proof.
  intros (_ & Htruthy & _) H. unfold Obj.lookup in H.
  destruct (Obj.get (Extract.virtualMemory st) t) as [m|] eqn:Hm.
  - injection H as <-. now apply (Htruthy _ _ Hm).
  - destruct (Obj.inherited t); [now injection H as <- | discriminate].
Qed.

Lemma assign_memo (st st' : Extract.Synth) (curr : Span) (i : nat) :
  Extract.memoInv langObj st ->
  assign st curr i = Some st' ->
  Extract.memoInv langObj st'.
Proof.
  intros Hinv. pose proof Hinv as (Hout & Htruthy & Hbind & Hnow). unfold Extract.assign.
  destruct (Obj.lookup (Extract.virtualMemory st) (text curr)) as [memo|] eqn:Hmemo;
    [|now apply assignFresh_memo].
  rewrite (lookup_truthy _ _ _ Hinv Hmemo). intros [= <-].
  unfold Extract.memoInv. cbn. split; [|split; [|split]].
  - intros item Hin. apply elem_of_app in Hin as [Hin|Hin]; [now apply Hout|].
    apply list_elem_of_singleton in Hin as ->. exact Hmemo.
  - exact Htruthy.
  - exact Hbind.
  - intros item Hin Hnw. apply elem_of_app in Hin as [Hin|Hin]; [now apply Hnow|].
    apply list_elem_of_singleton in Hin as ->. discriminate.
Qed.

Hypothesis catalog_NoDup : NoDup (Obj.keys langObj).
Hypothesis catalog_no_hyphen : forall k, k ∈ Obj.keys langObj -> 45%N ∉ k.

Lemma assign_resolve (st st' : Extract.Synth) (curr : Span) (i : nat) :
  Extract.memoInv langObj st ->
  Extract.resolveInv st ->
  assign st curr i = Some st' ->
  Extract.resolveInv st'.
Proof.
  intros Hinv (Hnd & Hres). pose proof Hinv as (Hout & Htruthy & Hbind & Hnow).
  unfold Extract.assign.
  destruct (Obj.lookup (Extract.virtualMemory st) (text curr)) as [memo|] eqn:Hmemo.
  { rewrite (lookup_truthy _ _ _ Hinv Hmemo). intros [= <-]. split; assumption. }
  apply lookup_None in Hmemo as [Hmemo Hinh].
  unfold Extract.assignFresh.
  destruct (Extract.findExistingKey (Extract.finalLangObj st) (text curr)) as [k|] eqn:Hk.
  - intros [= <-]. unfold Extract.findExistingKey in Hk.
    destruct (Utils.findMatchKey (Extract.finalLangObj st) (text curr)) as [k0|] eqn:Hk0;
      [|discriminate].
    destruct (Js.truthy k0) eqn:Hk0t; [|discriminate]. injection Hk as <-.
    apply findMatchKey_Some in Hk0.
    assert (Horig : (k0, text curr) ∈ langObj).
    { destruct (Hbind _ _ Hk0) as [?|[m Hm]]; [assumption | congruence]. }
    rewrite replaceHyphens_id.
    2:{ apply catalog_no_hyphen. unfold Obj.keys. apply list_elem_of_fmap.
        exists (k0, text curr). auto. }
    split; cbn; [exact Hnd|].
    intros t m Hget. apply get_set_cases in Hget as [Hget|[-> ->]]; [auto|].
    now apply elem_get.
  - intros Hstep. apply bind_Some in Hstep as (finalKey & Hkey & [= <-]).
    split; cbn; [now apply NoDup_keys_set|].
    intros t m Hget. apply get_set_cases in Hget as [Hget|[-> ->]]; [|apply get_set_eq].
    apply set_preserves; [|auto]. eapply deduplicateKey_fresh_or_same; eassumption.
Qed.

End KeyResolution.

Lemma reduceFrom_None {A S} (f : S -> A -> nat -> option S) (l : list A) (i : nat) :
  Js.reduceFrom (fun prev curr i => st ← prev; f st curr i) i None l = None.
Proof. revert i. induction l as [|x l IH]; intros i; simpl; [reflexivity | apply IH]. Qed.

(** A property every call of the callback keeps holds at the end of the
    reduction. *)
Lemma reduceFrom_option_inv {A S} (f : S -> A -> nat -> option S) (P : S -> Prop) :
  (forall st x i st', P st -> f st x i = Some st' -> P st') ->
  forall l i st0 st,
    P st0 ->
    Js.reduceFrom (fun prev curr i => st ← prev; f st curr i) i (Some st0) l = Some st ->
    P st.
Proof.
  intros Hstep. induction l as [|x l IH]; intros i st0 st H0; simpl.
  - now intros [= <-].
  - destruct (f st0 x i) as [st1|] eqn:E.
    + apply IH. eapply Hstep; eassumption.
    + rewrite reduceFrom_None. discriminate.
Qed.

Lemma getReplaceableStrs_memoInv camelCase suggestion langsPrefix translateTexts
    (langObj : Obj.t) (targetStrs : list Span) (st : Extract.Synth) :
  suggestion <> [] ->
  Extract.getReplaceableStrs camelCase suggestion langsPrefix translateTexts langObj targetStrs
  = Some st ->
  Extract.memoInv langObj st.
Proof.
  intros Hs. unfold Extract.getReplaceableStrs, Js.reduce.
  apply (reduceFrom_option_inv _ (Extract.memoInv langObj)).
  - intros st0 x i st' H0 Hstep. eapply assign_memo; eassumption.
  - unfold Extract.memoInv. cbn. split; [|split; [|split]].
    + intros item H. inversion H.
    + discriminate.
    + intros k v H. now left.
    + intros item H. inversion H.
Qed.

Lemma getReplaceableStrs_resolveInv camelCase suggestion langsPrefix translateTexts
    (langObj : Obj.t) (targetStrs : list Span) (st : Extract.Synth) :
  suggestion <> [] ->
  NoDup (Obj.keys langObj) ->
  (forall k, k ∈ Obj.keys langObj -> 45%N ∉ k) ->
  Extract.getReplaceableStrs camelCase suggestion langsPrefix translateTexts langObj targetStrs
  = Some st ->
  Extract.memoInv langObj st /\ Extract.resolveInv st.
Proof.
  intros Hs Hnd Hhy. unfold Extract.getReplaceableStrs, Js.reduce.
  apply (reduceFrom_option_inv _ (fun st => Extract.memoInv langObj st /\ Extract.resolveInv st)).
  - intros st0 x i st' [H0 H1] Hstep. split.
    + eapply assign_memo; eassumption.
    + eapply assign_resolve; eassumption.
  - split.
    + unfold Extract.memoInv. cbn. split; [|split; [|split]].
      * intros item H. inversion H.
      * discriminate.
      * intros k v H. now left.
      * intros item H. inversion H.
    + split; cbn; [exact Hnd | discriminate].
Qed.

(** X1. Two literals of a file with the same text get the same key. *)
Theorem getReplaceableStrs_same_text_same_key
    (camelCase : jsstring -> jsstring) (suggestion : list jsstring)
    (langsPrefix : option jsstring) (translateTexts : list jsstring)
    (langObj : Obj.t) (targetStrs : list Span) (st : Extract.Synth) :
  suggestion <> [] ->
  Extract.getReplaceableStrs camelCase suggestion langsPrefix translateTexts langObj targetStrs
  = Some st ->
  forall a b, a ∈ Extract.replaceableStrs st -> b ∈ Extract.replaceableStrs st ->
    text (Extract.target a) = text (Extract.target b) ->
    Extract.key a = Extract.key b.
Proof.
  intros Hs Hrun a b Ha Hb Heq.
  destruct (getReplaceableStrs_memoInv _ _ _ _ _ _ _ Hs Hrun) as (Hout & _).
  apply Hout in Ha, Hb. rewrite Heq in Ha. congruence.
Qed.

(** X2. On a catalog that has no key twice and no hyphen in a key, every
    key the file gets is bound in the final catalog to the text of its
    literal; the one exception is a literal whose text is the name of a
    member every object inherits ([constructor], [toString], ...), whose
    key is that member and is bound nowhere.  In both cases two literals
    with the same key have the same text. *)
Theorem getReplaceableStrs_keys_resolve
    (camelCase : jsstring -> jsstring) (suggestion : list jsstring)
    (langsPrefix : option jsstring) (translateTexts : list jsstring)
    (langObj : Obj.t) (targetStrs : list Span) (st : Extract.Synth) :
  suggestion <> [] ->
  NoDup (Obj.keys langObj) ->
  (forall k, k ∈ Obj.keys langObj -> 45%N ∉ k) ->
  Extract.getReplaceableStrs camelCase suggestion langsPrefix translateTexts langObj targetStrs
  = Some st ->
  (forall item, item ∈ Extract.replaceableStrs st ->
     match Extract.key item with
     | Obj.Str k =>
         Obj.inherited (text (Extract.target item)) = false
         /\ Obj.get (Extract.finalLangObj st) k = Some (text (Extract.target item))
     | Obj.Inherited name =>
         name = text (Extract.target item) /\ Obj.inherited name = true
     end)
  /\ (forall a b, a ∈ Extract.replaceableStrs st -> b ∈ Extract.replaceableStrs st ->
        Extract.key a = Extract.key b ->
        text (Extract.target a) = text (Extract.target b)).
Proof.
  intros Hs Hnd Hhy Hrun.
  destruct (getReplaceableStrs_resolveInv _ _ _ _ _ _ _ Hs Hnd Hhy Hrun)
    as ((Hout & Htruthy & _) & (_ & Hres)).
  assert (H : forall item, item ∈ Extract.replaceableStrs st ->
     match Extract.key item with
     | Obj.Str k =>
         Obj.inherited (text (Extract.target item)) = false
         /\ Obj.get (Extract.finalLangObj st) k = Some (text (Extract.target item))
     | Obj.Inherited name =>
         name = text (Extract.target item) /\ Obj.inherited name = true
     end).
  { intros item Hin. apply Hout in Hin. unfold Obj.lookup in Hin.
    destruct (Obj.get (Extract.virtualMemory st) (text (Extract.target item)))
      as [m|] eqn:Hm.
    - injection Hin as <-. split; [now apply (Htruthy _ _ Hm) | now apply Hres].
    - destruct (Obj.inherited (text (Extract.target item))) eqn:Hinh; [|discriminate].
      injection Hin as <-. auto. }
  split; [exact H|]. intros a b Ha Hb Heq. apply H in Ha, Hb. rewrite Heq in Ha.
  destruct (Extract.key b) as [k|name].
  - destruct Ha as [_ Ha], Hb as [_ Hb]. congruence.
  - destruct Ha as [Ha _], Hb as [Hb _]. congruence.
Qed.

(** X3. A literal that asks for no write of the catalog has a text the
    catalog had before the run, and its key is the key of such a binding
    with hyphens replaced by underscores. *)
Theorem getReplaceableStrs_no_write_known_text
    (camelCase : jsstring -> jsstring) (suggestion : list jsstring)
    (langsPrefix : option jsstring) (translateTexts : list jsstring)
    (langObj : Obj.t) (targetStrs : list Span) (st : Extract.Synth) :
  suggestion <> [] ->
  Extract.getReplaceableStrs camelCase suggestion langsPrefix translateTexts langObj targetStrs
  = Some st ->
  forall item, item ∈ Extract.replaceableStrs st -> Extract.needWrite item = false ->
    exists k, (k, text (Extract.target item)) ∈ langObj
              /\ Extract.key item = Obj.Str (Extract.replaceHyphens k).
Proof.
  intros Hs Hrun. destruct (getReplaceableStrs_memoInv _ _ _ _ _ _ _ Hs Hrun) as (_ & _ & _ & H).
  exact H.
Qed.

(** ** The joined fragments *)

Lemma splitOn_sep (c : N) (a b cur : jsstring) :
  Js.splitOn c (a ++ c :: b) cur = Js.splitOn c a cur ++ Js.splitOn c b [].
Proof.
  revert cur. induction a as [|x a IH]; intros cur; simpl.
  - now rewrite N.eqb_refl.
  - destruct (x =? c)%N; [now rewrite IH | apply IH].
Qed.

Lemma splitOn_notin (c : N) (a cur : jsstring) :
  c ∉ a -> Js.splitOn c a cur = [cur ++ a].
Proof.
  revert cur. induction a as [|x a IH]; intros cur Hc; simpl.
  - now rewrite app_nil_r.
  - apply not_elem_of_cons in Hc as [Hx Ha].
    destruct (N.eqb_spec x c); [congruence|].
    rewrite IH by assumption. now rewrite <- app_assoc.
Qed.

(** Parts without the separator are what [split] makes of their [join]. *)
Lemma split_join (c : N) (parts : list jsstring) :
  parts <> [] -> Forall (fun p => c ∉ p) parts ->
  Js.split (Js.join [c] parts) c = parts.
Proof.
  unfold Js.split. induction parts as [|p [|q rest] IH]; intros Hne Hall.
  - congruence.
  - simpl. apply splitOn_notin. now inversion Hall.
  - change (Js.join [c] (p :: q :: rest)) with (p ++ c :: Js.join [c] (q :: rest)).
    rewrite splitOn_sep. inversion Hall as [|? ? Hp Hrest]; subst.
    rewrite splitOn_notin by assumption. rewrite IH; [reflexivity | discriminate | assumption].
Qed.

Lemma getTransOriginText_keyChars (text : jsstring) (c : N) :
  c ∈ Extract.getTransOriginText text -> Extract.isKeyChar c = true.
Proof.
  rewrite getTransOriginText_take. intros H.
  apply (subseteq_take 5) in H. now apply list_elem_of_filter in H as [H _].
Qed.

(** X4. The joined text handed to the Pinyin or Baidu translator splits at
    the delimiter into the fragments of the literals, one for each literal
    and in their order, whatever the literals are: no fragment has a
    delimiter, and an empty fragment keeps its place. *)
Theorem batchTranslate_fragments_recoverable (targetStrs : list Span)
    (origin : Extract.Origin) :
  targetStrs <> [] ->
  origin <> Extract.Google ->
  exists joined c,
    Extract.delimiterOf origin = [c]
    /\ Extract.batchTranslate targetStrs origin
       = Extract.TranslateKeyText (Some joined) origin
    /\ Js.split joined c = Extract.fragments targetStrs
    /\ length (Js.split joined c) = length targetStrs.
Proof.
  intros Hne Horigin.
  assert (Hdelim : exists c, Extract.delimiterOf origin = [c]
                             /\ Extract.isKeyChar c = false).
  { destruct origin; [exists 36%N | congruence | exists 10%N]; split; reflexivity. }
  destruct Hdelim as (c & Hc & Hkey).
  exists (Js.join [c] (Extract.fragments targetStrs)), c.
  assert (Hsplit : Js.split (Js.join [c] (Extract.fragments targetStrs)) c
                   = Extract.fragments targetStrs).
  { apply split_join.
    - destruct targetStrs; [congruence | discriminate].
    - unfold Extract.fragments. apply Forall_forall. intros p Hp.
      apply list_elem_of_fmap in Hp as (x & -> & _). intros Hin.
      apply getTransOriginText_keyChars in Hin. congruence. }
  split; [exact Hc|]. split; [|split; [exact Hsplit|]].
  - rewrite batchTranslate_fragments, Hc.
    destruct origin; [|congruence|]; destruct targetStrs; congruence.
  - rewrite Hsplit. unfold Extract.fragments. apply length_map.
Qed.

(** ** The suggestion of a key prefix *)

Lemma spanOf_spec (p : N -> bool) (s taken rest : jsstring) :
  Extract.spanOf p s = (taken, rest) ->
  s = taken ++ rest /\ forallb p taken = true
  /\ match rest with [] => True | c :: _ => p c = false end.
Proof.
  revert taken rest. induction s as [|c s IH]; intros taken rest; simpl.
  - intros [= <- <-]. auto.
  - destruct (p c) eqn:Hc.
    + destruct (Extract.spanOf p s) as [a b]. intros [= <- <-].
      destruct (IH a b eq_refl) as (-> & Ha & Hb). simpl. rewrite Hc. auto.
    + intros [= <- <-]. simpl. auto.
Qed.

Lemma spanOf_app (p : N -> bool) (taken rest : jsstring) :
  forallb p taken = true ->
  match rest with [] => True | c :: _ => p c = false end ->
  Extract.spanOf p (taken ++ rest) = (taken, rest).
Proof.
  intros Ht Hr. induction taken as [|c taken IH]; simpl in *.
  - destruct rest as [|c rest]; [reflexivity|]. simpl. now rewrite Hr.
  - apply andb_true_iff in Ht as [Hc Ht]. rewrite Hc, IH by assumption. reflexivity.
Qed.

Lemma forallb_notin (c : N) (s : jsstring) :
  forallb (fun x => negb (x =? c)%N) s = true <-> c ∉ s.
Proof.
  induction s as [|x s IH]; simpl.
  - split; [intros _ H; inversion H | reflexivity].
  - rewrite andb_true_iff, IH, not_elem_of_cons.
    destruct (N.eqb_spec x c); simpl; intuition congruence.
Qed.

Lemma suggestPageAt_groups (s whole g1 g2 : jsstring) :
  Extract.suggestPageAt s = Some (whole, g1, g2) ->
  g1 <> [] /\ g2 <> [] /\ (47%N ∉ g1) /\ (47%N ∉ g2) /\ (46%N ∉ g2).
Proof.
  unfold Extract.suggestPageAt.
  destruct (Js.isPrefix (Js.lit "/pages/") s); [|discriminate].
  destruct (Extract.spanOf Extract.isWordChar (drop 7 s)) as [[|w0 w] [|c1 r1]];
    try discriminate.
  destruct (c1 =? 47)%N; [|discriminate].
  destruct (Extract.spanOf (fun c => negb (c =? 47)%N) r1) as [[|a0 a] [|c2 r2]] eqn:E1;
    try discriminate.
  destruct (c2 =? 47)%N; [|discriminate].
  destruct (Extract.spanOf (fun c => negb (c =? 47)%N && negb (c =? 46)%N) r2)
    as [[|b0 b] r3] eqn:E2; [discriminate|].
  intros [= _ <- <-].
  apply spanOf_spec in E1 as (_ & H1 & _). apply spanOf_spec in E2 as (_ & H2 & _).
  split; [discriminate|]. split; [discriminate|].
  split; [now apply forallb_notin|].
  rewrite forallb_forall in H2.
  split; apply forallb_notin, forallb_forall; intros x Hx;
    apply H2, andb_true_iff in Hx; tauto.
Qed.

Lemma suggestPageMatch_groups (s : jsstring) (l : list jsstring) :
  Extract.suggestPageMatch s = Some l ->
  exists whole g1 g2, l = [whole; g1; g2]
    /\ g1 <> [] /\ g2 <> [] /\ (47%N ∉ g1) /\ (47%N ∉ g2) /\ (46%N ∉ g2).
Proof.
  induction s as [|c s IH]; cbn [Extract.suggestPageMatch].
  - destruct (Extract.suggestPageAt []) as [[[whole g1] g2]|] eqn:E; [|discriminate].
    intros [= <-]. exists whole, g1, g2. split; [reflexivity|].
    eapply suggestPageAt_groups; eassumption.
  - destruct (Extract.suggestPageAt (c :: s)) as [[[whole g1] g2]|] eqn:E; [|exact IH].
    intros [= <-]. exists whole, g1, g2. split; [reflexivity|].
    eapply suggestPageAt_groups; eassumption.
Qed.

Lemma isPrefix_false_suggestPageAt (s : jsstring) :
  Js.isPrefix (Js.lit "/pages/") s = false -> Extract.suggestPageAt s = None.
Proof. unfold Extract.suggestPageAt. now intros ->. Qed.

Lemma find_None_suggestPageMatch (s : jsstring) :
  Js.find (Js.lit "/pages/") s = None -> Extract.suggestPageMatch s = None.
Proof.
  induction s as [|c s IH]; intros H.
  - reflexivity.
  - apply find_None_inv in H as [Hhere Hlater].
    cbn [Extract.suggestPageMatch]. rewrite isPrefix_false_suggestPageAt by assumption.
    now apply IH.
Qed.

(** The test [includes('/pages/')] changes nothing: [getSuggestion] gives
    the two groups of the first match of the pattern, and what the path
    gives when there is no match. *)
Lemma getSuggestion_cases (slash : jsstring -> jsstring) (currentFilename : jsstring) :
  Extract.getSuggestion slash currentFilename
  = match Extract.suggestPageMatch currentFilename with
    | Some l => Find.Ok (drop 1 l)
    | None => Extract.suggestFromPath slash currentFilename
    end.
Proof.
  unfold Extract.getSuggestion.
  destruct (Js.find (Js.lit "/pages/") currentFilename) as [i|] eqn:Hfind.
  - rewrite bool_decide_eq_true_2 by discriminate.
    destruct (Extract.suggestPageMatch currentFilename) as [l|] eqn:Hm; [|reflexivity].
    apply suggestPageMatch_groups in Hm as (whole & g1 & g2 & -> & _). reflexivity.
  - rewrite bool_decide_eq_false_2 by (intros H; now apply H).
    now rewrite find_None_suggestPageMatch.
Qed.

Lemma replaceHyphens_no_hyphen (s : jsstring) : 45%N ∉ Extract.replaceHyphens s.
Proof.
  unfold Extract.replaceHyphens. intros H. apply list_elem_of_fmap in H as (c & Hc & _).
  destruct (N.eqb_spec c 45); [discriminate | congruence].
Qed.

Lemma splitOn_length (c : N) (s cur : jsstring) :
  length (Js.splitOn c s cur) = S (length (filter (fun x => x = c) s)).
Proof.
  revert cur. induction s as [|x s IH]; intros cur; simpl; [reflexivity|].
  rewrite filter_cons. destruct (N.eqb_spec x c).
  - rewrite decide_True by assumption. simpl. now rewrite IH.
  - rewrite decide_False by assumption. apply IH.
Qed.

Lemma filter_eq_nil_notin (c : N) (s : jsstring) :
  filter (fun x => x = c) s = [] <-> c ∉ s.
Proof.
  induction s as [|x s IH]; simpl.
  - split; [intros _ H; inversion H | reflexivity].
  - rewrite filter_cons, not_elem_of_cons. destruct (decide (x = c)).
    + split; [discriminate | intros [? _]; congruence].
    + rewrite IH. intuition congruence.
Qed.

(** X5. [getSuggestion] gives one or two segments, never none; when the
    pattern of the pages matches nowhere they have no hyphen; and it
    throws exactly when the pattern matches nowhere and the path, as
    [slash] gives it, has no [/]. *)
Theorem getSuggestion_segments (slash : jsstring -> jsstring) (currentFilename : jsstring) :
  match Extract.getSuggestion slash currentFilename with
  | Find.Ok suggestion =>
      suggestion <> [] /\ (length suggestion <= 2)%nat
      /\ (Extract.suggestPageMatch currentFilename = None ->
          47%N ∈ slash currentFilename /\ Forall (fun segment => 45%N ∉ segment) suggestion)
  | Find.Thrown _ =>
      Extract.suggestPageMatch currentFilename = None /\ 47%N ∉ slash currentFilename
  end.
Proof.
  rewrite getSuggestion_cases.
  destruct (Extract.suggestPageMatch currentFilename) as [l|] eqn:Hm.
  - apply suggestPageMatch_groups in Hm as (whole & g1 & g2 & -> & _). cbn.
    split; [discriminate|]. split; [lia | discriminate].
  - unfold Extract.suggestFromPath.
    pose proof (splitOn_length 47 (slash currentFilename) []) as Hlen.
    fold (Js.split (slash currentFilename) 47) in Hlen.
    destruct (Nat.ltb_spec (length (Js.split (slash currentFilename) 47)) 2) as [Hlt|Hge].
    + split; [reflexivity|]. apply filter_eq_nil_notin.
      destruct (filter _ _); [reflexivity | simpl in Hlen; lia].
    + assert (Hin : 47%N ∈ slash currentFilename).
      { destruct (decide (47%N ∈ slash currentFilename)) as [|Hno]; [assumption|].
        apply filter_eq_nil_notin in Hno. rewrite Hno in Hlen. simpl in Hlen. lia. }
      destruct (Js.eqb _ _); (split; [discriminate|]); (split; [simpl; lia|]);
        intros _; (split; [exact Hin|]);
        repeat (apply List.Forall_cons; [apply replaceHyphens_no_hyphen|]); apply List.Forall_nil.
Qed.

Lemma last_app_two {A} (front : list A) (x y : A) : last (front ++ [x; y]) = Some y.
Proof. replace (front ++ [x; y]) with ((front ++ [x]) ++ [y]); [apply last_snoc|].
       now rewrite <- app_assoc. Qed.

(** X6. When the pattern of the pages matches nowhere, the suggestion is
    made of the last directory of the path and of the file name up to its
    first dot, hyphens replaced by underscores, and of one of them only
    when they are the same. *)
Theorem getSuggestion_from_path (slash : jsstring -> jsstring)
    (currentFilename pre dir stem ext : jsstring) :
  Extract.suggestPageMatch currentFilename = None ->
  slash currentFilename = pre ++ dir ++ [47%N] ++ stem ++ ext ->
  (pre = [] \/ exists pre0, pre = pre0 ++ [47%N]) ->
  47%N ∉ dir -> 47%N ∉ stem -> 46%N ∉ stem -> 47%N ∉ ext ->
  (ext = [] \/ exists e, ext = 46%N :: e) ->
  Extract.getSuggestion slash currentFilename
  = Find.Ok (if Js.eqb (Extract.replaceHyphens dir) (Extract.replaceHyphens stem)
             then [Extract.replaceHyphens dir]
             else [Extract.replaceHyphens dir; Extract.replaceHyphens stem]).
Proof.
  intros Hm Hpath Hpre Hdir Hstem Hdot Hext Hshape.
  rewrite getSuggestion_cases, Hm. unfold Extract.suggestFromPath.
  assert (Hfile : 47%N ∉ stem ++ ext).
  { intros H. apply elem_of_app in H as [?|?]; contradiction. }
  assert (Hnames : exists front,
            Js.split (slash currentFilename) 47 = front ++ [dir; stem ++ ext]).
  { rewrite Hpath. unfold Js.split. destruct Hpre as [->|(pre0 & ->)].
    - exists []. cbn [app]. rewrite splitOn_sep, !splitOn_notin by assumption. reflexivity.
    - exists (Js.splitOn 47 pre0 []). rewrite <- app_assoc. cbn [app].
      rewrite splitOn_sep. f_equal.
      rewrite splitOn_sep, !splitOn_notin by assumption. reflexivity. }
  destruct Hnames as (front & ->).
  rewrite last_app_two. cbn [from_option id].
  assert (Hhead : head (Js.split (stem ++ ext) 46) = Some stem).
  { unfold Js.split. destruct Hshape as [->|(e & ->)].
    - rewrite app_nil_r, splitOn_notin by assumption. reflexivity.
    - rewrite splitOn_sep, splitOn_notin by assumption. reflexivity. }
  rewrite Hhead. cbn [from_option id].
  rewrite length_app. cbn [length].
  destruct (Nat.ltb_spec (length front + 2) 2) as [?|_]; [lia|].
  replace (length front + 2 - 2)%nat with (length front + 0)%nat by lia.
  rewrite lookup_app_r, Nat.add_0_r, Nat.sub_diag by lia. cbn [lookup list_lookup from_option id].
  now destruct (Js.eqb _ _).
Qed.

Lemma find_Some_S (pat : jsstring) (c : N) (s : jsstring) (i : nat) :
  Js.find pat (c :: s) = Some (S i) ->
  Js.isPrefix pat (c :: s) = false /\ Js.find pat s = Some i.
Proof.
  cbn [Js.find]. destruct (Js.isPrefix pat (c :: s)); [discriminate|].
  destruct (Js.find pat s); [|discriminate]. cbn. intros [= ->]. auto.
Qed.

Lemma suggestPageMatch_skip (pre s : jsstring) :
  Js.find (Js.lit "/pages/") (pre ++ s) = Some (length pre) ->
  Extract.suggestPageMatch (pre ++ s) = Extract.suggestPageMatch s.
Proof.
  induction pre as [|c pre IH]; [reflexivity|]. cbn [app length]. intros H.
  apply find_Some_S in H as [Hhere Hlater].
  cbn [Extract.suggestPageMatch]. rewrite isPrefix_false_suggestPageAt by assumption.
  now apply IH.
Qed.

Lemma suggestPageMatch_here (s whole g1 g2 : jsstring) :
  Extract.suggestPageAt s = Some (whole, g1, g2) ->
  Extract.suggestPageMatch s = Some [whole; g1; g2].
Proof. intros H. destruct s; cbn [Extract.suggestPageMatch]; now rewrite H. Qed.

(** X7. Where the path has its first [/pages/], followed by a module
    directory, a second directory and a name, the suggestion is that
    second directory and the name up to its first dot or slash, hyphens
    and all. *)
Theorem getSuggestion_pages (slash : jsstring -> jsstring)
    (currentFilename pre module g1 g2 rest : jsstring) :
  currentFilename
  = pre ++ Js.lit "/pages/" ++ module ++ [47%N] ++ g1 ++ [47%N] ++ g2 ++ rest ->
  Js.find (Js.lit "/pages/") currentFilename = Some (length pre) ->
  module <> [] -> forallb Extract.isWordChar module = true ->
  g1 <> [] -> 47%N ∉ g1 ->
  g2 <> [] -> 47%N ∉ g2 -> 46%N ∉ g2 ->
  (rest = [] \/ exists c r, rest = c :: r /\ (c = 47%N \/ c = 46%N)) ->
  Extract.getSuggestion slash currentFilename = Find.Ok [g1; g2].
Proof.
  intros -> Hfind Hm Hword H1 H1s H2 H2s H2d Hrest.
  rewrite getSuggestion_cases, suggestPageMatch_skip by assumption.
  assert (Hat : Extract.suggestPageAt
                  (Js.lit "/pages/" ++ module ++ [47%N] ++ g1 ++ [47%N] ++ g2 ++ rest)
                = Some (Js.lit "/pages/" ++ module ++ Js.lit "/" ++ g1 ++ Js.lit "/" ++ g2,
                        g1, g2)).
  { unfold Extract.suggestPageAt. rewrite isPrefix_app.
    change (drop 7 (Js.lit "/pages/" ++ ?x)) with x.
    rewrite spanOf_app; [|assumption|reflexivity].
    destruct module as [|m0 module]; [congruence|]. cbn [app].
    rewrite N.eqb_refl.
    rewrite spanOf_app; [|now apply forallb_notin|reflexivity].
    destruct g1 as [|a0 g1]; [congruence|]. cbn [app]. rewrite N.eqb_refl.
    rewrite spanOf_app.
    - destruct g2; [congruence | reflexivity].
    - apply forallb_forall. intros x Hx. apply andb_true_iff. split; apply negb_true_iff;
        apply N.eqb_neq; intros ->; apply list_elem_of_In in Hx; contradiction.
    - destruct Hrest as [->|(c & r & -> & [->| ->])]; [exact I | reflexivity..]. }
  now rewrite (suggestPageMatch_here _ _ _ _ Hat).
Qed.

(** ** The interpolations of a component file *)

Lemma scanBack_spec (code : jsstring) (start : Z) (k : nat) (fc : bool) (cp : Z) :
  Z.of_nat k <= start ->
  (fc = true -> Z.of_nat k <= cp + 1 /\ cp + 2 <= start) ->
  match Replace.scanBack code k fc cp with
  | (fo, op, fc', cp') =>
      (fc = true -> fc' = true)
      /\ (fc = false -> Replace.openBeforeClose code k = fo && negb fc')
      /\ (fo = true ->
          0 <= op /\ op + 2 <= Z.of_nat k
          /\ Js.charIs code op 123 = true /\ Js.charIs code (op + 1) 123 = true)
      /\ (fc' = true -> cp' + 2 <= start /\ (fo = true -> op < cp'))
  end.
Proof.
  revert fc cp. induction k as [|k IH]; intros fc cp Hk Hfc.
  - cbn. split; [tauto|]. split; [reflexivity|]. split; [discriminate|].
    intros ->. destruct (Hfc eq_refl). split; [lia | discriminate].
  - cbn [Replace.scanBack Replace.openBeforeClose].
    destruct ((0 <? Z.of_nat k) && Js.charIs code (Z.of_nat k - 1) 123
              && Js.charIs code (Z.of_nat k) 123) eqn:Hopen.
    + apply andb_true_iff in Hopen as [Hopen H2]. apply andb_true_iff in Hopen as [H0 H1].
      apply Z.ltb_lt in H0.
      split; [tauto|]. split; [now intros ->|]. split.
      * intros _. split; [lia|]. split; [lia|]. split; [exact H1|].
        now replace (Z.of_nat k - 1 + 1) with (Z.of_nat k) by lia.
      * intros ->. destruct (Hfc eq_refl). split; [lia | intros _; lia].
    + destruct ((0 <? Z.of_nat k) && Js.charIs code (Z.of_nat k - 1) 125
                && Js.charIs code (Z.of_nat k) 125) eqn:Hclose.
      * specialize (IH true (Z.of_nat k - 1)).
        destruct (Replace.scanBack code k true (Z.of_nat k - 1)) as [[[fo op] fc'] cp'].
        destruct IH as (Htrue & _ & Hop & Hcp); [lia | intros _; lia |].
        rewrite (Htrue eq_refl) in *.
        split; [tauto|]. split; [intros _; now rewrite andb_false_r|]. split.
        -- intros H. destruct (Hop H) as (? & ? & ? & ?). repeat split; try assumption; lia.
        -- exact Hcp.
      * specialize (IH fc cp).
        destruct (Replace.scanBack code k fc cp) as [[[fo op] fc'] cp'].
        destruct IH as (Htrue & Hspec & Hop & Hcp); [lia | intros H; specialize (Hfc H); lia |].
        split; [exact Htrue|]. split; [exact Hspec|]. split.
        -- intros H. destruct (Hop H) as (? & ? & ? & ?). repeat split; try assumption; lia.
        -- exact Hcp.
Qed.

(** X8. [isInVueInterpolation] answers as its comments say, and by nothing
    else: going back from [start - 1], it says yes exactly when it meets a
    [{{] before any [}}].  The comparison of [start] with the two positions
    it has found never changes the answer. *)
Theorem isInVueInterpolation_nearest (code : jsstring) (start : Z) :
  Replace.isInVueInterpolation code start
  = Replace.openBeforeClose code (Z.to_nat start).
Proof.
  unfold Replace.isInVueInterpolation.
  destruct (Z.le_gt_cases start 0) as [Hneg|Hpos].
  { replace (Z.to_nat start) with 0%nat by lia. reflexivity. }
  pose proof (scanBack_spec code start (Z.to_nat start) false (-1)) as H.
  destruct (Replace.scanBack code (Z.to_nat start) false (-1)) as [[[fo op] fc'] cp'].
  destruct H as (_ & Hspec & Hop & Hcp); [lia | discriminate |].
  rewrite (Hspec eq_refl). destruct fo; [|reflexivity].
  destruct fc'; [|reflexivity]. destruct (Hcp eq_refl) as (Hle & Hlt).
  specialize (Hlt eq_refl). cbn.
  destruct (Z.ltb_spec op cp'); [|lia].
  destruct (Z.ltb_spec start (cp' + 2)); [lia|]. now rewrite andb_false_r.
Qed.

Lemma findLast_bounds (pat s : jsstring) (pos bound j : nat) :
  Js.findLast pat s pos bound = Some j -> (pos <= j <= bound)%nat.
Proof.
  revert pos. induction s as [|c s IH]; intros pos; cbn [Js.findLast].
  - destruct (Js.isPrefix pat [] && (pos <=? bound)%nat) eqn:E; [|discriminate].
    intros [= <-]. apply andb_true_iff in E as [_ E]. apply Nat.leb_le in E. lia.
  - destruct (Js.findLast pat s (S pos) bound) as [j'|] eqn:Hlater.
    + intros [= <-]. apply IH in Hlater. lia.
    + destruct (Js.isPrefix pat (c :: s) && (pos <=? bound)%nat) eqn:E; [|discriminate].
      intros [= <-]. apply andb_true_iff in E as [_ E]. apply Nat.leb_le in E. lia.
Qed.

Lemma findLast_found (pat s : jsstring) (pos bound i : nat) :
  Js.isPrefix pat (drop i s) = true -> (i <= length s)%nat -> (pos + i <= bound)%nat ->
  exists j, Js.findLast pat s pos bound = Some j /\ (pos + i <= j)%nat.
Proof.
  revert pos i. induction s as [|c s IH]; intros pos i Hpre Hlen Hbound.
  - cbn in Hlen. assert (i = 0%nat) as -> by lia. cbn in Hpre. cbn [Js.findLast].
    rewrite Hpre. destruct (Nat.leb_spec pos bound); [|lia]. exists pos. split; [reflexivity | lia].
  - cbn [Js.findLast]. destruct i as [|i].
    + cbn in Hpre. destruct (Js.findLast pat s (S pos) bound) as [j|] eqn:Hlater.
      * exists j. split; [reflexivity|]. apply findLast_bounds in Hlater. lia.
      * cbn [drop] in Hpre. rewrite Hpre. destruct (Nat.leb_spec pos bound); [|lia].
        exists pos. split; [reflexivity | lia].
    + cbn in Hpre, Hlen. destruct (IH (S pos) i Hpre) as (j & -> & Hj); [lia..|].
      exists j. split; [reflexivity | lia].
Qed.

Lemma charIs_lookup (s : jsstring) (i : Z) (c : N) :
  Js.charIs s i c = true -> 0 <= i /\ s !! Z.to_nat i = Some c.
Proof.
  unfold Js.charIs. intros H. apply andb_true_iff in H as [H0 H1].
  apply Z.leb_le in H0. now apply bool_decide_eq_true in H1.
Qed.

Lemma lastIndexOf_open (code : jsstring) (op start : Z) :
  Js.charIs code op 123 = true -> Js.charIs code (op + 1) 123 = true -> op <= start ->
  op <= Js.lastIndexOf code (Js.lit "{{") start <= start.
Proof.
  intros H1 H2 Hle. apply charIs_lookup in H1 as [H0 H1]. apply charIs_lookup in H2 as [_ H2].
  replace (Z.to_nat (op + 1)) with (S (Z.to_nat op)) in H2 by lia.
  assert (Hpre : Js.isPrefix (Js.lit "{{") (drop (Z.to_nat op) code) = true).
  { rewrite (drop_S _ _ _ H1), (drop_S _ _ _ H2). reflexivity. }
  unfold Js.lastIndexOf.
  destruct (findLast_found (Js.lit "{{") code 0 (Z.to_nat (Z.max start 0)) (Z.to_nat op) Hpre)
    as (j & Hj & Hge).
  - apply lookup_lt_Some in H1. lia.
  - lia.
  - rewrite Hj. apply findLast_bounds in Hj. lia.
Qed.

Lemma indexOfFrom_bounds (s pat : jsstring) (from : Z) :
  pat <> [] -> Js.indexOfFrom s pat from <> -1 -> from <= Js.indexOfFrom s pat from.
Proof.
  intros Hpat. unfold Js.indexOfFrom, Js.clamp.
  destruct (Z.ltb_spec (Z.max from 0) 0) as [?|_]; [lia|].
  set (k := Z.to_nat (Z.min (Z.max from 0) (Z.of_nat (length s)))).
  destruct (Js.find pat (drop k s)) as [i|] eqn:Hfind; [|congruence]. intros _.
  destruct (Z.le_gt_cases from (Z.of_nat (length s))) as [Hin|Hout]; [lia|].
  exfalso. assert (drop k s = []) as Hnil by (apply drop_ge; lia).
  rewrite Hnil in Hfind. destruct pat; [congruence | discriminate].
Qed.

(** X9. In a component file, a string literal that [isInVueInterpolation]
    places inside [{{ }}] is not replaced by itself when a [}}] follows it:
    everything from behind the nearest [{{] at or before its start up to
    the first [}}] at or after its end is replaced by the key, so what
    stands beside the literal between the braces is dropped.  Of the tests
    that guard this branch only the one for the [}}] can fail. *)
Theorem replaceAndUpdate_in_interpolation (srcLangDir fileType : jsstring)
    (lib : Replace.Libraries) (w : Replace.World)
    (filePath : jsstring) (arg : Span) (val : jsstring) (validateDuplicate needWrite : bool) :
  isString arg = true ->
  Js.endsWith filePath (Js.lit ".vue") = true ->
  Replace.isInVueInterpolation (Replace.readFile w filePath) (start (range arg)) = true ->
  let code := Replace.readFile w filePath in
  let openPos := Js.lastIndexOf code (Js.lit "{{") (start (range arg)) in
  let closePos := Js.indexOfFrom code (Js.lit "}}") (end_ (range arg)) in
  let finalReplaceText :=
    if Replace.isTemplateString code (start (range arg))
    then snd (Replace.handleTemplateString (text arg) val) else text arg in
  0 <= openPos <= start (range arg)
  /\ (closePos <> -1 -> end_ (range arg) <= closePos)
  /\ Replace.replaceAndUpdate srcLangDir fileType lib w filePath arg val validateDuplicate needWrite
     = Replace.writeUpdatedFile srcLangDir fileType lib w filePath
         (if closePos =? -1
          then Js.slice code 0 (start (range arg)) ++ Replace.replacementOf code filePath arg val
               ++ Js.sliceFrom code (end_ (range arg))
          else Js.slice code 0 (openPos + 2) ++ Replace.replacementOf code filePath arg val
               ++ Js.sliceFrom code closePos)
         val finalReplaceText validateDuplicate needWrite.
Proof.
  intros Hstr Hvue Hin code openPos closePos finalReplaceText.
  assert (Hopen : 0 <= openPos <= start (range arg)).
  { subst openPos. unfold Replace.isInVueInterpolation in Hin. fold code in Hin.
    destruct (Z.le_gt_cases (start (range arg)) 0) as [Hneg|Hpos].
    { replace (Z.to_nat (start (range arg))) with 0%nat in Hin by lia. discriminate. }
    pose proof (scanBack_spec code (start (range arg)) (Z.to_nat (start (range arg)))
                  false (-1)) as H.
    destruct (Replace.scanBack code (Z.to_nat (start (range arg))) false (-1))
      as [[[fo op] fc'] cp'].
    destruct H as (_ & _ & Hop & _); [lia | discriminate |].
    destruct fo; [|discriminate]. destruct (Hop eq_refl) as (H0 & H2 & Hc1 & Hc2).
    pose proof (lastIndexOf_open code op (start (range arg)) Hc1 Hc2). lia. }
  assert (Hclose : closePos <> -1 -> end_ (range arg) <= closePos).
  { subst closePos. apply indexOfFrom_bounds. discriminate. }
  split; [exact Hopen|]. split; [exact Hclose|].
  unfold Replace.replaceAndUpdate, Replace.replacementOf.
  fold code in Hin |- *. rewrite Hstr, Hvue. fold openPos closePos. rewrite Hin.
  subst finalReplaceText.
  assert (Hguard : true && true && negb (openPos =? -1) && negb (closePos =? -1)
                   && (openPos <=? start (range arg)) && (end_ (range arg) <=? closePos + 2)
                   = negb (closePos =? -1)).
  { destruct (Z.eqb_spec openPos (-1)); [lia|].
    destruct (Z.leb_spec openPos (start (range arg))); [|lia].
    destruct (Z.eqb_spec closePos (-1)); [reflexivity|].
    specialize (Hclose ltac:(assumption)).
    destruct (Z.leb_spec (end_ (range arg)) (closePos + 2)); [reflexivity | lia]. }
  destruct (Replace.isTemplateString code (start (range arg))).
  - destruct (Replace.handleTemplateString (text arg) val) as [v t]. cbn [fst snd].
    rewrite Hguard. now destruct (closePos =? -1).
  - rewrite Hguard.
    assert (Hv : Replace.generateReplaceValue val (Js.endsWith filePath (Js.lit ".html")) true
                   (Replace.isPropertyAssignment code (start (range arg))) false true
                 = Replace.generateReplaceValue val (Js.endsWith filePath (Js.lit ".html")) true
                   (Replace.isPropertyAssignment code (start (range arg))) false false).
    { unfold Replace.generateReplaceValue. now destruct (Replace.isPropertyAssignment _ _). }
    now destruct (closePos =? -1).
Qed.

(** ** The language files *)

Lemma join_cons_ne (sep p : jsstring) (rest : list jsstring) :
  rest <> [] -> Js.join sep (p :: rest) = p ++ sep ++ Js.join sep rest.
Proof. destruct rest; [congruence | reflexivity]. Qed.

Lemma join_splitOn (c : N) (s cur : jsstring) :
  Js.join [c] (Js.splitOn c s cur) = cur ++ s.
Proof.
  revert cur. induction s as [|x s IH]; intros cur; cbn [Js.splitOn].
  - cbn. now rewrite app_nil_r.
  - destruct (N.eqb_spec x c) as [->|Hne].
    + rewrite join_cons_ne by apply splitOn_nonempty. now rewrite IH.
    + rewrite IH, <- app_assoc. reflexivity.
Qed.

(** X10. A key [I18N.<file>.<path>], for a file name without a dot other
    than [index], touches in the language directory only the language
    file [<file>] and, when that file is new, the aggregator.  A new
    language file is the printed object [_.set] makes of the empty object,
    the path [<path>], dots and all, and the text as given, and the
    aggregator is written with the file added to it.  An existing one is
    the printed object [_.set] makes of the object the file exported, the
    path and the text with each backslash-n turned into a line feed, and
    the aggregator stays as it is; the call throws, and writes nothing,
    exactly when the duplicate check is asked for and [_.get] finds a value
    at the path.  No other file of the directory and no source file
    changes. *)
Theorem updateLangFiles_stores (srcLangDir fileType : jsstring)
    (lib : Replace.Libraries) (w : Replace.World)
    (filename path text : jsstring) (validateDuplicate : bool) :
  46%N ∉ filename ->
  filename <> Js.lit "index" ->
  let keyValue := Js.lit "I18N." ++ filename ++ Js.lit "." ++ path in
  let targetFilename := srcLangDir ++ Js.lit "/" ++ filename ++ Js.lit "." ++ fileType in
  let mainLangFilePath := Replace.mainLangFilePath srcLangDir fileType in
  match Obj.get (Replace.langFiles w) targetFilename with
  | None =>
      exists w',
        Replace.updateLangFiles srcLangDir fileType lib w keyValue text validateDuplicate
        = Find.Ok w'
        /\ Obj.get (Replace.langFiles w') targetFilename
           = Some (Replace.exportDefault lib
                     (Replace.lodashSet lib (Find.JObject []) path text))
        /\ Obj.get (Replace.langFiles w') mainLangFilePath
           = Some (Replace.addImportToMainLangFile
                     (Obj.get (Replace.langFiles w) mainLangFilePath) filename)
        /\ (forall other, other <> targetFilename -> other <> mainLangFilePath ->
              Obj.get (Replace.langFiles w') other = Obj.get (Replace.langFiles w) other)
        /\ Replace.sources w' = Replace.sources w
  | Some content =>
      let obj := Replace.getLangData lib content in
      match Replace.lodashGet lib obj path with
      | Some _ =>
          validateDuplicate = true
          /\ Replace.updateLangFiles srcLangDir fileType lib w keyValue text validateDuplicate
             = Find.Thrown (Js.lit "duplicate")
          \/ validateDuplicate = false
             /\ exists w',
                  Replace.updateLangFiles srcLangDir fileType lib w keyValue text
                    validateDuplicate = Find.Ok w'
                  /\ Obj.get (Replace.langFiles w') targetFilename
                     = Some (Replace.exportDefault lib
                               (Replace.lodashSet lib obj path
                                  (Replace.unescapeNewlines text)))
                  /\ (forall other, other <> targetFilename ->
                        Obj.get (Replace.langFiles w') other
                        = Obj.get (Replace.langFiles w) other)
                  /\ Replace.sources w' = Replace.sources w
      | None =>
          exists w',
            Replace.updateLangFiles srcLangDir fileType lib w keyValue text validateDuplicate
            = Find.Ok w'
            /\ Obj.get (Replace.langFiles w') targetFilename
               = Some (Replace.exportDefault lib
                         (Replace.lodashSet lib obj path (Replace.unescapeNewlines text)))
            /\ (forall other, other <> targetFilename ->
                  Obj.get (Replace.langFiles w') other = Obj.get (Replace.langFiles w) other)
            /\ Replace.sources w' = Replace.sources w
      end
  end.
Proof.
  intros Hdot Hindex keyValue targetFilename mainLangFilePath.
  assert (Hsplit : Js.split keyValue 46 = Js.lit "I18N" :: filename :: Js.split path 46).
  { subst keyValue. unfold Js.split.
    change (Js.lit "I18N." ++ filename ++ Js.lit "." ++ path)
      with (Js.lit "I18N" ++ 46%N :: (filename ++ 46%N :: path)).
    rewrite splitOn_sep. rewrite (splitOn_notin 46 (Js.lit "I18N")).
    - rewrite splitOn_sep, splitOn_notin by assumption. reflexivity.
    - intros H. repeat (apply elem_of_cons in H as [H|H]; [discriminate|]). inversion H. }
  assert (Hmain : targetFilename <> mainLangFilePath).
  { subst targetFilename mainLangFilePath. unfold Replace.mainLangFilePath. intros Heq.
    apply app_inv_head in Heq.
    assert (Heq' : [47%N] ++ filename ++ (Js.lit "." ++ fileType)
                   = [47%N] ++ Js.lit "index" ++ (Js.lit "." ++ fileType)) by exact Heq.
    apply app_inv_head in Heq'. now apply app_inv_tail in Heq'. }
  unfold Replace.updateLangFiles. unfold Js.startsWith.
  subst keyValue. rewrite isPrefix_app. cbn [negb]. rewrite Hsplit.
  replace (Js.join (Js.lit ".") (Js.split path 46)) with path
    by (symmetry; apply (join_splitOn 46 path [])).
  fold targetFilename.
  destruct (Obj.get (Replace.langFiles w) targetFilename) as [content|] eqn:Hfile.
  - unfold Replace.updateExistingLangFile. rewrite Hfile. cbn [from_option id].
    destruct (Replace.lodashGet lib (Replace.getLangData lib content) path) as [bound|].
    + destruct validateDuplicate; cbn [andb]; [now left | right].
      split; [reflexivity|]. eexists. split; [reflexivity|]. cbn.
      split; [apply get_set_eq|].
      split; [intros other Hne; apply get_set_ne; congruence | reflexivity].
    + rewrite andb_false_r. eexists. split; [reflexivity|]. cbn.
      split; [apply get_set_eq|].
      split; [intros other Hne; apply get_set_ne; congruence | reflexivity].
  - eexists. split; [reflexivity|].
    cbn [Replace.writeMainLangFile Replace.langFiles Replace.sources].
    fold mainLangFilePath. split; [|split; [|split]].
    + rewrite get_set_ne by congruence. apply get_set_eq.
    + rewrite get_set_eq, get_set_ne by exact Hmain. reflexivity.
    + intros other H1 H2. rewrite !get_set_ne by congruence. reflexivity.
    + reflexivity.
Qed.

(** ** Replacing from the end of the file *)

Lemma slice_0_take (s : jsstring) (n : Z) :
  0 <= n -> Js.slice s 0 n = take (Z.to_nat n) s.
Proof. intros Hn. rewrite <- (slice_0 s (Z.to_nat n)). f_equal. lia. Qed.

Lemma sliceFrom_drop (s : jsstring) (n : Z) :
  0 <= n -> Js.sliceFrom s n = drop (Z.to_nat n) s.
Proof.
  intros Hn. unfold Js.sliceFrom, Js.slice, Js.clamp.
  destruct (Z.ltb_spec n 0) as [?|_]; [lia|].
  destruct (Z.ltb_spec (Z.of_nat (length s)) 0) as [?|_]; [lia|].
  rewrite Z.min_id.
  destruct (Z.le_gt_cases n (Z.of_nat (length s))) as [Hle|Hgt].
  - rewrite Z.min_l by lia. apply take_ge. rewrite length_drop. lia.
  - rewrite Z.min_r by lia. rewrite Nat2Z.id, !drop_ge by lia. apply take_nil.
Qed.

Lemma take_1_drop (s : jsstring) (n : nat) :
  take 1 (drop n s) = match s !! n with Some c => [c] | None => [] end.
Proof.
  revert n. induction s as [|x s IH]; intros [|n]; cbn; try reflexivity. apply IH.
Qed.

Lemma scanBack_ext (c1 c2 : jsstring) (k : nat) (fc : bool) (cp : Z) :
  (forall i, (i < k)%nat -> c1 !! i = c2 !! i) ->
  Replace.scanBack c1 k fc cp = Replace.scanBack c2 k fc cp.
Proof.
  revert fc cp. induction k as [|k IH]; intros fc cp Hext; [reflexivity|].
  cbn [Replace.scanBack].
  assert (Hhere : forall ch, Js.charIs c1 (Z.of_nat k) ch = Js.charIs c2 (Z.of_nat k) ch).
  { intros ch. unfold Js.charIs. rewrite Nat2Z.id, Hext by lia. reflexivity. }
  assert (Hprev : forall ch, (0 <? Z.of_nat k) && Js.charIs c1 (Z.of_nat k - 1) ch
                             = (0 <? Z.of_nat k) && Js.charIs c2 (Z.of_nat k - 1) ch).
  { intros ch. destruct (Z.ltb_spec 0 (Z.of_nat k)); [|reflexivity]. cbn.
    unfold Js.charIs. rewrite Hext by lia. reflexivity. }
  rewrite !Hprev, !Hhere, !IH by (intros i Hi; apply Hext; lia). reflexivity.
Qed.

Lemma take_lookup_agree (c1 c2 : jsstring) (p : nat) :
  take p c1 = take p c2 -> forall i, (i < p)%nat -> c1 !! i = c2 !! i.
Proof.
  intros H i Hi. rewrite <- (lookup_take_lt c1 p i), <- (lookup_take_lt c2 p i) by lia.
  now rewrite H.
Qed.

Lemma isInVueInterpolation_prefix (c1 c2 : jsstring) (p : Z) :
  take (Z.to_nat p) c1 = take (Z.to_nat p) c2 ->
  Replace.isInVueInterpolation c1 p = Replace.isInVueInterpolation c2 p.
Proof.
  intros H. unfold Replace.isInVueInterpolation.
  rewrite (scanBack_ext c1 c2); [reflexivity|]. now apply take_lookup_agree.
Qed.

Lemma slice_before (c : jsstring) (p : Z) :
  1 <= p <= Z.of_nat (length c) ->
  Js.slice c (p - 1) p = match c !! Z.to_nat (p - 1) with Some x => [x] | None => [] end.
Proof.
  intros Hp. unfold Js.slice, Js.clamp.
  destruct (Z.ltb_spec (p - 1) 0) as [?|_]; [lia|].
  destruct (Z.ltb_spec p 0) as [?|_]; [lia|].
  rewrite !Z.min_l by lia. replace (Z.to_nat (p - (p - 1))) with 1%nat by lia.
  apply take_1_drop.
Qed.

Lemma slice_around (c : jsstring) (p : Z) :
  1 <= p <= Z.of_nat (length c) ->
  head (Js.slice c (p - 1) (p + 1)) = c !! Z.to_nat (p - 1).
Proof.
  intros Hp. unfold Js.slice, Js.clamp.
  destruct (Z.ltb_spec (p - 1) 0) as [?|_]; [lia|].
  destruct (Z.ltb_spec (p + 1) 0) as [?|_]; [lia|].
  rewrite (Z.min_l (p - 1)) by lia.
  assert (exists n, Z.to_nat (Z.min (p + 1) (Z.of_nat (length c)) - (p - 1)) = S n)
    as [n ->] by (exists (Z.to_nat (Z.min (p + 1) (Z.of_nat (length c)) - (p - 1)) - 1)%nat; lia).
  destruct (c !! Z.to_nat (p - 1)) as [x|] eqn:Hx.
  - rewrite (drop_S _ _ _ Hx). reflexivity.
  - apply lookup_ge_None in Hx. lia.
Qed.

Lemma slice_at_start (c : jsstring) (b : Z) :
  (b = 0 \/ (b = 1 /\ (2 <= length c)%nat)) -> Js.slice c (-1) b = [].
Proof.
  intros Hb. unfold Js.slice, Js.clamp. cbn [Z.ltb Z.compare].
  destruct (Z.ltb_spec b 0) as [?|_]; [lia|].
  match goal with |- take ?n _ = _ => replace n with 0%nat by lia end. reflexivity.
Qed.

Lemma isTemplateString_prefix (c1 c2 : jsstring) (p : Z) :
  0 <= p <= Z.of_nat (length c1) -> p <= Z.of_nat (length c2) ->
  take (Z.to_nat p) c1 = take (Z.to_nat p) c2 ->
  Replace.isTemplateString c1 p = Replace.isTemplateString c2 p.
Proof.
  intros H1 H2 Hpre. unfold Replace.isTemplateString.
  destruct (decide (p = 0)) as [->|Hp].
  - cbn [Z.sub Z.add Z.opp]. now rewrite !slice_at_start by auto.
  - rewrite !slice_before by lia.
    rewrite (take_lookup_agree _ _ _ Hpre) by lia. reflexivity.
Qed.

Lemma isPropertyAssignment_prefix (c1 c2 : jsstring) (p : Z) :
  0 <= p <= Z.of_nat (length c1) -> p <= Z.of_nat (length c2) ->
  (p = 0 -> (2 <= length c1)%nat /\ (2 <= length c2)%nat) ->
  take (Z.to_nat p) c1 = take (Z.to_nat p) c2 ->
  Replace.isPropertyAssignment c1 p = Replace.isPropertyAssignment c2 p.
Proof.
  intros H1 H2 H0 Hpre. unfold Replace.isPropertyAssignment.
  destruct (decide (p = 0)) as [->|Hp].
  - destruct (H0 eq_refl). cbn [Z.sub Z.add Z.opp Z.pos_sub].
    now rewrite !slice_at_start by auto.
  - pose proof (slice_around c1 p ltac:(lia)) as Ha.
    pose proof (slice_around c2 p ltac:(lia)) as Hb.
    rewrite (take_lookup_agree _ _ _ Hpre) in Ha by lia. rewrite <- Hb in Ha.
    destruct (Js.slice c1 (p - 1) (p + 1)), (Js.slice c2 (p - 1) (p + 1));
      cbn in Ha; congruence.
Qed.

Lemma handleTemplateString_nonempty (text val : jsstring) :
  val <> [] -> fst (Replace.handleTemplateString text val) <> [].
Proof.
  intros Hval. unfold Replace.handleTemplateString.
  destruct (Replace.matchVars text); [discriminate | exact Hval].
Qed.

Lemma replacementOf_nonempty (code filePath : jsstring) (arg : Span) (val : jsstring) :
  val <> [] -> Replace.replacementOf code filePath arg val <> [].
Proof.
  intros Hval. unfold Replace.replacementOf, Replace.generateReplaceValue.
  repeat match goal with
         | |- context [if ?b then _ else _] => destruct b
         end; try discriminate; try exact Hval.
  now apply handleTemplateString_nonempty.
Qed.

Lemma replacementOf_prefix (c1 c2 filePath : jsstring) (arg : Span) (val : jsstring) :
  0 <= start (range arg) <= Z.of_nat (length c1) ->
  start (range arg) <= Z.of_nat (length c2) ->
  (start (range arg) = 0 -> (2 <= length c1)%nat /\ (2 <= length c2)%nat) ->
  take (Z.to_nat (start (range arg))) c1 = take (Z.to_nat (start (range arg))) c2 ->
  Replace.replacementOf c1 filePath arg val = Replace.replacementOf c2 filePath arg val.
Proof.
  intros H1 H2 H0 Hpre. unfold Replace.replacementOf.
  rewrite (isTemplateString_prefix c1 c2), (isPropertyAssignment_prefix c1 c2),
    (isInVueInterpolation_prefix c1 c2) by assumption.
  reflexivity.
Qed.

Lemma readFile_writeFile (w : Replace.World) (filePath content : jsstring) :
  Replace.readFile (Replace.writeFile w filePath content) filePath = content.
Proof. unfold Replace.readFile, Replace.writeFile. cbn. now rewrite get_set_eq. Qed.

Lemma writeUpdatedFile_unchecked (srcLangDir fileType : jsstring)
    (lib : Replace.Libraries) (w : Replace.World)
    (filePath newCode val finalReplaceText : jsstring) (needWrite : bool) :
  exists w',
    Replace.writeUpdatedFile srcLangDir fileType lib w filePath newCode val finalReplaceText
      false needWrite = (w', Replace.Resolved)
    /\ Replace.readFile w' filePath = newCode.
Proof.
  unfold Replace.writeUpdatedFile. destruct needWrite.
  - destruct (Replace.updateLangFiles srcLangDir fileType lib w val finalReplaceText false)
      as [w1|message] eqn:E.
    + eexists. split; [reflexivity | apply readFile_writeFile].
    + apply updateLangFiles_thrown in E. discriminate.
  - eexists. split; [reflexivity | apply readFile_writeFile].
Qed.

(** Outside the interpolations of a component file, and without the
    duplicate check, the replacement of a literal always resolves, and the
    file then holds its old text with the range of the literal replaced. *)
Lemma replaceAndUpdate_splice (srcLangDir fileType : jsstring)
    (lib : Replace.Libraries) (w : Replace.World)
    (filePath : jsstring) (arg : Span) (val : jsstring) (needWrite : bool) :
  Js.endsWith filePath (Js.lit ".vue") && isString arg
  && Replace.isInVueInterpolation (Replace.readFile w filePath) (start (range arg)) = false ->
  exists w',
    Replace.replaceAndUpdate srcLangDir fileType lib w filePath arg val false needWrite
    = (w', Replace.Resolved)
    /\ Replace.readFile w' filePath
       = Js.slice (Replace.readFile w filePath) 0 (start (range arg))
         ++ Replace.replacementOf (Replace.readFile w filePath) filePath arg val
         ++ Js.sliceFrom (Replace.readFile w filePath) (end_ (range arg)).
Proof.
  intros Hout. unfold Replace.replaceAndUpdate, Replace.replacementOf.
  set (code := Replace.readFile w filePath) in *.
  destruct (isString arg) eqn:Hstr.
  - rewrite andb_true_r in Hout.
    assert (Hguard : forall a b c d,
              Js.endsWith filePath (Js.lit ".vue")
              && Replace.isInVueInterpolation code (start (range arg)) && a && b && c && d
              = false) by (intros; now rewrite Hout).
    destruct (Replace.isTemplateString code (start (range arg))).
    + destruct (Replace.handleTemplateString (text arg) val) as [v t]. rewrite Hguard.
      apply writeUpdatedFile_unchecked.
    + rewrite Hguard. apply writeUpdatedFile_unchecked.
  - unfold Replace.generateNonStringReplacement.
    destruct (Js.endsWith filePath (Js.lit ".html") || Js.endsWith filePath (Js.lit ".vue"));
      match goal with
      | |- exists w', Replace.writeUpdatedFile _ _ _ _ _ ?newCode _ _ _ _ = _ /\ _ =>
          destruct (writeUpdatedFile_unchecked srcLangDir fileType lib w filePath newCode val
                      (text arg) needWrite) as (w' & Hw & Hr);
          exists w'; split; [exact Hw|]; rewrite Hr; now rewrite <- !app_assoc
      end.
Qed.

Lemma spliceAll_prefix (prefix tail : jsstring) (edits : list (Range * jsstring)) :
  Forall (fun edit => 0 <= start (fst edit)
                      /\ 0 <= end_ (fst edit) <= Z.of_nat (length prefix)
                      /\ start (fst edit) <= Z.of_nat (length prefix)) edits ->
  Replace.spliceAll (prefix ++ tail) edits = Replace.spliceAll prefix edits ++ tail.
Proof.
  destruct edits as [|[r v] rest]; intros Hall; [reflexivity|].
  inversion Hall as [|? ? (Hs & He & Hs') _]; subst. cbn in Hs, He, Hs'.
  cbn [Replace.spliceAll]. rewrite !slice_0_take, !sliceFrom_drop by lia.
  rewrite take_app_le, drop_app_le by lia. now rewrite <- !app_assoc.
Qed.

Section ReverseOrder.

Variable srcLangDir fileType importI18N : jsstring.
Variable topLevel : jsstring -> list Replace.TopNode.
Variable getStart : jsstring -> Z.
Variable lib : Replace.Libraries.
Variable currentFilename : jsstring.

(** The ranges with the texts that replace them, as the code [code] makes
    them. *)
Local Abbreviation edits code items :=
  (map (fun obj : Extract.ReplaceItem =>
          (range (Extract.target obj),
           Replace.replacementOf code currentFilename (Extract.target obj)
             (Js.lit "I18N." ++ Obj.toText (Extract.key obj)))) items).

(** What the entries of a file have to be like: ranges that are not empty
    and lie in the code, no string literal inside an interpolation of a
    component file. *)
Local Abbreviation fits code items :=
  (Forall (fun obj : Extract.ReplaceItem =>
             (0 <= start (range (Extract.target obj)) < end_ (range (Extract.target obj))
              /\ end_ (range (Extract.target obj)) <= Z.of_nat (length code))
             /\ Js.endsWith currentFilename (Js.lit ".vue") && isString (Extract.target obj)
                && Replace.isInVueInterpolation code (start (range (Extract.target obj)))
                = false) items).

Lemma replaceEach_splice (items : list Extract.ReplaceItem) (w : Replace.World) :
  fits (Replace.readFile w currentFilename) items ->
  StronglySorted (fun a b => end_ (range (Extract.target b))
                             <= start (range (Extract.target a))) items ->
  exists w',
    Replace.replaceEach srcLangDir fileType importI18N topLevel getStart lib w
      currentFilename items
    = (Replace.addImportIfAbsent importI18N topLevel getStart w' currentFilename,
       Replace.Resolved)
    /\ Replace.readFile w' currentFilename
       = Replace.spliceAll (Replace.readFile w currentFilename)
           (edits (Replace.readFile w currentFilename) items).
Proof.
  revert w. induction items as [|x rest IH]; intros w Hfits Hsorted.
  - exists w. split; reflexivity.
  - apply Forall_cons in Hfits as [[Hx Hout] Hfits].
    apply StronglySorted_inv in Hsorted as [Hsorted Hbelow].
    cbn [Replace.replaceEach].
    destruct (replaceAndUpdate_splice srcLangDir fileType lib w currentFilename
                (Extract.target x) (Js.lit "I18N." ++ Obj.toText (Extract.key x))
                (Extract.needWrite x) Hout)
      as (w1 & -> & Hcode1).
    set (code := Replace.readFile w currentFilename) in *.
    set (s := start (range (Extract.target x))) in *.
    set (e := end_ (range (Extract.target x))) in *.
    set (v := Replace.replacementOf code currentFilename (Extract.target x)
                (Js.lit "I18N." ++ Obj.toText (Extract.key x))) in *.
    rewrite slice_0_take, sliceFrom_drop in Hcode1 by lia.
    assert (Hv : (1 <= length v)%nat).
    { assert (v <> []) by (apply replacementOf_nonempty; discriminate).
      destruct v; [congruence | simpl; lia]. }
    assert (Hlen1 : length (take (Z.to_nat s) code) = Z.to_nat s)
      by (rewrite length_take; lia).
    assert (Hpre : forall p, 0 <= p <= s ->
              take (Z.to_nat p) (Replace.readFile w1 currentFilename)
              = take (Z.to_nat p) code).
    { intros p Hp. rewrite Hcode1, take_app_le by lia. rewrite take_take. f_equal. lia. }
    assert (Hlong : (Z.to_nat s + 1 <= length (Replace.readFile w1 currentFilename))%nat).
    { rewrite Hcode1, !length_app, Hlen1. lia. }
    assert (Hsame : edits (Replace.readFile w1 currentFilename) rest = edits code rest).
    { apply map_ext_in. intros b Hb. f_equal.
      rewrite Forall_forall in Hfits; rewrite Forall_forall in Hbelow.
      apply list_elem_of_In in Hb.
      destruct (Hfits b Hb) as [Hb1 _]. specialize (Hbelow b Hb). cbn beta in Hbelow.
      apply replacementOf_prefix; try lia.
      apply Hpre. lia. }
    destruct (IH w1) as (w' & Hrun & Hcode'); [| exact Hsorted |].
    { rewrite Forall_forall in Hfits; rewrite Forall_forall in Hbelow; apply Forall_forall. intros b Hb.
      destruct (Hfits b Hb) as [Hb1 Hb2]. specialize (Hbelow b Hb). cbn beta in Hbelow.
      split; [lia|].
      rewrite (isInVueInterpolation_prefix _ code) by (apply Hpre; lia). exact Hb2. }
    exists w'. split; [exact Hrun|]. rewrite Hcode', Hsame, Hcode1.
    cbn [map Replace.spliceAll range]. fold s e v.
    rewrite spliceAll_prefix; [now rewrite slice_0_take, sliceFrom_drop by lia|].
    rewrite Forall_forall in Hfits; rewrite Forall_forall in Hbelow; apply Forall_forall. intros [r t] Hedit.
    apply list_elem_of_fmap in Hedit as (b & [= -> ->] & Hb).
    destruct (Hfits b Hb) as [Hb1 _]. specialize (Hbelow b Hb). cbn beta in Hbelow.
    cbn [fst]. lia.
Qed.

End ReverseOrder.

(** X11. Taking the literals of a file from the last one to the first is
    sound: when their ranges are not empty, lie in the file and reach this
    in turn (each ends where the one before it in the list starts, or
    before), and no string literal is inside an interpolation of a
    component file, the chain of replacements resolves, and before the
    import is added the file is its first text with every range replaced
    at once, each by the text the rewriter chooses for it on that first
    text.  No replacement moves a range still to come or changes what the
    rewriter sees in front of it. *)
Theorem replaceEach_replaces_all (srcLangDir fileType importI18N : jsstring)
    (topLevel : jsstring -> list Replace.TopNode) (getStart : jsstring -> Z)
    (lib : Replace.Libraries)
    (w : Replace.World) (currentFilename : jsstring) (items : list Extract.ReplaceItem) :
  let code := Replace.readFile w currentFilename in
  Forall (fun obj =>
            0 <= start (range (Extract.target obj)) < end_ (range (Extract.target obj))
            /\ end_ (range (Extract.target obj)) <= Z.of_nat (length code)) items ->
  StronglySorted (fun a b => end_ (range (Extract.target b))
                             <= start (range (Extract.target a))) items ->
  Forall (fun obj =>
            Js.endsWith currentFilename (Js.lit ".vue") && isString (Extract.target obj)
            && Replace.isInVueInterpolation code (start (range (Extract.target obj)))
            = false) items ->
  exists w',
    Replace.replaceEach srcLangDir fileType importI18N topLevel getStart lib w
      currentFilename items
    = (Replace.addImportIfAbsent importI18N topLevel getStart w' currentFilename,
       Replace.Resolved)
    /\ Replace.readFile w' currentFilename
       = Replace.spliceAll code
           (map (fun obj =>
                   (range (Extract.target obj),
                    Replace.replacementOf code currentFilename (Extract.target obj)
                      (Js.lit "I18N." ++ Obj.toText (Extract.key obj)))) items).
Proof.
  intros code Hranges Hsorted Hout. apply replaceEach_splice; [|exact Hsorted].
  rewrite Forall_forall in Hranges; rewrite Forall_forall in Hout; apply Forall_forall. intros obj Hobj.
  split; [now apply Hranges | now apply Hout].
Qed.

Lemma StronglySorted_weaken_in {A} (R1 R2 : A -> A -> Prop) (l : list A) :
  (forall a b, a ∈ l -> b ∈ l -> R1 a b -> R2 a b) ->
  StronglySorted R1 l -> StronglySorted R2 l.
Proof.
  intros Himp Hs. induction Hs as [|x l Hs IH Hx]; constructor.
  - apply IH. intros a b Ha Hb. apply Himp; now right.
  - rewrite Forall_forall in Hx. apply Forall_forall. intros y Hy.
    apply Himp; [left | now right | now apply Hx].
Qed.

Lemma kept_literals_apart_aux (found : list Span) :
  (forall x, x ∈ found -> start (range x) < end_ (range x)) ->
  (forall x y, x ∈ found -> y ∈ found ->
     end_ (range x) <= start (range y) \/ end_ (range y) <= start (range x)
     \/ (start (range x) <= start (range y) /\ end_ (range y) <= end_ (range x))
     \/ (start (range y) <= start (range x) /\ end_ (range x) <= end_ (range y))) ->
  (forall x y, x ∈ found -> y ∈ found ->
     start (range x) = start (range y) -> end_ (range x) = end_ (range y)) ->
  StronglySorted (fun a b => end_ (range b) <= start (range a))
    (Extract.filterTargetStrs (Extract.sortTexts found)).
Proof.
  intros Hne Hlam Hstart. rewrite filterTargetStrs_keep.
  assert (Hin : forall x, x ∈ Extract.keepNotCoveredLater (Extract.sortTexts found) ->
                          x ∈ found).
  { intros x Hx. apply keep_elem in Hx. now rewrite sortTexts_perm in Hx. }
  eapply StronglySorted_weaken_in;
    [|apply StronglySorted_both;
       [apply keep_sorted, sortTexts_descending | apply keep_ends]].
  cbn beta. intros a b Ha Hb [Hs He]. apply Hin in Ha, Hb.
  pose proof (Hne a Ha). pose proof (Hne b Hb).
  destruct (Hlam a b Ha Hb) as [H1|[H1|[[H1 H2]|[H1 H2]]]]; try lia.
  assert (start (range a) = start (range b)) as Heq by lia.
  apply (Hstart a b Ha Hb) in Heq. lia.
Qed.

(** X12. When the literals found in a file have ranges that are not empty,
    of which any two are apart or one inside the other, and of which no
    two start at the same place with different ends, the literals kept by
    the sort and the filter are apart from each other, the last of the
    file first: each ends where the one before it in the list starts, or
    before.  This is what the replacement from the end of the file
    needs. *)
Theorem kept_literals_apart (found : list Span) :
  (forall x, x ∈ found -> start (range x) < end_ (range x)) ->
  (forall x y, x ∈ found -> y ∈ found ->
     end_ (range x) <= start (range y) \/ end_ (range y) <= start (range x)
     \/ (start (range x) <= start (range y) /\ end_ (range y) <= end_ (range x))
     \/ (start (range y) <= start (range x) /\ end_ (range x) <= end_ (range y))) ->
  (forall x y, x ∈ found -> y ∈ found ->
     start (range x) = start (range y) -> end_ (range x) = end_ (range y)) ->
  StronglySorted (fun a b => end_ (range b) <= start (range a))
    (Extract.filterTargetStrs (Extract.sortTexts found)).
Proof. apply kept_literals_apart_aux. Qed.

(** X13. The run of [generateKeyAndReplaceFile] on one file, from the
    literals found to the rewritten file.  Without a translation (no
    answer, or an empty one) the file is left as it is and nothing is
    written.  With one, when [getSuggestion] gives a suggestion for the
    path, under the conditions above on the ranges, which lie in the file,
    and with no string literal inside an interpolation of a component file:
    the keys are made, every replacement resolves, and before the import
    is added the file is its first text with the range of each kept
    literal replaced by the text the rewriter chooses for it on that first
    text, with that literal's key. *)
Theorem extract_file_replaces_kept_literals
    (camelCase slash : jsstring -> jsstring) (suggestion : list jsstring)
    (langsPrefix : option jsstring) (translateTexts : list jsstring) (langObj : Obj.t)
    (srcLangDir fileType importI18N : jsstring)
    (topLevel : jsstring -> list Replace.TopNode) (getStart : jsstring -> Z)
    (lib : Replace.Libraries)
    (w : Replace.World) (currentFilename : jsstring) (found : list Span) :
  let code := Replace.readFile w currentFilename in
  let targetStrs := Extract.filterTargetStrs (Extract.sortTexts found) in
  let run :=
    Replace.generateKeyAndReplaceFile srcLangDir fileType importI18N topLevel getStart lib
      camelCase slash langObj langsPrefix w currentFilename (Extract.sortTexts found) in
  translateTexts <> [] ->
  Extract.getSuggestion slash currentFilename = Find.Ok suggestion ->
  (forall x, x ∈ found ->
     0 <= start (range x) < end_ (range x) /\ end_ (range x) <= Z.of_nat (length code)) ->
  (forall x y, x ∈ found -> y ∈ found ->
     end_ (range x) <= start (range y) \/ end_ (range y) <= start (range x)
     \/ (start (range x) <= start (range y) /\ end_ (range y) <= end_ (range x))
     \/ (start (range y) <= start (range x) /\ end_ (range x) <= end_ (range y))) ->
  (forall x y, x ∈ found -> y ∈ found ->
     start (range x) = start (range y) -> end_ (range x) = end_ (range y)) ->
  (forall x, x ∈ found ->
     Js.endsWith currentFilename (Js.lit ".vue") && isString x
     && Replace.isInVueInterpolation code (start (range x)) = false) ->
  run None = (w, Replace.Resolved)
  /\ run (Some []) = (w, Replace.Resolved)
  /\ exists st w',
       Extract.getReplaceableStrs camelCase suggestion langsPrefix translateTexts
         langObj targetStrs = Some st
       /\ map Extract.target (Extract.replaceableStrs st) = targetStrs
       /\ run (Some translateTexts)
          = (Replace.addImportIfAbsent importI18N topLevel getStart w' currentFilename,
             Replace.Resolved)
       /\ Replace.readFile w' currentFilename
          = Replace.spliceAll code
              (map (fun obj =>
                      (range (Extract.target obj),
                       Replace.replacementOf code currentFilename (Extract.target obj)
                         (Js.lit "I18N." ++ Obj.toText (Extract.key obj))))
                 (Extract.replaceableStrs st)).
Proof.
  intros code targetStrs run Htrans Hsuggestion Hranges Hlam Hstart Hout.
  split; [reflexivity|]. split; [reflexivity|].
  destruct (getReplaceableStrs_order camelCase suggestion langsPrefix translateTexts
              langObj targetStrs) as (st & Hst & Htargets & _).
  assert (Hin : forall obj, obj ∈ Extract.replaceableStrs st -> Extract.target obj ∈ found).
  { intros obj Hobj.
    assert (Extract.target obj ∈ targetStrs) as Ht.
    { rewrite <- Htargets. apply list_elem_of_fmap. eauto. }
    subst targetStrs. rewrite filterTargetStrs_keep in Ht. apply keep_elem in Ht.
    now rewrite sortTexts_perm in Ht. }
  assert (Hapart : StronglySorted (fun a b => end_ (range b) <= start (range a)) targetStrs).
  { apply kept_literals_apart_aux; try assumption. intros x Hx. now apply Hranges. }
  destruct (replaceEach_splice srcLangDir fileType importI18N topLevel getStart lib
              currentFilename (Extract.replaceableStrs st) w) as (w' & Hrun & Hcode).
  - apply Forall_forall. intros obj Hobj. apply Hin in Hobj.
    split; [now apply Hranges | now apply Hout].
  - rewrite <- Htargets in Hapart. clear -Hapart.
    induction (Extract.replaceableStrs st) as [|x l IH]; [constructor|].
    cbn [map] in Hapart. apply StronglySorted_inv in Hapart as [Hl Hx].
    constructor; [now apply IH|]. rewrite Forall_forall in Hx. apply Forall_forall.
    intros y Hy. apply Hx. apply list_elem_of_fmap. eauto.
  - exists st, w'. split; [exact Hst|]. split; [exact Htargets|]. split; [|exact Hcode].
    subst run. unfold Replace.generateKeyAndReplaceFile.
    destruct translateTexts as [|t rest]; [congruence|].
    rewrite Hsuggestion. fold targetStrs. rewrite Hst, Hrun. reflexivity.
Qed.

(** ** The aggregator of the language files *)

Lemma find_skip_notin (p0 : N) (pat' skipped rest : jsstring) :
  forallb (fun c => negb (c =? p0)%N) skipped = true ->
  Js.find (p0 :: pat') (skipped ++ rest)
  = (fun i => (length skipped + i)%nat) <$> Js.find (p0 :: pat') rest.
Proof.
  induction skipped as [|c skipped IH]; intros Hno.
  - cbn [app length]. now destruct (Js.find (p0 :: pat') rest).
  - cbn in Hno. apply andb_true_iff in Hno as [Hc Hno]. apply negb_true_iff in Hc.
    cbn [app Js.find Js.isPrefix length]. rewrite N.eqb_sym, Hc. cbn [andb].
    rewrite IH by assumption. now destruct (Js.find (p0 :: pat') rest).
Qed.

Lemma find_step (pat : jsstring) (c : N) (s : jsstring) :
  Js.isPrefix pat (c :: s) = false -> Js.find pat (c :: s) = S <$> Js.find pat s.
Proof. intros H. cbn [Js.find]. now rewrite H. Qed.

Lemma find_occurs (pat before after : jsstring) :
  Js.find pat (before ++ pat ++ after) <> None.
Proof.
  induction before as [|c before IH].
  - cbn [app]. destruct (pat ++ after) eqn:E; cbn [Js.find]; rewrite <- E, isPrefix_app;
      discriminate.
  - cbn [app Js.find]. destruct (Js.isPrefix pat (c :: before ++ pat ++ after));
      [discriminate|]. destruct (Js.find pat (before ++ pat ++ after)); [discriminate|].
    congruence.
Qed.

Lemma substitute_plain (x t matched group1 before after : jsstring) :
  forallb (fun c => negb (c =? 36)%N) x = true ->
  Replace.substitute (x ++ t) matched group1 before after
  = x ++ Replace.substitute t matched group1 before after.
Proof.
  induction x as [|c x IH]; intros Hno; [reflexivity|].
  cbn in Hno. apply andb_true_iff in Hno as [Hc Hno]. apply negb_true_iff in Hc.
  cbn [app Replace.substitute]. rewrite Hc, IH by assumption. reflexivity.
Qed.

Lemma substitute_group (matched group1 before after : jsstring) :
  Replace.substitute (Js.lit "$1") matched group1 before after = group1.
Proof. cbn. apply app_nil_r. Qed.

Lemma statementEnd_found (body rest : jsstring) :
  forallb (fun c => negb (Replace.isLineTerminator c)) body = true ->
  match rest with [] => True | d :: _ => Replace.isLineTerminator d = true end ->
  Replace.statementEnd (body ++ 59%N :: rest) = Some (body ++ [59%N], rest).
Proof.
  intros Hbody Hrest. induction body as [|c body IH].
  - cbn [app Replace.statementEnd]. cbn.
    destruct rest as [|d rest]; [reflexivity | now rewrite Hrest].
  - cbn in Hbody. apply andb_true_iff in Hbody as [Hc Hbody]. apply negb_true_iff in Hc.
    cbn [app Replace.statementEnd]. rewrite Hc, IH by assumption.
    destruct (c =? 59)%N eqn:E; [|reflexivity]. cbn [andb].
    destruct (body ++ 59%N :: rest) as [|d tail] eqn:Etail.
    { destruct body; discriminate. }
    assert (Replace.isLineTerminator d = false) as ->; [|reflexivity].
    destruct body as [|b body]; cbn in Etail; injection Etail as <- _; [reflexivity|].
    cbn in Hbody. apply andb_true_iff in Hbody as [Hb _]. now apply negb_true_iff in Hb.
Qed.

Lemma importMatch_here (before s matched rest : jsstring) :
  Replace.importAt s = Some (matched, rest) ->
  Replace.importMatch before s true = Some (before, matched, rest).
Proof. intros H. destruct s; cbn [Replace.importMatch]; now rewrite H. Qed.

Lemma plainName_parts (name : jsstring) :
  Replace.plainName name = true ->
  forallb (fun c => negb (Replace.isLineTerminator c)) name = true
  /\ forallb (fun c => negb (c =? 125)%N) name = true
  /\ forallb (fun c => negb (c =? 36)%N) name = true.
Proof.
  unfold Replace.plainName. rewrite !forallb_forall. intros H.
  repeat split; intros c Hc; specialize (H c Hc);
    apply andb_true_iff in H as [H H3]; apply andb_true_iff in H as [H1 H2]; assumption.
Qed.

Lemma forallb_flat_map {A} (p : N -> bool) (f : A -> jsstring) (l : list A) :
  Forall (fun x => forallb p (f x) = true) l -> forallb p (flat_map f l) = true.
Proof.
  induction 1 as [|x l Hx _ IH]; [reflexivity|]. cbn [flat_map].
  now rewrite forallb_app, Hx, IH.
Qed.

Lemma aggregator_rest_head (others exported : list jsstring) (tail : jsstring) :
  exists rest',
    flat_map (fun name => [10%N] ++ Js.lit "import " ++ name ++ Js.lit " from './"
                          ++ name ++ Js.lit "';") others
    ++ [10; 10]%N ++ tail = 10%N :: rest'.
Proof. destruct others; cbn; eauto. Qed.

Lemma substitute_group_app (t matched group1 before after : jsstring) :
  Replace.substitute (Js.lit "$1" ++ t) matched group1 before after
  = group1 ++ Replace.substitute t matched group1 before after.
Proof. reflexivity. Qed.

Lemma addImportStatement_aggregator (first : jsstring) (others exported : list jsstring)
    (newFilename : jsstring) :
  Replace.plainName first = true ->
  Replace.plainName newFilename = true ->
  Replace.addImportStatement (Replace.aggregator first others exported) newFilename
  = Replace.aggregator first (newFilename :: others) exported.
Proof.
  intros Hfirst Hnew.
  apply plainName_parts in Hfirst as (Hlt & _ & _).
  apply plainName_parts in Hnew as (_ & _ & Hdollar).
  set (rest := flat_map (fun name => [10%N] ++ Js.lit "import " ++ name ++ Js.lit " from './"
                                     ++ name ++ Js.lit "';") others
               ++ [10; 10]%N ++ Js.lit "export default Object.assign({}, {" ++ [10%N]
               ++ flat_map (fun name => Js.lit "  " ++ name ++ Js.lit "," ++ [10%N]) exported
               ++ Js.lit "});").
  set (body := Js.lit " " ++ first ++ Js.lit " from './" ++ first ++ Js.lit "'").
  assert (Hshape : Replace.aggregator first others exported
                   = Js.lit "import" ++ body ++ 59%N :: rest).
  { unfold Replace.aggregator, body, rest.
    change (Js.lit "import ") with (Js.lit "import" ++ Js.lit " ").
    change (Js.lit "';") with (Js.lit "'" ++ [59%N]).
    rewrite <- !app_assoc. reflexivity. }
  assert (Hat : Replace.importAt (Replace.aggregator first others exported)
                = Some (Js.lit "import" ++ body ++ [59%N], rest)).
  { rewrite Hshape. unfold Replace.importAt.
    change (Extract.spanOf Find.isSpace (Js.lit "import" ++ body ++ 59%N :: rest))
      with ([] : jsstring, Js.lit "import" ++ body ++ 59%N :: rest).
    cbv beta iota. rewrite isPrefix_app.
    change (drop 6 (Js.lit "import" ++ ?x)) with x.
    rewrite statementEnd_found; [reflexivity| |].
    - unfold body. rewrite !forallb_app, Hlt. reflexivity.
    - subst rest. destruct (aggregator_rest_head others exported
        (Js.lit "export default Object.assign({}, {" ++ [10%N]
         ++ flat_map (fun name => Js.lit "  " ++ name ++ Js.lit "," ++ [10%N]) exported
         ++ Js.lit "});")) as (rest' & ->). reflexivity. }
  unfold Replace.addImportStatement. rewrite (importMatch_here _ _ _ _ Hat).
  rewrite substitute_group_app.
  rewrite !substitute_plain by (exact Hdollar || reflexivity).
  change (Replace.substitute (Js.lit "';") ?m ?g ?b ?a) with (Js.lit "';").
  unfold Replace.aggregator, body, rest. cbn [flat_map].
  change (Js.lit "import ") with (Js.lit "import" ++ Js.lit " ").
  change (Js.lit "';") with (Js.lit "'" ++ [59%N]).
  rewrite <- !app_assoc. reflexivity.
Qed.

Lemma take_app_exact {A} (l1 l2 : list A) (n : nat) :
  n = length l1 -> take n (l1 ++ l2) = l1.
Proof. intros ->. now rewrite take_app_length. Qed.

Lemma drop_app_exact {A} (l1 l2 : list A) (n : nat) :
  n = length l1 -> drop n (l1 ++ l2) = l2.
Proof. intros ->. now rewrite drop_app_length. Qed.

(** Where the closing text of the object of an aggregator is found: after
    a text [front] whose only [}] is followed by a comma. *)
Lemma find_close (close tail a b : jsstring) :
  forallb (fun x => negb (x =? 125)%N) a = true ->
  forallb (fun x => negb (x =? 125)%N) b = true ->
  Js.isPrefix (125%N :: close) (125%N :: 44%N :: b ++ tail) = false ->
  Js.find (125%N :: close) (a ++ 125%N :: 44%N :: b ++ tail)
  = (fun i => (length (a ++ 125%N :: 44%N :: b) + i)%nat) <$> Js.find (125%N :: close) tail.
Proof.
  intros Ha Hb Hhere. rewrite find_skip_notin by assumption.
  rewrite find_step by assumption.
  change (44%N :: b ++ tail) with ((44%N :: b) ++ tail).
  rewrite find_skip_notin by (cbn; exact Hb).
  destruct (Js.find (125%N :: close) tail) as [i|]; cbn; [|reflexivity].
  f_equal. rewrite length_app. cbn. lia.
Qed.

Lemma addExportStatement_aggregator (first : jsstring) (others exported : list jsstring)
    (newFilename : jsstring) :
  Replace.plainName first = true ->
  Forall (fun name => Replace.plainName name = true) others ->
  Forall (fun name => Replace.plainName name = true) exported ->
  exported <> [] ->
  Replace.plainName newFilename = true ->
  Replace.addExportStatement (Replace.aggregator first others exported) newFilename
  = Replace.aggregator first others (exported ++ [newFilename]).
Proof.
  intros Hfirst Hothers Hexported Hne Hnew.
  apply plainName_parts in Hfirst as (_ & Hfirst & _).
  pose proof Hnew as Hnew'. apply plainName_parts in Hnew' as (_ & Hbrace & Hdollar).
  set (imp := fun name : jsstring =>
                [10%N] ++ Js.lit "import " ++ name ++ Js.lit " from './" ++ name ++ Js.lit "';").
  set (exp := fun name : jsstring => Js.lit "  " ++ name ++ Js.lit "," ++ [10%N]).
  set (a := Js.lit "import " ++ first ++ Js.lit " from './" ++ first ++ Js.lit "';"
            ++ flat_map imp others ++ [10; 10]%N ++ Js.lit "export default Object.assign({").
  assert (Hshape : forall names,
            Replace.aggregator first others names
            = a ++ 125%N :: 44%N :: (Js.lit " {" ++ [10%N] ++ flat_map exp names)
                ++ Js.lit "});").
  { intros names. unfold Replace.aggregator, a. fold imp exp.
    change (Js.lit "export default Object.assign({}, {")
      with (Js.lit "export default Object.assign({" ++ 125%N :: 44%N :: Js.lit " {").
    rewrite <- !app_assoc. reflexivity. }
  assert (Ha : forallb (fun x => negb (x =? 125)%N) a = true).
  { unfold a. rewrite !forallb_app, Hfirst. cbn -[forallb flat_map].
    rewrite forallb_flat_map; [reflexivity|].
    eapply Forall_impl; [exact Hothers|]. intros name Hname. cbn beta in Hname.
    apply plainName_parts in Hname as (_ & Hname & _).
    unfold imp. rewrite !forallb_app, Hname. reflexivity. }
  assert (Hb : forall names, Forall (fun name => Replace.plainName name = true) names ->
            forallb (fun x => negb (x =? 125)%N)
              (Js.lit " {" ++ [10%N] ++ flat_map exp names) = true).
  { intros names Hnames. rewrite !forallb_app. cbn -[forallb flat_map].
    rewrite forallb_flat_map; [reflexivity|].
    eapply Forall_impl; [exact Hnames|]. intros name Hname. cbn beta in Hname.
    apply plainName_parts in Hname as (_ & Hname & _).
    unfold exp. rewrite !forallb_app, Hname. reflexivity. }
  assert (Hfind : forall names close,
            Forall (fun name => Replace.plainName name = true) names ->
            match close with c :: _ => (c =? 44)%N = false | [] => False end ->
            Js.find (125%N :: close) (Replace.aggregator first others names)
            = (fun i => (length (a ++ 125%N :: 44%N
                                   :: (Js.lit " {" ++ [10%N] ++ flat_map exp names)) + i)%nat)
              <$> Js.find (125%N :: close) (Js.lit "});")).
  { intros names close Hnames Hclose. rewrite Hshape.
    apply find_close; [exact Ha | now apply Hb |].
    destruct close as [|c close]; [contradiction|]. cbn. now rewrite Hclose. }
  unfold Replace.addExportStatement.
  assert (Hfirst_block :
            Replace.addExportBefore (Js.lit "});") (Replace.aggregator first others exported)
              newFilename
            = Replace.aggregator first others (exported ++ [newFilename])).
  { unfold Replace.addExportBefore, Replace.test.
    rewrite bool_decide_eq_true_2.
    2:{ change (Js.lit "});") with (125%N :: Js.lit ");").
        rewrite Hfind by (assumption || reflexivity). discriminate. }
    rewrite bool_decide_eq_true_2.
    2:{ destruct (exists_last Hne) as (init & last & ->).
        unfold Replace.aggregator. rewrite flat_map_app. cbn [flat_map].
        rewrite app_nil_r.
        change ([44; 10]%N ++ Js.lit "});") with (Js.lit "," ++ [10%N] ++ Js.lit "});").
        match goal with
        | |- Js.find ?pat ?s <> None =>
            replace s with
              ((Js.lit "import " ++ first ++ Js.lit " from './" ++ first ++ Js.lit "';"
                ++ flat_map imp others ++ [10; 10]%N
                ++ Js.lit "export default Object.assign({}, {" ++ [10%N]
                ++ flat_map exp init ++ Js.lit "  " ++ last) ++ pat ++ [])
        end; [apply find_occurs|].
        rewrite app_nil_r, <- !app_assoc. reflexivity. }
    unfold Replace.replaceGroup.
    change (Js.lit "});") with (125%N :: Js.lit ");") at 1.
    rewrite Hfind by (assumption || reflexivity).
    change (Js.find (125%N :: Js.lit ");") (Js.lit "});")) with (Some 0%nat).
    cbn [fmap option_fmap option_map]. rewrite Nat.add_0_r.
    rewrite (Hshape exported).
    replace (a ++ 125%N :: 44%N :: (Js.lit " {" ++ [10%N] ++ flat_map exp exported)
               ++ Js.lit "});")
      with ((a ++ 125%N :: 44%N :: Js.lit " {" ++ [10%N] ++ flat_map exp exported)
              ++ Js.lit "});") by (now rewrite <- app_assoc).
    rewrite take_app_exact by reflexivity.
    rewrite drop_ge by (rewrite (length_app (a ++ _)); lia).
    rewrite !substitute_plain by (exact Hdollar || reflexivity).
    rewrite substitute_group, app_nil_r.
    rewrite (Hshape (exported ++ [newFilename])), flat_map_app. cbn [flat_map].
    unfold exp at 3. rewrite app_nil_r, <- !app_assoc. cbn [app].
    rewrite <- !app_assoc. reflexivity. }
  rewrite Hfirst_block.
  unfold Replace.addExportBefore, Replace.test.
  rewrite bool_decide_eq_false_2; [reflexivity|].
  intros H. apply H. change (Js.lit "};") with (125%N :: Js.lit ";").
  rewrite Hfind; [reflexivity | | reflexivity].
  apply Forall_app. split; [assumption|]. now constructor.
Qed.

(** X14. The aggregator of the language files keeps its layout: the one
    [createNewMainLangFile] makes for a first language file has one import
    and one member, and adding a language file to an aggregator of that
    layout puts its import right behind the first import and its name
    behind the last member of the object, for names without a line
    terminator, a [}] or a [$].  Every language file added is imported
    once and exported once. *)
Theorem addImportToMainLangFile_layout (first : jsstring) (others exported : list jsstring)
    (newFilename : jsstring) :
  Replace.plainName first = true ->
  Forall (fun name => Replace.plainName name = true) others ->
  Forall (fun name => Replace.plainName name = true) exported ->
  exported <> [] ->
  Replace.plainName newFilename = true ->
  Replace.addImportToMainLangFile None first = Replace.aggregator first [] [first]
  /\ Replace.addImportToMainLangFile (Some (Replace.aggregator first others exported))
       newFilename
     = Replace.aggregator first (newFilename :: others) (exported ++ [newFilename]).
Proof.
  intros Hfirst Hothers Hexported Hne Hnew. split.
  - unfold Replace.addImportToMainLangFile, Replace.createNewMainLangFile, Replace.aggregator.
    cbn [flat_map app]. rewrite app_nil_r, <- !app_assoc. reflexivity.
  - unfold Replace.addImportToMainLangFile.
    rewrite addImportStatement_aggregator by assumption.
    apply addExportStatement_aggregator; try assumption. now constructor.
Qed.

(** ** The helpers of the version-2 component-file extractor *)

Lemma replaceAllFuel_char (fuel : nat) (s : jsstring) (c : N) (rep : jsstring) :
  (length s < fuel)%nat ->
  Js.replaceAllFuel fuel s [c] rep
  = flat_map (fun x => if (x =? c)%N then rep else [x]) s.
Proof.
  revert s. induction fuel as [|fuel IH]; intros s Hfuel; [lia|].
  destruct s as [|x s]; [reflexivity|]. cbn [length] in Hfuel.
  cbn [Js.replaceAllFuel Js.isPrefix flat_map length drop]. rewrite andb_true_r, N.eqb_sym.
  rewrite drop_0. destruct (x =? c)%N; rewrite IH by lia; reflexivity.
Qed.

Lemma escapeChar_flat_map (s : jsstring) (c : N) :
  Find.escapeChar s c = flat_map (fun x => if (x =? c)%N then [92%N; c] else [x]) s.
Proof. apply replaceAllFuel_char. lia. Qed.

Lemma escapeChar_app (a b : jsstring) (c : N) :
  Find.escapeChar (a ++ b) c = Find.escapeChar a c ++ Find.escapeChar b c.
Proof. rewrite !escapeChar_flat_map. apply flat_map_app. Qed.

Lemma escapeRegExp_app (a b : jsstring) :
  Find.escapeRegExp (a ++ b) = Find.escapeRegExp a ++ Find.escapeRegExp b.
Proof. unfold Find.escapeRegExp. now rewrite !escapeChar_app. Qed.

Lemma escapeRegExp_char (x : N) :
  Find.escapeRegExp [x] = if Find.isEscaped x then [92%N; x] else [x].
Proof.
  unfold Find.escapeRegExp, Find.isEscaped.
  destruct (N.eqb_spec x 123) as [->|H1]; [reflexivity|].
  destruct (N.eqb_spec x 125) as [->|H2]; [reflexivity|].
  destruct (N.eqb_spec x 36) as [->|H3]; [reflexivity|].
  destruct (N.eqb_spec x 40) as [->|H4]; [reflexivity|].
  destruct (N.eqb_spec x 41) as [->|H5]; [reflexivity|].
  destruct (N.eqb_spec x 43) as [->|H6]; [reflexivity|].
  destruct (N.eqb_spec x 42) as [->|H7]; [reflexivity|].
  destruct (N.eqb_spec x 94) as [->|H8]; [reflexivity|].
  rewrite !escapeChar_flat_map. cbn [flat_map app orb].
  repeat match goal with
         | H : x <> ?c |- context [(x =? ?c)%N] =>
             rewrite (proj2 (N.eqb_neq x c) H); cbn [flat_map app]
         end.
  reflexivity.
Qed.

(** X15. [escapeRegExp] is one pass over the text whatever the order of its
    eight replacements: each [{ } $ ( ) + * ^] gets one backslash before
    it, a backslash it has put is never escaped again, and every other
    character, the dot, the question mark, the brackets and the backslash
    among them, stays as it is. *)
Theorem escapeRegExp_one_pass (str : jsstring) :
  Find.escapeRegExp str
  = flat_map (fun c => if Find.isEscaped c then [92%N; c] else [c]) str.
Proof.
  induction str as [|x str IH]; [reflexivity|].
  change (x :: str) with ([x] ++ str).
  rewrite escapeRegExp_app, escapeRegExp_char, IH. reflexivity.
Qed.

(** *** The filter of nested ranges *)

Lemma nested_bounds (a b : Find.Match) :
  Find.nested a b = true ->
  exists a0 a1 b0 b1,
    Find.arrf0 a = Some a0 /\ Find.arrf1 a = Some a1
    /\ Find.arrf0 b = Some b0 /\ Find.arrf1 b = Some b1
    /\ b0 <= a0 /\ a1 <= b1 /\ (b0 < a0 \/ a1 < b1).
Proof.
  unfold Find.nested, Find.lt, Find.le, Find.gt, Find.ge. intros H.
  destruct (Find.arrf0 a) as [a0|], (Find.arrf1 a) as [a1|],
    (Find.arrf0 b) as [b0|], (Find.arrf1 b) as [b1|];
    try (cbn in H; rewrite ?andb_false_r in H; cbn in H; discriminate).
  exists a0, a1, b0, b1.
  assert (b0 <= a0 /\ a1 <= b1 /\ (b0 < a0 \/ a1 < b1)) as Hb.
  { destruct (Z.ltb_spec b0 a0), (Z.leb_spec a1 b1), (Z.leb_spec b0 a0), (Z.ltb_spec a1 b1);
      cbn in H; try discriminate; lia. }
  tauto.
Qed.

Lemma nested_trans (a b c : Find.Match) :
  Find.nested a b = true -> Find.nested b c = true -> Find.nested a c = true.
Proof.
  intros Hab Hbc.
  apply nested_bounds in Hab as (a0 & a1 & b0 & b1 & Ha0 & Ha1 & Hb0 & Hb1 & H1 & H2 & H3).
  apply nested_bounds in Hbc as (b0' & b1' & c0 & c1 & Hb0' & Hb1' & Hc0 & Hc1 & H4 & H5 & H6).
  rewrite Hb0 in Hb0'. rewrite Hb1 in Hb1'. injection Hb0' as <-. injection Hb1' as <-.
  unfold Find.nested, Find.gt, Find.ge, Find.lt, Find.le, Find.gt, Find.ge.
  rewrite Ha0, Ha1, Hc0, Hc1.
  destruct (Z.ltb_spec c0 a0), (Z.leb_spec a1 c1), (Z.leb_spec c0 a0), (Z.ltb_spec a1 c1);
    cbn; try reflexivity; lia.
Qed.

(** The span of a match whose bounds are defined. *)
Lemma width_bound (matches : list Find.Match) :
  exists bound, forall x a0 a1,
    x ∈ matches -> Find.arrf0 x = Some a0 -> Find.arrf1 x = Some a1 -> a1 - a0 <= bound.
Proof.
  induction matches as [|y matches (bound & IH)].
  - exists 0. intros x a0 a1 H. inversion H.
  - destruct (Find.arrf0 y) as [y0|] eqn:Hy0, (Find.arrf1 y) as [y1|] eqn:Hy1.
    1: exists (Z.max bound (y1 - y0)).
    2,3,4: exists bound.
    all: intros x a0 a1 Hx Ha0 Ha1; apply elem_of_cons in Hx as [->|Hx];
      try congruence; try (specialize (IH x a0 a1 Hx Ha0 Ha1); lia).
    rewrite Hy0 in Ha0. rewrite Hy1 in Ha1. injection Ha0 as <-. injection Ha1 as <-. lia.
Qed.

Lemma filterNestedRanges_cover_aux (matches : list Find.Match) (bound : Z) (n : nat) :
  (forall x a0 a1, x ∈ matches -> Find.arrf0 x = Some a0 -> Find.arrf1 x = Some a1 ->
                   a1 - a0 <= bound) ->
  forall item,
    item ∈ matches ->
    (forall a0 a1, Find.arrf0 item = Some a0 -> Find.arrf1 item = Some a1 ->
                   bound - (a1 - a0) < Z.of_nat n) ->
    item ∈ Find.filterNestedRanges matches
    \/ exists items, items ∈ Find.filterNestedRanges matches
                     /\ Find.nested item items = true.
Proof.
  intros Hbound. induction n as [|n IH]; intros item Hin Hn.
  - left. apply list_elem_of_In, filterNestedRanges_spec. split; [now apply list_elem_of_In|].
    intros items Hitems. destruct (Find.nested item items) eqn:E; [|reflexivity].
    apply nested_bounds in E as (a0 & a1 & b0 & b1 & Ha0 & Ha1 & Hb0 & Hb1 & ? & ? & ?).
    specialize (Hn a0 a1 Ha0 Ha1).
    apply list_elem_of_In in Hitems. specialize (Hbound items b0 b1 Hitems Hb0 Hb1). lia.
  - destruct (existsb (Find.nested item) matches) eqn:E.
    + apply existsb_exists in E as (items & Hitems & Hnested).
      apply list_elem_of_In in Hitems.
      destruct (IH items Hitems) as [Hkept|(top & Htop & Hnested')].
      * intros b0 b1 Hb0 Hb1.
        apply nested_bounds in Hnested
          as (a0 & a1 & b0' & b1' & Ha0 & Ha1 & Hb0' & Hb1' & ? & ? & ?).
        rewrite Hb0 in Hb0'. rewrite Hb1 in Hb1'. injection Hb0' as <-. injection Hb1' as <-.
        specialize (Hn a0 a1 Ha0 Ha1). lia.
      * right. exists items. auto.
      * right. exists top. split; [exact Htop|]. eapply nested_trans; eassumption.
    + left. apply list_elem_of_In, filterNestedRanges_spec.
      split; [now apply list_elem_of_In|]. intros items Hitems.
      destruct (Find.nested item items) eqn:E'; [|reflexivity].
      assert (existsb (Find.nested item) matches = true) as Hex
        by (apply existsb_exists; eauto). congruence.
Qed.

(** X16. [filterNestedRanges] loses nothing: a match it drops is nested in
    a match it keeps, no match it keeps is nested in another one it keeps,
    and filtering what it has kept once more changes nothing. *)
Theorem filterNestedRanges_cover (matches : list Find.Match) :
  (forall item, item ∈ matches ->
     item ∈ Find.filterNestedRanges matches
     \/ exists items, items ∈ Find.filterNestedRanges matches
                      /\ Find.nested item items = true)
  /\ (forall item items,
        item ∈ Find.filterNestedRanges matches ->
        items ∈ Find.filterNestedRanges matches ->
        Find.nested item items = false)
  /\ Find.filterNestedRanges (Find.filterNestedRanges matches)
     = Find.filterNestedRanges matches.
Proof.
  split; [|split].
  - intros item Hin. destruct (width_bound matches) as (bound & Hbound).
    destruct (Find.arrf0 item) as [a0|] eqn:Ha0, (Find.arrf1 item) as [a1|] eqn:Ha1.
    1: apply (filterNestedRanges_cover_aux matches bound
                (S (Z.to_nat (bound - (a1 - a0))))); try assumption.
    2,3,4: apply (filterNestedRanges_cover_aux matches bound 0); try assumption.
    all: intros b0 b1 Hb0 Hb1; try congruence.
    rewrite Ha0 in Hb0. rewrite Ha1 in Hb1. injection Hb0 as <-. injection Hb1 as <-.
    specialize (Hbound item a0 a1 Hin Ha0 Ha1). lia.
  - intros item items Hitem Hitems.
    apply list_elem_of_In, filterNestedRanges_spec in Hitem as [_ Hitem].
    apply list_elem_of_In, filterNestedRanges_spec in Hitems as [Hitems _].
    now apply Hitem.
  - unfold Find.filterNestedRanges at 1.
    apply forallb_filter_id. apply forallb_forall. intros item Hitem.
    apply negb_true_iff. destruct (existsb _ _) eqn:E; [|reflexivity].
    apply existsb_exists in E as (items & Hitems & Hnested).
    apply filterNestedRanges_spec in Hitem as [_ Hitem].
    apply filterNestedRanges_spec in Hitems as [Hitems _].
    rewrite (Hitem items Hitems) in Hnested. discriminate.
Qed.

(** *** The placeholders of the space entities *)

Lemma replaceAllFuel_enough (pat rep : jsstring) (fuel1 fuel2 : nat) (s : jsstring) :
  pat <> [] -> (length s < fuel1)%nat -> (length s < fuel2)%nat ->
  Js.replaceAllFuel fuel1 s pat rep = Js.replaceAllFuel fuel2 s pat rep.
Proof.
  intros Hpat. revert fuel2 s. induction fuel1 as [|fuel1 IH]; intros fuel2 s H1 H2; [lia|].
  destruct fuel2 as [|fuel2]; [lia|]. cbn [Js.replaceAllFuel].
  destruct (Js.isPrefix pat s) eqn:Hpre.
  - f_equal. apply isPrefix_true in Hpre as (rest & ->).
    rewrite drop_app_length. rewrite length_app in H1, H2.
    destruct pat; [congruence|]. cbn [length] in H1, H2. apply IH; lia.
  - destruct s as [|c s]; [reflexivity|]. f_equal. cbn [length] in H1, H2. apply IH; lia.
Qed.

Lemma replaceAllFuel_S (fuel : nat) (s pat rep : jsstring) :
  Js.replaceAllFuel (S fuel) s pat rep
  = if Js.isPrefix pat s then rep ++ Js.replaceAllFuel fuel (drop (length pat) s) pat rep
    else match s with
         | [] => []
         | c :: s' => c :: Js.replaceAllFuel fuel s' pat rep
         end.
Proof. reflexivity. Qed.

Lemma replaceAll_match (pat rep rest : jsstring) :
  pat <> [] -> Js.replaceAll (pat ++ rest) pat rep = rep ++ Js.replaceAll rest pat rep.
Proof.
  intros Hpat. unfold Js.replaceAll. rewrite replaceAllFuel_S.
  rewrite isPrefix_app, drop_app_length. f_equal.
  apply replaceAllFuel_enough; [assumption| |lia].
  rewrite length_app. destruct pat; [congruence | cbn; lia].
Qed.

Lemma replaceAll_copy (pat rep : jsstring) (c : N) (s : jsstring) :
  pat <> [] -> Js.isPrefix pat (c :: s) = false ->
  Js.replaceAll (c :: s) pat rep = c :: Js.replaceAll s pat rep.
Proof.
  intros Hpat Hpre. unfold Js.replaceAll. rewrite replaceAllFuel_S, Hpre. reflexivity.
Qed.

Lemma replaceAll_nil (pat rep : jsstring) : pat <> [] -> Js.replaceAll [] pat rep = [].
Proof. intros Hpat. destruct pat; [congruence | reflexivity]. Qed.

Lemma agree_of_prefix (q p s : jsstring) :
  Js.isPrefix q (p ++ s) = true -> Find.agree q p = true.
Proof.
  revert p. induction q as [|a q IH]; intros [|b p]; cbn; try reflexivity.
  intros H. apply andb_true_iff in H as [-> H]. cbn. now apply IH.
Qed.

Lemma agree_of_prefix_r (q p s : jsstring) :
  Js.isPrefix p (q ++ s) = true -> Find.agree q p = true.
Proof.
  revert p. induction q as [|a q IH]; intros [|b p]; cbn; try reflexivity.
  intros H. apply andb_true_iff in H as [H1 H]. rewrite N.eqb_sym, H1. cbn. now apply IH.
Qed.

(** A text in which the pattern can start nowhere is copied. *)
Lemma replaceAll_copy_through (pat rep p s : jsstring) :
  pat <> [] -> Find.fitsNowhere pat p = true ->
  Js.replaceAll (p ++ s) pat rep = p ++ Js.replaceAll s pat rep.
Proof.
  intros Hpat. induction p as [|c p IH]; intros Hfit; [reflexivity|].
  cbn [Find.fitsNowhere] in Hfit. apply andb_true_iff in Hfit as [Hhere Hfit].
  apply negb_true_iff in Hhere. cbn [app].
  assert (Js.isPrefix pat (c :: p ++ s) = false) as Hpre.
  { destruct (Js.isPrefix pat (c :: p ++ s)) eqn:E; [|reflexivity].
    apply (agree_of_prefix pat (c :: p) s) in E. congruence. }
  rewrite replaceAll_copy, IH by assumption. reflexivity.
Qed.

(** A text in the result in which the replacement can start nowhere has
    been copied from the same place. *)
Lemma replaceAll_transfer (pat rep p x : jsstring) :
  pat <> [] -> Find.fitsNowhere rep p = true ->
  Js.isPrefix p (Js.replaceAll x pat rep) = true ->
  exists x', x = p ++ x' /\ Js.replaceAll x pat rep = p ++ Js.replaceAll x' pat rep.
Proof.
  intros Hpat. revert x. induction p as [|c p IH]; intros x Hfit Hpre.
  - exists x. split; reflexivity.
  - cbn [Find.fitsNowhere] in Hfit. apply andb_true_iff in Hfit as [Hhere Hfit].
    apply negb_true_iff in Hhere.
    destruct (Js.isPrefix pat x) eqn:Hx.
    + apply isPrefix_true in Hx as (x0 & ->). rewrite replaceAll_match in Hpre by assumption.
      apply agree_of_prefix_r in Hpre. congruence.
    + destruct x as [|d x]; [rewrite replaceAll_nil in Hpre by assumption; discriminate|].
      rewrite replaceAll_copy in Hpre |- * by assumption.
      cbn [Js.isPrefix] in Hpre. apply andb_true_iff in Hpre as [Hc Hpre].
      apply N.eqb_eq in Hc. subst d.
      destruct (IH x Hfit Hpre) as (x' & -> & ->). exists x'. split; reflexivity.
Qed.

(** The same for a text that only the replacement itself could start, at
    a place where the pattern does not start. *)
Lemma replaceAll_transfer_tail (pat rep : jsstring) (c : N) (p x : jsstring) :
  pat <> [] -> Find.fitsNowhere rep p = true ->
  Js.isPrefix pat x = false ->
  Js.isPrefix (c :: p) (Js.replaceAll x pat rep) = true ->
  exists x', x = c :: p ++ x'.
Proof.
  intros Hpat Hfit Hx Hpre.
  destruct x as [|d x]; [rewrite replaceAll_nil in Hpre by assumption; discriminate|].
  rewrite replaceAll_copy in Hpre by assumption.
  cbn [Js.isPrefix] in Hpre. apply andb_true_iff in Hpre as [Hc Hpre].
  apply N.eqb_eq in Hc. subst d.
  destruct (replaceAll_transfer pat rep p x Hpat Hfit Hpre) as (x' & -> & _). eauto.
Qed.

Lemma find_None_app_r (pat a b : jsstring) :
  Js.find pat (a ++ b) = None -> Js.find pat b = None.
Proof.
  induction a as [|c a IH]; [auto|]. cbn [app]. intros H.
  apply find_None_inv in H as [_ H]. auto.
Qed.

Lemma find_None_prefix (pat s : jsstring) :
  Js.find pat s = None -> Js.isPrefix pat s = false.
Proof.
  destruct s as [|c s]; cbn [Js.find]; destruct (Js.isPrefix pat _); congruence.
Qed.

Section HtmlSpaces.

Local Abbreviation ensp := (Js.lit "&ensp;").
Local Abbreviation emsp := (Js.lit "&emsp;").
Local Abbreviation nbsp := (Js.lit "&nbsp;").
Local Abbreviation ccsp := (Js.lit "ccsp&;").
Local Abbreviation ecsp := (Js.lit "ecsp&;").
Local Abbreviation ncsp := (Js.lit "ncsp&;").

Ltac side := solve [discriminate | reflexivity | assumption].

Lemma replaceHtmlSpaces_ensp (s : jsstring) :
  Find.replaceHtmlSpaces (ensp ++ s) = ccsp ++ Find.replaceHtmlSpaces s.
Proof.
  unfold Find.replaceHtmlSpaces.
  rewrite replaceAll_match by side. now rewrite !replaceAll_copy_through by side.
Qed.

Lemma replaceHtmlSpaces_emsp (s : jsstring) :
  Find.replaceHtmlSpaces (emsp ++ s) = ecsp ++ Find.replaceHtmlSpaces s.
Proof.
  unfold Find.replaceHtmlSpaces.
  rewrite (replaceAll_copy_through ensp) by side.
  rewrite replaceAll_match by side. now rewrite replaceAll_copy_through by side.
Qed.

Lemma replaceHtmlSpaces_nbsp (s : jsstring) :
  Find.replaceHtmlSpaces (nbsp ++ s) = ncsp ++ Find.replaceHtmlSpaces s.
Proof.
  unfold Find.replaceHtmlSpaces.
  rewrite (replaceAll_copy_through ensp) by side.
  rewrite (replaceAll_copy_through emsp) by side.
  now rewrite replaceAll_match by side.
Qed.

Lemma recoverHtmlSpaces_ccsp (s : jsstring) :
  Find.recoverHtmlSpaces (ccsp ++ s) = ensp ++ Find.recoverHtmlSpaces s.
Proof.
  unfold Find.recoverHtmlSpaces.
  rewrite replaceAll_match by side. now rewrite !replaceAll_copy_through by side.
Qed.

Lemma recoverHtmlSpaces_ecsp (s : jsstring) :
  Find.recoverHtmlSpaces (ecsp ++ s) = emsp ++ Find.recoverHtmlSpaces s.
Proof.
  unfold Find.recoverHtmlSpaces.
  rewrite (replaceAll_copy_through ccsp) by side.
  rewrite replaceAll_match by side. now rewrite replaceAll_copy_through by side.
Qed.

Lemma recoverHtmlSpaces_ncsp (s : jsstring) :
  Find.recoverHtmlSpaces (ncsp ++ s) = nbsp ++ Find.recoverHtmlSpaces s.
Proof.
  unfold Find.recoverHtmlSpaces.
  rewrite (replaceAll_copy_through ccsp) by side.
  rewrite (replaceAll_copy_through ecsp) by side.
  now rewrite replaceAll_match by side.
Qed.

(** Where no entity starts, the three replacements copy the character, and
    no placeholder starts in the result unless it starts in the text. *)
Lemma replaceHtmlSpaces_copy (c : N) (s : jsstring) :
  Js.isPrefix ensp (c :: s) = false ->
  Js.isPrefix emsp (c :: s) = false ->
  Js.isPrefix nbsp (c :: s) = false ->
  Find.replaceHtmlSpaces (c :: s) = c :: Find.replaceHtmlSpaces s
  /\ forall p, p = ccsp \/ p = ecsp \/ p = ncsp ->
       Js.isPrefix p (Find.replaceHtmlSpaces (c :: s)) = true ->
       Js.isPrefix p (c :: s) = true.
Proof.
  intros H1 H2 H3. unfold Find.replaceHtmlSpaces.
  set (r1 := fun x => Js.replaceAll x ensp ccsp).
  set (r2 := fun x => Js.replaceAll x emsp ecsp).
  set (r3 := fun x => Js.replaceAll x nbsp ncsp).
  change (r3 (r2 (r1 (c :: s))) = c :: r3 (r2 (r1 s))
          /\ forall p, p = ccsp \/ p = ecsp \/ p = ncsp ->
               Js.isPrefix p (r3 (r2 (r1 (c :: s)))) = true ->
               Js.isPrefix p (c :: s) = true).
  assert (E1 : r1 (c :: s) = c :: r1 s) by (apply replaceAll_copy; side).
  assert (N2 : Js.isPrefix emsp (r1 (c :: s)) = false).
  { destruct (Js.isPrefix emsp (r1 (c :: s))) eqn:E; [|reflexivity].
    apply replaceAll_transfer in E as (x' & Hx & _); [|side..].
    rewrite Hx, isPrefix_app in H2. discriminate. }
  assert (E2 : r2 (r1 (c :: s)) = c :: r2 (r1 s)).
  { rewrite E1 in N2 |- *. apply replaceAll_copy; side. }
  assert (N3 : Js.isPrefix nbsp (r2 (r1 (c :: s))) = false).
  { destruct (Js.isPrefix nbsp (r2 (r1 (c :: s)))) eqn:E; [|reflexivity].
    apply replaceAll_transfer in E as (x' & Hx & _); [|side..].
    assert (Js.isPrefix nbsp (r1 (c :: s)) = true) as E' by (rewrite Hx; apply isPrefix_app).
    apply replaceAll_transfer in E' as (x'' & Hx' & _); [|side..].
    rewrite Hx', isPrefix_app in H3. discriminate. }
  assert (E3 : r3 (r2 (r1 (c :: s))) = c :: r3 (r2 (r1 s))).
  { rewrite E2 in N3 |- *. apply replaceAll_copy; side. }
  split; [exact E3|].
  intros p [->|[->| ->]] Hp.
  - apply replaceAll_transfer in Hp as (y3 & Hy3 & _); [|side..].
    assert (Js.isPrefix ccsp (r2 (r1 (c :: s))) = true) as Hp2
      by (rewrite Hy3; apply isPrefix_app).
    apply replaceAll_transfer in Hp2 as (y2 & Hy2 & _); [|side..].
    assert (Js.isPrefix ccsp (r1 (c :: s)) = true) as Hp1
      by (rewrite Hy2; apply isPrefix_app).
    apply (replaceAll_transfer_tail ensp ccsp 99 (Js.lit "csp&;")) in Hp1 as (y1 & ->);
      [reflexivity | side..].
  - apply replaceAll_transfer in Hp as (y3 & Hy3 & _); [|side..].
    assert (Js.isPrefix ecsp (r2 (r1 (c :: s))) = true) as Hp2
      by (rewrite Hy3; apply isPrefix_app).
    apply (replaceAll_transfer_tail emsp ecsp 101 (Js.lit "csp&;")) in Hp2 as (y2 & Hy2);
      [|side..].
    assert (Js.isPrefix ecsp (r1 (c :: s)) = true) as Hp1 by (now rewrite Hy2).
    apply replaceAll_transfer in Hp1 as (y1 & -> & _); [|side..]. apply isPrefix_app.
  - apply (replaceAll_transfer_tail nbsp ncsp 110 (Js.lit "csp&;")) in Hp as (y3 & Hy3);
      [|side..].
    assert (Js.isPrefix ncsp (r2 (r1 (c :: s))) = true) as Hp2 by (now rewrite Hy3).
    apply replaceAll_transfer in Hp2 as (y2 & Hy2 & _); [|side..].
    assert (Js.isPrefix ncsp (r1 (c :: s)) = true) as Hp1
      by (rewrite Hy2; apply isPrefix_app).
    apply replaceAll_transfer in Hp1 as (y1 & -> & _); [|side..]. apply isPrefix_app.
Qed.

Lemma recoverHtmlSpaces_copy (c : N) (t : jsstring) :
  Js.isPrefix ccsp (c :: t) = false ->
  Js.isPrefix ecsp (c :: t) = false ->
  Js.isPrefix ncsp (c :: t) = false ->
  Find.recoverHtmlSpaces (c :: t) = c :: Find.recoverHtmlSpaces t.
Proof.
  intros H1 H2 H3. unfold Find.recoverHtmlSpaces.
  set (s1 := fun x => Js.replaceAll x ccsp ensp).
  set (s2 := fun x => Js.replaceAll x ecsp emsp).
  set (s3 := fun x => Js.replaceAll x ncsp nbsp).
  change (s3 (s2 (s1 (c :: t))) = c :: s3 (s2 (s1 t))).
  assert (E1 : s1 (c :: t) = c :: s1 t) by (apply replaceAll_copy; side).
  assert (N2 : Js.isPrefix ecsp (s1 (c :: t)) = false).
  { destruct (Js.isPrefix ecsp (s1 (c :: t))) eqn:E; [|reflexivity].
    apply replaceAll_transfer in E as (x' & Hx & _); [|side..].
    rewrite Hx, isPrefix_app in H2. discriminate. }
  assert (E2 : s2 (s1 (c :: t)) = c :: s2 (s1 t)).
  { rewrite E1 in N2 |- *. apply replaceAll_copy; side. }
  assert (N3 : Js.isPrefix ncsp (s2 (s1 (c :: t))) = false).
  { destruct (Js.isPrefix ncsp (s2 (s1 (c :: t)))) eqn:E; [|reflexivity].
    apply replaceAll_transfer in E as (x' & Hx & _); [|side..].
    assert (Js.isPrefix ncsp (s1 (c :: t)) = true) as E' by (rewrite Hx; apply isPrefix_app).
    apply replaceAll_transfer in E' as (x'' & Hx' & _); [|side..].
    rewrite Hx', isPrefix_app in H3. discriminate. }
  rewrite E2 in N3 |- *. apply replaceAll_copy; side.
Qed.

Lemma recover_replace_aux (n : nat) (code : jsstring) :
  (length code <= n)%nat ->
  Js.find ccsp code = None -> Js.find ecsp code = None -> Js.find ncsp code = None ->
  Find.recoverHtmlSpaces (Find.replaceHtmlSpaces code) = code.
Proof.
  revert code. induction n as [|n IH]; intros code Hlen Hc He Hn.
  { destruct code; [reflexivity | cbn in Hlen; lia]. }
  destruct code as [|c s]; [reflexivity|].
  assert (Hentity : forall entity rest, entity = ensp \/ entity = emsp \/ entity = nbsp ->
            c :: s = entity ++ rest ->
            Find.recoverHtmlSpaces (Find.replaceHtmlSpaces rest) = rest).
  { intros entity rest Hentity Heq. rewrite Heq in Hlen, Hc, He, Hn.
    apply find_None_app_r in Hc, He, Hn. apply IH; try assumption.
    rewrite length_app in Hlen. destruct Hentity as [->|[->| ->]]; cbn in Hlen; lia. }
  destruct (Js.isPrefix ensp (c :: s)) eqn:H1.
  { apply isPrefix_true in H1 as (rest & Heq). rewrite Heq.
    rewrite replaceHtmlSpaces_ensp, recoverHtmlSpaces_ccsp. f_equal.
    apply (Hentity ensp); auto. }
  destruct (Js.isPrefix emsp (c :: s)) eqn:H2.
  { apply isPrefix_true in H2 as (rest & Heq). rewrite Heq.
    rewrite replaceHtmlSpaces_emsp, recoverHtmlSpaces_ecsp. f_equal.
    apply (Hentity emsp); auto. }
  destruct (Js.isPrefix nbsp (c :: s)) eqn:H3.
  { apply isPrefix_true in H3 as (rest & Heq). rewrite Heq.
    rewrite replaceHtmlSpaces_nbsp, recoverHtmlSpaces_ncsp. f_equal.
    apply (Hentity nbsp); auto. }
  destruct (replaceHtmlSpaces_copy c s H1 H2 H3) as (Hcopy & Hplace).
  pose proof (find_None_prefix _ _ Hc) as Pc.
  pose proof (find_None_prefix _ _ He) as Pe.
  pose proof (find_None_prefix _ _ Hn) as Pn.
  assert (Hnone : forall p, p = ccsp \/ p = ecsp \/ p = ncsp ->
            Js.isPrefix p (c :: Find.replaceHtmlSpaces s) = false).
  { intros p Hp. rewrite <- Hcopy.
    destruct (Js.isPrefix p (Find.replaceHtmlSpaces (c :: s))) eqn:E; [|reflexivity].
    apply (Hplace p Hp) in E. destruct Hp as [->|[->| ->]]; congruence. }
  rewrite Hcopy, recoverHtmlSpaces_copy by (apply Hnone; auto). f_equal.
  apply find_None_inv in Hc as [_ Hc]. apply find_None_inv in He as [_ He].
  apply find_None_inv in Hn as [_ Hn]. apply IH; try assumption. cbn in Hlen. lia.
Qed.

End HtmlSpaces.

(** X17. [recoverHtmlSpaces] undoes [replaceHtmlSpaces] on every text that
    has none of the three placeholders in it: the entities [&ensp;],
    [&emsp;] and [&nbsp;] come back where they were, and nothing else
    changes. *)
Theorem recoverHtmlSpaces_replaceHtmlSpaces (code : jsstring) :
  Js.find (Js.lit "ccsp&;") code = None ->
  Js.find (Js.lit "ecsp&;") code = None ->
  Js.find (Js.lit "ncsp&;") code = None ->
  Find.recoverHtmlSpaces (Find.replaceHtmlSpaces code) = code.
Proof. apply (recover_replace_aux (length code)). lia. Qed.

(** ** Initialisation *)

Lemma matchDigits_found (lead digits rest : jsstring) :
  forallb (fun c => negb (Init.isDigit c)) lead = true ->
  digits <> [] -> forallb Init.isDigit digits = true ->
  match rest with [] => True | c :: _ => Init.isDigit c = false end ->
  Init.matchDigits (lead ++ digits ++ rest) = Some digits.
Proof.
  intros Hlead Hne Hdigits Hrest. induction lead as [|c lead IH].
  - destruct digits as [|d digits]; [congruence|]. cbn [app Init.matchDigits].
    pose proof Hdigits as Hd. cbn in Hd. apply andb_true_iff in Hd as [-> _].
    change (d :: digits ++ rest) with ((d :: digits) ++ rest).
    now rewrite spanOf_app.
  - cbn in Hlead. apply andb_true_iff in Hlead as [Hc Hlead]. apply negb_true_iff in Hc.
    cbn [app Init.matchDigits]. rewrite Hc. now apply IH.
Qed.

(** X18. What [getVueMajorVersion] makes of the version of [vue] it finds
    in [package.json]: the first run of digits of the text decides, [2]
    gives [vue2], [3] gives [vue3], and any other number, [20] as well as
    [1], gives nothing. *)
Theorem getVueMajorVersion_first_number (pkg : Find.Json) (lead digits rest : jsstring) :
  Init.vueVersionOfPackage pkg = Find.Ok (Some (Find.JString (lead ++ digits ++ rest))) ->
  forallb (fun c => negb (Init.isDigit c)) lead = true ->
  digits <> [] -> forallb Init.isDigit digits = true ->
  match rest with [] => True | c :: _ => Init.isDigit c = false end ->
  Init.getVueMajorVersion (Find.Parsed pkg)
  = if Js.eqb digits (Js.lit "2") then Some (Js.lit "vue2")
    else if Js.eqb digits (Js.lit "3") then Some (Js.lit "vue3")
    else None.
Proof.
  intros Hpkg Hlead Hne Hdigits Hrest. unfold Init.getVueMajorVersion. rewrite Hpkg.
  rewrite matchDigits_found by assumption.
  assert (Js.truthy (lead ++ digits ++ rest) = true) as ->; [|reflexivity].
  apply truthy_app_r, truthy_app_l. destruct digits; [congruence | reflexivity].
Qed.

Lemma getVueMajorVersion_values (package : Find.ConfigFile) (version : jsstring) :
  Init.getVueMajorVersion package = Some version ->
  version = Js.lit "vue2" \/ version = Js.lit "vue3".
Proof.
  unfold Init.getVueMajorVersion. destruct package as [| | |pkg]; try discriminate.
  destruct (Init.vueVersionOfPackage pkg) as [[[| | |v| |]|]|]; try discriminate.
  destruct (Js.truthy v); [|discriminate].
  destruct (Init.matchDigits v) as [digits|]; [|discriminate].
  destruct (Js.eqb digits (Js.lit "2")); [intros [= <-]; now left|].
  destruct (Js.eqb digits (Js.lit "3")); [intros [= <-]; now right | discriminate].
Qed.

Lemma lastSet_app (a b : list (jsstring * option Find.Json)) (name : jsstring) :
  Init.lastSet (a ++ b) name
  = match Init.lastSet b name with Some w => Some w | None => Init.lastSet a name end.
Proof.
  induction a as [|[k v] a IH]; cbn.
  - now destruct (Init.lastSet b name).
  - rewrite IH. now destruct (Init.lastSet b name).
Qed.

Lemma lastSet_defined (fields : list (jsstring * Find.Json)) (name : jsstring) :
  Init.lastSet (map (fun member => (fst member, Some (snd member))) fields) name
  = Some <$> Find.lastField fields name.
Proof.
  induction fields as [|[k v] fields IH]; cbn; [reflexivity|].
  rewrite IH. destruct (Find.lastField fields name); cbn; [reflexivity|].
  now destruct (Js.eqb k name).
Qed.

Lemma lastSet_None_keys (members : list (jsstring * option Find.Json)) (name : jsstring) :
  Init.lastSet members name = None -> forall k v, (k, v) ∈ members -> k <> name.
Proof.
  induction members as [|[k0 v0] members IH]; cbn; intros Hnone k v Hin.
  - inversion Hin.
  - destruct (Init.lastSet members name) eqn:E; [discriminate|].
    destruct (Js.eqb k0 name) eqn:Ek; [discriminate|]. apply eqb_neq in Ek.
    apply elem_of_cons in Hin as [[= -> ->]|Hin]; [exact Ek | eauto].
Qed.

Lemma lastField_omap (final : jsstring -> option (option Find.Json))
    (members : list (jsstring * option Find.Json)) (name : jsstring) :
  Find.lastField
    (omap (fun member => match final (fst member) with
                         | Some (Some v) => Some (fst member, v)
                         | _ => None
                         end) members) name
  = match Init.lastSet members name with
    | Some _ => match final name with Some (Some v) => Some v | _ => None end
    | None => None
    end.
Proof.
  induction members as [|[k v] members IH]; [reflexivity|].
  cbn [omap list_omap fst Init.lastSet].
  assert (Hhead : forall u,
            Find.lastField
              ((k, u) :: omap (fun member => match final (fst member) with
                                             | Some (Some v) => Some (fst member, v)
                                             | _ => None
                                             end) members) name
            = match Find.lastField
                      (omap (fun member => match final (fst member) with
                                           | Some (Some v) => Some (fst member, v)
                                           | _ => None
                                           end) members) name with
              | Some w => Some w
              | None => if Js.eqb k name then Some u else None
              end) by reflexivity.
  destruct (Js.eqb k name) eqn:Ek.
  - apply eqb_eq in Ek. subst k.
    destruct (final name) as [[u|]|].
    + rewrite Hhead, IH. replace (Js.eqb name name) with true by (symmetry; now apply eqb_eq).
      now destruct (Init.lastSet members name).
    + rewrite IH. now destruct (Init.lastSet members name).
    + rewrite IH. now destruct (Init.lastSet members name).
  - destruct (final k) as [[u|]|].
    + rewrite Hhead, IH, ?Ek. destruct (Init.lastSet members name); [|reflexivity].
      now destruct (final name) as [[u'|]|].
    + rewrite IH. now destruct (Init.lastSet members name).
    + rewrite IH. now destruct (Init.lastSet members name).
Qed.

Lemma lastField_readBack (members : list (jsstring * option Find.Json)) (name : jsstring) :
  match Init.readBack members with
  | Find.JObject fields => Find.lastField fields name
  | _ => None
  end
  = match Init.lastSet members name with Some (Some v) => Some v | _ => None end.
Proof.
  unfold Init.readBack. rewrite (lastField_omap (Init.lastSet members)).
  now destruct (Init.lastSet members name) as [[v|]|].
Qed.

(** X19. The configuration [creteConfigFile] writes makes the extractor of
    component files take the version [getVueMajorVersion] has found in
    [package.json]: version 2 for [vue2], version 3 for [vue3]; when it has
    found none, the configuration says what the default configuration
    says, and the extractor takes version 3 unless that is [vue2].  The
    text of the file is taken to be read back as it was written. *)
Theorem init_config_selects_extractor (defaultConfig : list (jsstring * Find.Json))
    (package : Find.ConfigFile) (existDir type : option jsstring) :
  let vueVersion := Init.getVueMajorVersion package in
  let written := Find.Parsed (Init.readBack
                                (Init.configObj defaultConfig existDir type vueVersion)) in
  Find.getVueVersionFromConfig written
  = match vueVersion with
    | Some version => Find.JString version
    | None => Find.getVueVersionFromConfig (Find.Parsed (Find.JObject defaultConfig))
    end
  /\ Find.isVue2 (Find.getVueVersionFromConfig written)
     = match vueVersion with
       | Some version => Js.eqb version (Js.lit "vue2")
       | None => Find.isVue2 (Find.getVueVersionFromConfig
                                (Find.Parsed (Find.JObject defaultConfig)))
       end.
Proof.
  intros vueVersion written.
  assert (Hmain : Find.getVueVersionFromConfig written
                  = match vueVersion with
                    | Some version => Find.JString version
                    | None => Find.getVueVersionFromConfig
                                (Find.Parsed (Find.JObject defaultConfig))
                    end).
  { subst written. unfold Find.getVueVersionFromConfig.
    pose proof (lastField_readBack
                  (Init.configObj defaultConfig existDir type vueVersion)
                  (Js.lit "vueVersion")) as Hread.
    unfold Init.readBack in Hread |- *. unfold Find.vueVersionOf. rewrite Hread.
    unfold Init.configObj. rewrite !lastSet_app.
    destruct vueVersion as [version|] eqn:Hv.
    - cbn. destruct (getVueMajorVersion_values package version Hv) as [->| ->]; reflexivity.
    - cbn [Init.lastSet]. rewrite lastSet_defined.
      change (Js.eqb (Js.lit "fileType") (Js.lit "vueVersion")) with false.
      change (Js.eqb (Js.lit "kiwiDir") (Js.lit "vueVersion")) with false.
      now destruct (Find.lastField defaultConfig (Js.lit "vueVersion")). }
  split; [exact Hmain|]. rewrite Hmain. now destruct vueVersion.
Qed.

(** ** Examples of the properties above *)

Ltac each_of H :=
  repeat (apply elem_of_cons in H as [->|H]);
  try (apply elem_of_nil in H; contradiction).

Ltac absent :=
  let H := fresh in
  intros H; repeat (apply elem_of_cons in H as [H|H]; [discriminate H|]);
  apply elem_of_nil in H; contradiction.

(** The text ["甲"] twice in one file: both literals get [common.jia]. *)
Lemma getReplaceableStrs_same_text_same_key_witness :
  exists st,
    Extract.getReplaceableStrs (fun token => token) [Js.lit "common"] None
      [Js.lit "jia"; Js.lit "jia"] [] [Examples.jiaAgain; Examples.jia] = Some st
    /\ map Extract.key (Extract.replaceableStrs st)
       = [Obj.Str (Js.lit "common.jia"); Obj.Str (Js.lit "common.jia")]
    /\ forall a b, a ∈ Extract.replaceableStrs st -> b ∈ Extract.replaceableStrs st ->
         text (Extract.target a) = text (Extract.target b) -> Extract.key a = Extract.key b.
Proof.
  destruct (Extract.getReplaceableStrs (fun token => token) [Js.lit "common"] None
              [Js.lit "jia"; Js.lit "jia"] [] [Examples.jiaAgain; Examples.jia])
    as [st|] eqn:Hrun; [|vm_compute in Hrun; discriminate].
  exists st. split; [reflexivity|]. split.
  - vm_compute in Hrun. injection Hrun as <-. reflexivity.
  - apply (getReplaceableStrs_same_text_same_key (fun token => token) [Js.lit "common"] None
             [Js.lit "jia"; Js.lit "jia"] [] [Examples.jiaAgain; Examples.jia] st);
      [discriminate | exact Hrun].
Defined.

(** With [common.jia] bound to ["甲"] in the catalog, the keys of ["乙"] and
    ["甲"] are bound to these texts in the final catalog; the key of the
    text [constructor] is the member of that name every object inherits. *)
Lemma getReplaceableStrs_keys_resolve_witness :
  exists st,
    Extract.getReplaceableStrs (fun token => token) [Js.lit "common"] None
      [Js.lit "yi"; Js.lit "jia"; Js.lit "gouZao"] Examples.jiaCatalog
      [Examples.yi; Examples.jia; Examples.constructorSpan] = Some st
    /\ map Extract.key (Extract.replaceableStrs st)
       = [Obj.Str (Js.lit "common.yi"); Obj.Str (Js.lit "common.jia");
          Obj.Inherited (Js.lit "constructor")]
    /\ (forall item, item ∈ Extract.replaceableStrs st ->
          match Extract.key item with
          | Obj.Str k =>
              Obj.inherited (text (Extract.target item)) = false
              /\ Obj.get (Extract.finalLangObj st) k = Some (text (Extract.target item))
          | Obj.Inherited name =>
              name = text (Extract.target item) /\ Obj.inherited name = true
          end)
    /\ (forall a b, a ∈ Extract.replaceableStrs st -> b ∈ Extract.replaceableStrs st ->
          Extract.key a = Extract.key b ->
          text (Extract.target a) = text (Extract.target b)).
Proof.
  destruct (Extract.getReplaceableStrs (fun token => token) [Js.lit "common"] None
              [Js.lit "yi"; Js.lit "jia"; Js.lit "gouZao"] Examples.jiaCatalog
              [Examples.yi; Examples.jia; Examples.constructorSpan])
    as [st|] eqn:Hrun; [|vm_compute in Hrun; discriminate].
  exists st. split; [reflexivity|]. split.
  { vm_compute in Hrun. injection Hrun as <-. reflexivity. }
  apply (getReplaceableStrs_keys_resolve (fun token => token) [Js.lit "common"] None
           [Js.lit "yi"; Js.lit "jia"; Js.lit "gouZao"] Examples.jiaCatalog
           [Examples.yi; Examples.jia; Examples.constructorSpan] st).
  - discriminate.
  - apply NoDup_singleton.
  - intros k Hk. change (Obj.keys Examples.jiaCatalog) with [Js.lit "common.jia"] in Hk.
    each_of Hk. absent.
  - exact Hrun.
Defined.

(** With [common.jia] bound to ["甲"] in the catalog, the literal ["甲"]
    asks for no write, and its key is the one of the catalog. *)
Lemma getReplaceableStrs_no_write_known_text_witness :
  exists st,
    Extract.getReplaceableStrs (fun token => token) [Js.lit "common"] None
      [Js.lit "jia"] Examples.jiaCatalog [Examples.jia] = Some st
    /\ map Extract.needWrite (Extract.replaceableStrs st) = [false]
    /\ forall item, item ∈ Extract.replaceableStrs st -> Extract.needWrite item = false ->
         exists k, (k, text (Extract.target item)) ∈ Examples.jiaCatalog
                   /\ Extract.key item = Obj.Str (Extract.replaceHyphens k).
Proof.
  destruct (Extract.getReplaceableStrs (fun token => token) [Js.lit "common"] None
              [Js.lit "jia"] Examples.jiaCatalog [Examples.jia])
    as [st|] eqn:Hrun; [|vm_compute in Hrun; discriminate].
  exists st. split; [reflexivity|]. split.
  - vm_compute in Hrun. injection Hrun as <-. reflexivity.
  - apply (getReplaceableStrs_no_write_known_text (fun token => token) [Js.lit "common"] None
             [Js.lit "jia"] Examples.jiaCatalog [Examples.jia] st);
      [discriminate | exact Hrun].
Defined.

(** The literals ["乙"] and ["甲"] for the Pinyin translator: the joined
    text splits into two fragments. *)
Lemma batchTranslate_fragments_recoverable_witness :
  exists joined c,
    Extract.delimiterOf Extract.Pinyin = [c]
    /\ Extract.batchTranslate [Examples.yi; Examples.jia] Extract.Pinyin
       = Extract.TranslateKeyText (Some joined) Extract.Pinyin
    /\ Js.split joined c = Extract.fragments [Examples.yi; Examples.jia]
    /\ length (Js.split joined c) = length [Examples.yi; Examples.jia].
Proof.
  apply (batchTranslate_fragments_recoverable [Examples.yi; Examples.jia] Extract.Pinyin);
    discriminate.
Defined.

(** The path [src/user-list/index.tsx] has no page in it: the suggestion
    is [user_list] and [index]. *)
Lemma getSuggestion_from_path_witness :
  Extract.getSuggestion (fun path => path) (Js.lit "src/user-list/index.tsx")
  = Find.Ok [Js.lit "user_list"; Js.lit "index"].
Proof.
  apply (getSuggestion_from_path (fun path => path) (Js.lit "src/user-list/index.tsx")
           (Js.lit "src/") (Js.lit "user-list") (Js.lit "index") (Js.lit ".tsx")).
  - reflexivity.
  - reflexivity.
  - right. exists (Js.lit "src"). reflexivity.
  - absent.
  - absent.
  - absent.
  - absent.
  - right. exists (Js.lit "tsx"). reflexivity.
Defined.

(** The path [src/pages/home/user-list/index.tsx]: the suggestion is
    [user-list], with its hyphen, and [index]. *)
Lemma getSuggestion_pages_witness :
  Extract.getSuggestion (fun path => path) (Js.lit "src/pages/home/user-list/index.tsx")
  = Find.Ok [Js.lit "user-list"; Js.lit "index"].
Proof.
  apply (getSuggestion_pages (fun path => path) (Js.lit "src/pages/home/user-list/index.tsx")
           (Js.lit "src") (Js.lit "home") (Js.lit "user-list") (Js.lit "index")
           (Js.lit ".tsx")).
  - reflexivity.
  - reflexivity.
  - discriminate.
  - reflexivity.
  - discriminate.
  - absent.
  - discriminate.
  - absent.
  - absent.
  - right. exists 46%N, (Js.lit "tsx"). split; [reflexivity | now right].
Defined.

(** In [<p>{{ '中' + x }}</p>] the replacement of the literal takes the
    [+ x] with it. *)
Lemma replaceAndUpdate_in_interpolation_witness :
  Replace.replaceAndUpdate (Js.lit "lang") (Js.lit "ts") Examples.lib Examples.zhongWorld (Js.lit "a.vue")
    Examples.zhongSpan (Js.lit "I18N.common.zhong") false true
  = Replace.writeUpdatedFile (Js.lit "lang") (Js.lit "ts") Examples.lib Examples.zhongWorld (Js.lit "a.vue")
      (Js.lit "<p>{{I18N.common.zhong}}</p>") (Js.lit "I18N.common.zhong") [0x4E2D%N]
      false true.
Proof.
  destruct (replaceAndUpdate_in_interpolation (Js.lit "lang") (Js.lit "ts") Examples.lib Examples.zhongWorld
              (Js.lit "a.vue") Examples.zhongSpan (Js.lit "I18N.common.zhong") false true
              eq_refl eq_refl eq_refl) as (_ & _ & ->).
  reflexivity.
Defined.

(** The key [I18N.common.tiJiao] with no language file yet: the file
    [lang/common.ts] is made with the text under [tiJiao], and the
    aggregator with [common] in it. *)
Lemma updateLangFiles_stores_witness :
  exists w',
    Replace.updateLangFiles (Js.lit "lang") (Js.lit "ts") Examples.lib Examples.tiJiaoWorld
      (Js.lit "I18N.common.tiJiao") [0x63D0; 0x4EA4]%N true = Find.Ok w'
    /\ Obj.get (Replace.langFiles w') (Js.lit "lang/common.ts")
       = Some (Js.lit "export default {" ++ [10%N] ++ Js.lit "  tiJiao: '"
               ++ [0x63D0; 0x4EA4]%N ++ Js.lit "'," ++ [10%N] ++ Js.lit "};" ++ [10%N])
    /\ Obj.get (Replace.langFiles w') (Js.lit "lang/index.ts")
       = Some (Replace.createNewMainLangFile (Js.lit "common"))
    /\ Replace.sources w' = Replace.sources Examples.tiJiaoWorld.
Proof.
  destruct (updateLangFiles_stores (Js.lit "lang") (Js.lit "ts") Examples.lib
              Examples.tiJiaoWorld (Js.lit "common") (Js.lit "tiJiao") [0x63D0; 0x4EA4]%N true)
    as (w' & Hcall & Hfile & Hmain & _ & Hsources).
  - absent.
  - discriminate.
  - exists w'. repeat split; assumption.
Defined.

(** The two literals of [f('甲', '乙')], the second one first: the file
    becomes [f(I18N.common.jia, I18N.common.yi)]. *)
Lemma replaceEach_replaces_all_witness :
  exists w',
    Replace.replaceEach (Js.lit "lang") (Js.lit "ts") Examples.importI18N
      (fun _ => []) (fun _ => 0) Examples.lib Examples.callWorld (Js.lit "a.ts")
      Examples.callItems
    = (Replace.addImportIfAbsent Examples.importI18N (fun _ => []) (fun _ => 0) w'
         (Js.lit "a.ts"), Replace.Resolved)
    /\ Replace.readFile w' (Js.lit "a.ts") = Js.lit "f(I18N.common.jia, I18N.common.yi)".
Proof.
  destruct (replaceEach_replaces_all (Js.lit "lang") (Js.lit "ts") Examples.importI18N
              (fun _ => []) (fun _ => 0) Examples.lib Examples.callWorld (Js.lit "a.ts")
              Examples.callItems) as (w' & Hrun & Hfile).
  - repeat (apply List.Forall_cons || apply List.Forall_nil);
      (split; [cbn; lia | vm_compute; discriminate]).
  - repeat (apply SSorted_cons || apply SSorted_nil
            || apply List.Forall_cons || apply List.Forall_nil); cbn; lia.
  - repeat (apply List.Forall_cons || apply List.Forall_nil); reflexivity.
  - exists w'. split; [exact Hrun|]. rewrite Hfile. reflexivity.
Defined.

(** Of the two literals of [f('甲', '乙')] and a span inside the second
    one, the two literals are kept, the second one first. *)
Lemma kept_literals_apart_witness :
  Extract.filterTargetStrs
    (Extract.sortTexts [Examples.callJia; Examples.callYi; Examples.callInYi])
  = [Examples.callYi; Examples.callJia]
  /\ StronglySorted (fun a b => end_ (range b) <= start (range a))
       (Extract.filterTargetStrs
          (Extract.sortTexts [Examples.callJia; Examples.callYi; Examples.callInYi])).
Proof.
  split; [reflexivity|].
  apply (kept_literals_apart [Examples.callJia; Examples.callYi; Examples.callInYi]).
  - intros x Hx. each_of Hx; cbn; lia.
  - intros x y Hx Hy. each_of Hx; each_of Hy; cbn; lia.
  - intros x y Hx Hy. each_of Hx; each_of Hy; cbn; lia.
Defined.

(** The run on [src/f/a.ts], the file [f('甲', '乙')], with the two
    literals and a span inside the second one found: the file becomes
    [f(I18N.f.a.jia, I18N.f.a.yi)]. *)
Lemma extract_file_replaces_kept_literals_witness :
  exists st w',
    Extract.getReplaceableStrs (fun token => token) [Js.lit "f"; Js.lit "a"] None
      [Js.lit "yi"; Js.lit "jia"] []
      (Extract.filterTargetStrs
         (Extract.sortTexts [Examples.callJia; Examples.callYi; Examples.callInYi]))
    = Some st
    /\ Replace.generateKeyAndReplaceFile (Js.lit "lang") (Js.lit "ts") Examples.importI18N
         (fun _ => []) (fun _ => 0) Examples.lib (fun token => token) (fun path => path)
         [] None Examples.srcCallWorld (Js.lit "src/f/a.ts")
         (Extract.sortTexts [Examples.callJia; Examples.callYi; Examples.callInYi])
         (Some [Js.lit "yi"; Js.lit "jia"])
       = (Replace.addImportIfAbsent Examples.importI18N (fun _ => []) (fun _ => 0) w'
            (Js.lit "src/f/a.ts"), Replace.Resolved)
    /\ Replace.readFile w' (Js.lit "src/f/a.ts") = Js.lit "f(I18N.f.a.jia, I18N.f.a.yi)".
Proof.
  destruct (extract_file_replaces_kept_literals (fun token => token) (fun path => path)
              [Js.lit "f"; Js.lit "a"] None
              [Js.lit "yi"; Js.lit "jia"] [] (Js.lit "lang") (Js.lit "ts")
              Examples.importI18N (fun _ => []) (fun _ => 0) Examples.lib
              Examples.srcCallWorld
              (Js.lit "src/f/a.ts") [Examples.callJia; Examples.callYi; Examples.callInYi])
    as (_ & _ & st & w' & Hkeys & _ & Hrun & Hfile).
  - discriminate.
  - reflexivity.
  - intros x Hx. each_of Hx; (split; [cbn; lia | vm_compute; discriminate]).
  - intros x y Hx Hy. each_of Hx; each_of Hy; cbn; lia.
  - intros x y Hx Hy. each_of Hx; each_of Hy; cbn; lia.
  - intros x Hx. each_of Hx; reflexivity.
  - exists st, w'. split; [exact Hkeys|]. split; [exact Hrun|]. rewrite Hfile.
    vm_compute in Hkeys. injection Hkeys as <-. reflexivity.
Defined.

(** The aggregator made for [common], and [user] added to it. *)
Lemma addImportToMainLangFile_layout_witness :
  Replace.addImportToMainLangFile None (Js.lit "common")
  = Replace.aggregator (Js.lit "common") [] [Js.lit "common"]
  /\ Replace.addImportToMainLangFile
       (Some (Replace.aggregator (Js.lit "common") [] [Js.lit "common"])) (Js.lit "user")
     = Replace.aggregator (Js.lit "common") [Js.lit "user"] [Js.lit "common"; Js.lit "user"].
Proof.
  apply (addImportToMainLangFile_layout (Js.lit "common") [] [Js.lit "common"] (Js.lit "user")).
  - reflexivity.
  - apply List.Forall_nil.
  - apply List.Forall_cons; [reflexivity | apply List.Forall_nil].
  - discriminate.
  - reflexivity.
Defined.

(** The text [a&nbsp;b&ensp;c] comes back from its placeholders. *)
Lemma recoverHtmlSpaces_replaceHtmlSpaces_witness :
  Find.replaceHtmlSpaces (Js.lit "a&nbsp;b&ensp;c") = Js.lit "ancsp&;bccsp&;c"
  /\ Find.recoverHtmlSpaces (Find.replaceHtmlSpaces (Js.lit "a&nbsp;b&ensp;c"))
     = Js.lit "a&nbsp;b&ensp;c".
Proof.
  split; [reflexivity|].
  apply (recoverHtmlSpaces_replaceHtmlSpaces (Js.lit "a&nbsp;b&ensp;c")); reflexivity.
Defined.

(** A dependency on [vue] at [^2.6.14] is version 2. *)
Lemma getVueMajorVersion_first_number_witness :
  Init.getVueMajorVersion (Find.Parsed Examples.vue2Package) = Some (Js.lit "vue2").
Proof.
  apply (getVueMajorVersion_first_number Examples.vue2Package
           (Js.lit "^") (Js.lit "2") (Js.lit ".6.14")).
  - reflexivity.
  - reflexivity.
  - discriminate.
  - reflexivity.
  - reflexivity.
Defined.
